(** * rpi.c : register-level peripheral access for the BCM2835 family

    A shallow embedding of the register access primitives, the pin
    multiplexer, the clock-divider sequence and the two bus engines of
    [src/rpi.c], together with the properties of the specification that
    concern them.

    Memory-mapped registers are [volatile]: what a load returns is decided
    by the hardware, not by the last store.  The C functions are therefore
    embedded over an abstract [Device] (how a load and a store act on the
    peripheral), and every load, store, console line and timed wait is
    recorded in a trace, in program order.  Properties that speak about
    every execution are stated for every device; properties that speak
    about register contents are stated on [sim], a register file in which
    a cell holds what was last stored unless a scripted sequence of values
    is attached to it (status flags, FIFO data). *)

From Stdlib Require Import ZArith Lia List String.
From stdpp Require Import base gmap list strings.

Local Open Scope Z_scope.

(** ** Machine integers *)

(** [uint8_t] and [uint32_t] values are integers with explicit wrap-around. *)
Definition u8 (x : Z) : Z := x mod 2 ^ 8.
Definition u32 (x : Z) : Z := x mod 2 ^ 32.

(** ** Register addresses

    A register is named by the index of its window in [base_pointer] and
    by its offset in 32-bit words (the C macros do [uint32_t *] pointer
    arithmetic, so [base_pointer[1] + 0x28] is word 0x28 of window 1). *)
Abbreviation reg := (nat * Z)%type (only parsing).

Definition padd (r : reg) (k : Z) : reg := (r.1, r.2 + k).

Definition GPCTL : reg := (1%nat, 0x28).
Definition GPDIV : reg := (1%nat, 0x29).
Definition GPSEL : reg := (2%nat, 0x0).
Definition CTL : reg := (3%nat, 0x0).
Definition SPI_CS : reg := (4%nat, 0x0).

(** The two-wire (BSC) registers; the source names them [C], [S], [DLEN],
    [A] and [FIFO], all relative to [base_pointer[6]]. *)
Definition BSC_C : reg := (6%nat, 0x0).
Definition BSC_S : reg := padd BSC_C (0x4 / 4).
Definition BSC_DLEN : reg := padd BSC_C (0x8 / 4).
Definition BSC_A : reg := padd BSC_C (0xC / 4).
Definition BSC_FIFO : reg := padd BSC_C (0x10 / 4).

Definition OSC : Z := 0x1.
Definition PLLD : Z := 0x6.

(** ** Observable events *)

Inductive event : Type :=
| EvRead (r : reg) (v : Z)      (* a load from a register and the value seen *)
| EvWrite (r : reg) (v : Z)     (* a store to a register *)
| EvPuts (s : string)           (* a line printed with puts *)
| EvWait (us : Z).              (* uswait / mswait, in microseconds *)

(** ** Devices and the program monad *)

Class Device (D : Type) := {
  dev_read : reg -> D -> Z * D;
  dev_write : reg -> Z -> D -> D
}.

Record world (D : Type) := World {
  hw : D;
  base_pointer : nat -> Z;
  trace : list event
}.
Arguments World {D} _ _ _.
Arguments hw {D} _.
Arguments base_pointer {D} _ _.
Arguments trace {D} _.

Definition emit {D : Type} (e : event) (w : world D) : world D :=
  World (hw w) (base_pointer w) (trace w ++ [e]).

(** Straight-line code: a state monad over the world. *)
Definition M (D A : Type) : Type := world D -> A * world D.

Definition ret {D A : Type} (a : A) : M D A := fun w => (a, w).

Definition bind {D A B : Type} (m : M D A) (k : A -> M D B) : M D B :=
  fun w => let '(a, w1) := m w in k a w1.

(** Code with busy-wait loops: the same, with [None] when the fuel that
    bounds the polling runs out. *)
Definition MO (D A : Type) : Type := world D -> option (A * world D).

Definition lift {D A : Type} (m : M D A) : MO D A := fun w => Some (m w).

Definition bindo {D A B : Type} (m : MO D A) (k : A -> MO D B) : MO D B :=
  fun w => match m w with
           | Some (a, w1) => k a w1
           | None => None
           end.

Declare Scope prog_scope.
Delimit Scope prog_scope with prog.
Notation "x <- m ;; k" := (bind m (fun x => k))
  (at level 100, m at next level, k at level 200, right associativity) : prog_scope.
Notation "m ;; k" := (bind m (fun _ => k))
  (at level 100, k at level 200, right associativity) : prog_scope.
Notation "x <~ m ;; k" := (bindo m (fun x => k))
  (at level 100, m at next level, k at level 200, right associativity) : prog_scope.
Notation "m ;;; k" := (bindo m (fun _ => k))
  (at level 100, k at level 200, right associativity) : prog_scope.
Local Open Scope prog_scope.

Section Program.
Context {D : Type} `{Device D}.

(** *** Primitive effects *)

Definition load (r : reg) : M D Z := fun w =>
  let '(v, d) := dev_read r (hw w) in
  (v, World d (base_pointer w) (trace w ++ [EvRead r v])).

Definition store (r : reg) (v : Z) : M D unit := fun w =>
  (tt, World (dev_write r v (hw w)) (base_pointer w) (trace w ++ [EvWrite r v])).

Definition puts (s : string) : M D unit := fun w => (tt, emit (EvPuts s) w).

Definition uswait (us : Z) : M D unit := fun w => (tt, emit (EvWait us) w).

Definition mswait (ms : Z) : M D unit := fun w => (tt, emit (EvWait (1000 * ms)) w).

Definition get_base (i : nat) : M D Z := fun w => (base_pointer w i, w).

(** *** Register bit manipulation (rpi.c 293-315)

    The [__sync_synchronize()] barriers order the accesses; in this
    sequential model every access already happens in program order. *)

(** [*reg |= mask], returning the value stored. *)
Definition setBit (r : reg) (position : Z) : M D Z :=
  let mask := u32 (Z.shiftl 1 position) in
  v <- load r ;;
  store r (Z.lor v mask) ;;
  ret (Z.lor v mask).

(** [*reg &= ~mask], returning the value stored. *)
Definition clearBit (r : reg) (position : Z) : M D Z :=
  let mask := u32 (Z.shiftl 1 position) in
  v <- load r ;;
  store r (Z.land v (u32 (Z.lnot mask))) ;;
  ret (Z.land v (u32 (Z.lnot mask))).

(** [reg_data & mask ? 1 : 0]; the result is only ever used as a
    condition, so it is a [bool] here. *)
Definition isBitSet (r : reg) (position : Z) : M D bool :=
  let mask := u32 (Z.shiftl 1 position) in
  v <- load r ;;
  ret (negb (Z.land v mask =? 0)).

(** *** Pin multiplexer (rpi.c 333-349) *)

Definition set_gpio (pin fsel : Z) : M D unit :=
  let gpsel := padd GPSEL (pin / 10) in
  let mask := u32 (Z.lnot (Z.shiftl 7 ((pin mod 10) * 3))) in
  v <- load gpsel ;;
  store gpsel (Z.land v mask) ;;
  let mask := u32 (Z.shiftl fsel ((pin mod 10) * 3)) in
  v <- load gpsel ;;
  store gpsel (Z.lor v mask).

(** *** Clock divider (rpi.c 678-753) *)

Definition get_clk_src : M D Z :=
  let mask := 0x0000000F in
  v <- load GPCTL ;;
  ret (u8 (Z.land v mask)).

Definition set_clock_div (div : Z) : M D unit :=
  clearBit CTL 0 ;;
  clearBit CTL 8 ;;
  uswait 10 ;;
  src <- get_clk_src ;;
  (if src =? OSC then store GPCTL 0x5A000001
   else
     src <- get_clk_src ;;
     if src =? PLLD then store GPCTL 0x5A000006 else ret tt) ;;
  uswait 20 ;;
  busy <- isBitSet GPCTL 7 ;;
  (if busy then store GPCTL 0x5A000020 ;; uswait 100 else ret tt) ;;
  busy <- isBitSet GPCTL 7 ;;
  (if negb busy then store GPDIV (Z.lor 0x5A000000 (u32 (Z.shiftl div 12)))
   else ret tt) ;;
  uswait 20.

Definition pwm_set_clock_freq (div : Z) : M D Z :=
  (if (0 <? div) && (div <? 4096) then set_clock_div div
   else puts "Invalid div value") ;;
  store GPCTL 0x5A000011 ;;
  uswait 10 ;;
  src <- get_clk_src ;;
  if src =? OSC then ret OSC else ret (u8 (-1)).

(** *** Helpers shared by the bus engines (rpi.c 978-990) *)

Definition clear_fifo (r : reg) : M D unit :=
  let mask := u32 (Z.lnot (Z.shiftl 3 4)) in
  v <- load r ;;
  store r (Z.land v mask) ;;
  let mask := Z.shiftl 3 4 in
  v <- load r ;;
  store r (Z.lor v mask).

Definition reset_error_status : M D unit :=
  setBit BSC_S 9 ;;
  setBit BSC_S 8 ;;
  setBit BSC_S 1 ;;
  ret tt.

(** [isBitSet(S, 1) && !isBitSet(S, 0)]: the second load happens only
    when the first one saw the bit set. *)
Definition done_and_idle : M D bool :=
  done <- isBitSet BSC_S 1 ;;
  if done then ta <- isBitSet BSC_S 0 ;; ret (negb ta) else ret false.

(** *** Two-wire engine: polling loops

    [while (isBitSet(S, bit)) { *fifo = buf[i]; i++; }] with [i] a
    [uint8_t].  A buffer is a list of bytes; an index past its end reads
    0 here (the C code reads whatever follows the buffer). *)
Fixpoint fifo_fill (bit : Z) (fuel : nat) (buf : list Z) (i : Z)
    (w : world D) : option (Z * world D) :=
  match fuel with
  | O => None
  | S n =>
      let '(b, w1) := isBitSet BSC_S bit w in
      if b then
        let '(_, w2) := store BSC_FIFO (nth (Z.to_nat i) buf 0) w1 in
        fifo_fill bit n buf (u8 (i + 1)) w2
      else Some (i, w1)
  end.

(** [while (!isBitSet(S, 1)) { <fifo_fill> }] *)
Fixpoint write_poll (bit : Z) (inner : nat) (fuel : nat) (buf : list Z) (i : Z)
    (w : world D) : option (Z * world D) :=
  match fuel with
  | O => None
  | S n =>
      let '(done, w1) := isBitSet BSC_S 1 w in
      if done then Some (i, w1)
      else match fifo_fill bit inner buf i w1 with
           | Some (i', w2) => write_poll bit inner n buf i' w2
           | None => None
           end
  end.

(** [while (isBitSet(S, 5) && i < len) { buf[i] = *fifo; i++; }] *)
Fixpoint fifo_drain (fuel : nat) (len : Z) (buf : list Z) (i : Z)
    (w : world D) : option ((list Z * Z) * world D) :=
  match fuel with
  | O => None
  | S n =>
      let '(b, w1) := isBitSet BSC_S 5 w in
      if b && (i <? len) then
        let '(v, w2) := load BSC_FIFO w1 in
        fifo_drain n len (<[Z.to_nat i := u8 v]> buf) (u8 (i + 1)) w2
      else Some ((buf, i), w1)
  end.

Fixpoint read_poll (inner : nat) (fuel : nat) (len : Z) (buf : list Z) (i : Z)
    (w : world D) : option ((list Z * Z) * world D) :=
  match fuel with
  | O => None
  | S n =>
      let '(done, w1) := isBitSet BSC_S 1 w in
      if done then Some ((buf, i), w1)
      else match fifo_drain inner len buf i w1 with
           | Some ((buf', i'), w2) => read_poll inner n len buf' i' w2
           | None => None
           end
  end.

(** [while (isBitSet(S, 5)) { data = *fifo; }] *)
Fixpoint byte_drain (fuel : nat) (data : Z) (w : world D) : option (Z * world D) :=
  match fuel with
  | O => None
  | S n =>
      let '(b, w1) := isBitSet BSC_S 5 w in
      if b then
        let '(v, w2) := load BSC_FIFO w1 in
        byte_drain n (u8 v) w2
      else Some (data, w1)
  end.

Fixpoint byte_poll (inner : nat) (fuel : nat) (data : Z) (w : world D)
    : option (Z * world D) :=
  match fuel with
  | O => None
  | S n =>
      let '(done, w1) := isBitSet BSC_S 1 w in
      if done then Some (data, w1)
      else match byte_drain inner data w1 with
           | Some (data', w2) => byte_poll inner n data' w2
           | None => None
           end
  end.

(** *** Two-wire engine: transactions (rpi.c 993-1255) *)

(** The length check of the write paths: it runs after [*dlen = len]. *)
Definition cap_len (len : Z) : M D Z :=
  if 16 <? len then
    puts "maximum number of bytes per one write cycle is 16 bytes, beyond this data will be ignored" ;;
    ret 16
  else ret len.

(** rpi.c 1027-1043 *)
Definition i2c_slave_write_test_status : M D Z :=
  nack <- isBitSet BSC_S 8 ;;
  result <- (if nack then
               puts "slave address error - address not acknowledge by slave device." ;;
               ret 0x01
             else ret 0x0) ;;
  ok <- done_and_idle ;;
  if ok then setBit BSC_S 1 ;; ret result
  else puts "slave write error - data transfer is not complete" ;; ret 0x04.

Definition i2c_slave_write_test (fuel : nat) (buf : list Z) (len : Z) : MO D Z :=
  lift (clear_fifo BSC_C) ;;;
  lift reset_error_status ;;;
  lift (store BSC_DLEN len) ;;;
  _ <~ lift (cap_len len) ;;
  lift (clearBit BSC_C 0) ;;;
  lift (setBit BSC_C 7) ;;;
  _ <~ write_poll 4 fuel fuel buf 0 ;;
  lift i2c_slave_write_test_status.

(** [void i2c_select_slave(uint8_t addr)]: the probe's result is an
    expression statement. *)
Definition i2c_select_slave (fuel : nat) (addr : Z) : MO D unit :=
  lift (store BSC_A addr) ;;;
  _ <~ i2c_slave_write_test fuel [0x01; 0x00] 1 ;;
  lift (ret tt).

(** rpi.c 1094-1124 *)
Definition i2c_write_status (i len : Z) : M D Z :=
  nack <- isBitSet BSC_S 8 ;;
  result <- (if nack then
               puts "write error - slave address not acknowledged" ;; ret 0x01
             else ret 0x0) ;;
  clkt <- isBitSet BSC_S 9 ;;
  result <- (if clkt then
               puts "write error - clock stretch timeout" ;; ret 0x02
             else ret result) ;;
  txw <- isBitSet BSC_S 2 ;;
  result <- (if txw || (i <? len) then
               puts "write error - not all data is sent to slave device" ;; ret 0x04
             else ret result) ;;
  ok <- done_and_idle ;;
  if ok then setBit BSC_S 1 ;; ret result
  else puts "write error - data transfer is not complete" ;; ret 0x04.

Definition i2c_write (fuel : nat) (buf : list Z) (len : Z) : MO D Z :=
  lift (clear_fifo BSC_C) ;;;
  lift reset_error_status ;;;
  lift (store BSC_DLEN len) ;;;
  len <~ lift (cap_len len) ;;
  lift (clearBit BSC_C 0) ;;;
  lift (setBit BSC_C 7) ;;;
  i <~ write_poll 2 fuel fuel buf 0 ;;
  lift (i2c_write_status i len).

(** rpi.c 1159-1188 *)
Definition i2c_read_status (i len : Z) : M D Z :=
  ok <- done_and_idle ;;
  result <- (if ok then setBit BSC_S 1 ;; ret 0x0
             else puts "read error - data transfer is not complete" ;; ret 0x04) ;;
  nack <- isBitSet BSC_S 8 ;;
  if nack then puts "read error - slave address not acknowledge" ;; ret 0x01
  else
    clkt <- isBitSet BSC_S 9 ;;
    if clkt then puts "read error - clock stretch timeout" ;; ret 0x02
    else
      rxd <- isBitSet BSC_S 5 ;;
      if rxd || (i <? len) then
        puts "read error - not all data is received from slave device" ;; ret 0x04
      else ret result.

(** The caller's buffer is returned next to the result. *)
Definition i2c_read (fuel : nat) (buf : list Z) (len : Z) : MO D (Z * list Z) :=
  lift (clear_fifo BSC_C) ;;;
  lift reset_error_status ;;;
  lift (store BSC_DLEN len) ;;;
  lift (setBit BSC_C 0) ;;;
  lift (setBit BSC_C 7) ;;;
  r <~ read_poll fuel fuel len buf 0 ;;
  result <~ lift (i2c_read_status r.2 len) ;;
  lift (ret (result, r.1)).

(** rpi.c 1224-1254: every error leaves through [return result = ...],
    the last line is [return data]. *)
Definition i2c_byte_read_status (data : Z) : M D Z :=
  ok <- done_and_idle ;;
  if negb ok then puts "read error - data transfer is not complete" ;; ret 0x04
  else
    setBit BSC_S 1 ;;
    nack <- isBitSet BSC_S 8 ;;
    if nack then puts "read error - slave address not acknowledged" ;; ret 0x01
    else
      clkt <- isBitSet BSC_S 9 ;;
      if clkt then puts "read error - clock stretch timeout" ;; ret 0x02
      else
        rxd <- isBitSet BSC_S 5 ;;
        if rxd then puts "read error - not all data is sent/received" ;; ret 0x04
        else ret data.

Definition i2c_byte_read (fuel : nat) : MO D Z :=
  lift (clear_fifo BSC_C) ;;;
  lift reset_error_status ;;;
  lift (setBit BSC_C 0) ;;;
  lift (setBit BSC_C 7) ;;;
  lift (store BSC_DLEN 1) ;;;
  data <~ byte_poll fuel fuel 0 ;;
  lift (i2c_byte_read_status data).

(** *** Four-wire engine (rpi.c 1293-1424) *)

Definition spi_start : M D Z :=
  p <- get_base 4 ;;
  if p =? 0 then
    puts "spi init() fail, spi registers didn't received the correct adresses" ;;
    ret 0
  else
    set_gpio 8 4 ;;
    set_gpio 7 4 ;;
    set_gpio 10 4 ;;
    set_gpio 9 4 ;;
    set_gpio 11 4 ;;
    mswait 10 ;;
    clearBit SPI_CS 13 ;;
    clear_fifo BSC_C ;;
    ret 1.

Definition spi_stop : M D unit :=
  clear_fifo BSC_C ;;
  set_gpio 8 0 ;;
  set_gpio 7 0 ;;
  set_gpio 10 0 ;;
  set_gpio 9 0 ;;
  set_gpio 11 0.

Definition spi_set_data_mode (mode : Z) : M D unit :=
  if mode =? 0 then clearBit SPI_CS 2 ;; clearBit SPI_CS 3 ;; ret tt
  else if mode =? 1 then setBit SPI_CS 2 ;; clearBit SPI_CS 3 ;; ret tt
  else if mode =? 2 then clearBit SPI_CS 2 ;; setBit SPI_CS 3 ;; ret tt
  else if mode =? 3 then clearBit SPI_CS 2 ;; clearBit SPI_CS 3 ;; ret tt
  else ret tt.

Definition spi_set_chip_select_polarity (cs active : Z) : M D unit :=
  clearBit SPI_CS 21 ;;
  clearBit SPI_CS 22 ;;
  clearBit SPI_CS 23 ;;
  if (cs =? 0) && (active =? 1) then setBit SPI_CS 21 ;; ret tt
  else if (cs =? 0) && (active =? 0) then clearBit SPI_CS 21 ;; ret tt
  else if (cs =? 1) && (active =? 1) then setBit SPI_CS 22 ;; ret tt
  else if (cs =? 1) && (active =? 0) then clearBit SPI_CS 22 ;; ret tt
  else if (cs =? 2) && (active =? 1) then setBit SPI_CS 23 ;; ret tt
  else if (cs =? 2) && (active =? 0) then clearBit SPI_CS 23 ;; ret tt
  else ret tt.

End Program.

(** ** A simulated register file

    [cells] holds what was last stored in each register (0 when never
    written).  A register with an entry in [feeds] is driven by the
    peripheral instead: successive loads return the successive values of
    the list, and the last one stays.  Stores always land in [cells]. *)
Record sim := Sim {
  cells : gmap (nat * Z) Z;
  feeds : gmap (nat * Z) (list Z)
}.

Definition sim_read (r : reg) (d : sim) : Z * sim :=
  match feeds d !! r with
  | Some (v :: rest) =>
      match rest with
      | [] => (v, d)
      | _ :: _ => (v, Sim (cells d) (<[r := rest]> (feeds d)))
      end
  | _ => (default 0 (cells d !! r), d)
  end.

Definition sim_write (r : reg) (v : Z) (d : sim) : sim :=
  Sim (<[r := v]> (cells d)) (feeds d).

#[export] Instance sim_device : Device sim :=
  {| dev_read := sim_read; dev_write := sim_write |}.

(** A register file without scripted registers: plain memory. *)
Definition ram (m : gmap (nat * Z) Z) : sim := Sim m ∅.

(** The value a cell of the simulated register file holds. *)
Definition peek (r : reg) (w : world sim) : Z := default 0 (cells (hw w) !! r).

(** Every window mapped (a non-null base pointer), nothing traced yet. *)
Definition boot (d : sim) : world sim := World d (fun _ => 1) [].

(** ** Reading a trace *)

Definition is_write_to (r : reg) (e : event) : option Z :=
  match e with
  | EvWrite r' v => if decide (r' = r) then Some v else None
  | _ => None
  end.

(** The values stored to a register, in order. *)
Definition writes_to (r : reg) (t : list event) : list Z :=
  omap (is_write_to r) t.

Definition is_puts (e : event) : option string :=
  match e with
  | EvPuts s => Some s
  | _ => None
  end.

(** The console lines, in order. *)
Definition console (t : list event) : list string := omap is_puts t.

(** ** Field decoders *)

(** The 3-bit function-select field of pin slot [k] (0-9) in a GPFSEL word. *)
Definition fsel_field (v : Z) (k : Z) : Z := Z.land (Z.shiftr v (k * 3)) 7.

(** SPI CS register: CPHA is bit 2, CPOL is bit 3, CSPOLn is bit 21 + n. *)
Definition cpha (v : Z) : bool := Z.testbit v 2.
Definition cpol (v : Z) : bool := Z.testbit v 3.
Definition cspol (v : Z) (n : Z) : bool := Z.testbit v (21 + n).

(** Clock control register: SRC is bits 0-3, ENAB is bit 4, BUSY is bit 7. *)
Definition clk_src_field (v : Z) : Z := Z.land v 0xF.
Definition clk_enab (v : Z) : bool := Z.testbit v 4.
Definition clk_busy (v : Z) : bool := Z.testbit v 7.

(** ** Reading the clock sequence off a trace *)

(** What the claim "the previous configuration is re-enabled" compares:
    the source field and the enable bit of two control words. *)
Definition same_clock_configuration (before after : Z) : Prop :=
  clk_src_field after = clk_src_field before /\ clk_enab after = clk_enab before.

(** Every store to the divider register comes right after a load of the
    control register that showed the busy flag clear. *)
Definition div_stores_guarded (t : list event) : Prop :=
  forall pre v post,
    t = pre ++ EvWrite GPDIV v :: post ->
    exists pre' s, pre = pre' ++ [EvRead GPCTL s] /\ clk_busy s = false.

(** The events of the stop step of [set_clock_div], given the two control
    words its source checks load. *)
Definition stop_events (s0 s1 : Z) : list event :=
  EvRead GPCTL s0 ::
  if clk_src_field s0 =? OSC then [EvWrite GPCTL 0x5A000001]
  else EvRead GPCTL s1 ::
       if clk_src_field s1 =? PLLD then [EvWrite GPCTL 0x5A000006] else [].

(** The events of the forced-kill step, given the busy check's word. *)
Definition kill_events (b1 : Z) : list event :=
  EvRead GPCTL b1 ::
  if clk_busy b1 then [EvWrite GPCTL 0x5A000020; EvWait 100] else [].

(** The events of the divisor step. *)
Definition div_events (div b2 : Z) : list event :=
  EvRead GPCTL b2 ::
  if clk_busy b2 then []
  else [EvWrite GPDIV (Z.lor 0x5A000000 (u32 (Z.shiftl div 12)))].

(** ** Growth of the trace *)

(** [w'] is [w] after some more events. *)
Definition grows {D : Type} (w w' : world D) : Prop :=
  exists evs, trace w' = trace w ++ evs.

(** A program is steady when it only appends to the trace. *)
Definition steady {D A : Type} (m : M D A) : Prop := forall w, grows w (m w).2.

(** ** Simulated two-wire controllers *)

(** A controller whose status register shows [status] on successive loads
    (the last value stays) and whose FIFO yields the bytes [rx]. *)
Definition bsc (status rx : list Z) : sim :=
  Sim ∅ {[ BSC_S := status; BSC_FIFO := rx ]}.

(** Status bits of the two-wire controller. *)
Definition S_TA : Z := 0x001.
Definition S_DONE : Z := 0x002.
Definition S_TXW : Z := 0x004.
Definition S_TXD : Z := 0x010.
Definition S_RXD : Z := 0x020.
Definition S_ERR : Z := 0x100.
Definition S_CLKT : Z := 0x200.

(** The claim that [i2c_select_slave] hands the probe's classification to
    its caller: some reading [classify] of its return value gives, in every
    run, what the probe returned. *)
Definition select_slave_reports (classify : unit -> Z) : Prop :=
  forall (fuel : nat) (addr : Z) (w : world sim) (r : Z) (w' : world sim),
    i2c_slave_write_test fuel [0x01; 0x00] 1 (store BSC_A addr w).2 = Some (r, w') ->
    exists u w'', i2c_select_slave fuel addr w = Some (u, w'') /\ classify u = r.

(** The status register has reached its final value [s]: every further
    load of it returns [s]. *)
Definition settled (s : Z) (w : world sim) : Prop :=
  feeds (hw w) !! BSC_S = Some [s].

(** The classification the write and read paths compute from a final
    status word [s], the count [i] of bytes moved and the length [len]
    they compare it with. *)
Definition done_idle (s : Z) : bool := Z.testbit s 1 && negb (Z.testbit s 0).

Definition write_class (s i len : Z) : Z :=
  if done_idle s then
    if Z.testbit s 2 || (i <? len) then 0x04
    else if Z.testbit s 9 then 0x02
    else if Z.testbit s 8 then 0x01
    else 0x0
  else 0x04.

Definition read_class (s i len : Z) : Z :=
  if Z.testbit s 8 then 0x01
  else if Z.testbit s 9 then 0x02
  else if Z.testbit s 5 || (i <? len) then 0x04
  else if done_idle s then 0x0
  else 0x04.

Definition is_read_from (r : reg) (e : event) : option Z :=
  match e with
  | EvRead r' v => if decide (r' = r) then Some v else None
  | _ => None
  end.

(** The values loaded from a register, in order. *)
Definition reads_from (r : reg) (t : list event) : list Z :=
  omap (is_read_from r) t.

(** What a test bench sees of a write transaction: the result, the
    lengths programmed, the bytes pushed to the FIFO and the console. *)
Definition write_report (run : option (Z * world sim))
    : option (Z * list Z * list Z * list string) :=
  (fun p => (p.1, writes_to BSC_DLEN (trace p.2), writes_to BSC_FIFO (trace p.2),
             console (trace p.2))) <$> run.

(** What a test bench sees of a single-byte read: the result, the bytes
    taken from the FIFO and the console. *)
Definition byte_read_report (run : option (Z * world sim))
    : option (Z * list Z * list string) :=
  (fun p => (p.1, reads_from BSC_FIFO (trace p.2), console (trace p.2))) <$> run.

(** * The rest of rpi.c

    The functions of [rpi.c] around the ones above: the timed waits, the
    remaining pin operations, the pulse generator setters, the start, stop
    and speed functions of the two-wire engine and the transfers of the
    four-wire engine. *)

(** ** More register addresses (rpi.c 66-106) *)

Definition GPSET : reg := padd GPSEL (0x1C / 4).
Definition GPCLR : reg := padd GPSEL (0x28 / 4).
Definition GPEDS : reg := padd GPSEL (0x40 / 4).
Definition GPREN : reg := padd GPSEL (0x4C / 4).
Definition GPFEN : reg := padd GPSEL (0x58 / 4).
Definition GPHEN : reg := padd GPSEL (0x64 / 4).
Definition GPLEN : reg := padd GPSEL (0x70 / 4).
Definition GPAREN : reg := padd GPSEL (0x7C / 4).
Definition GPAFEN : reg := padd GPSEL (0x88 / 4).

Definition STA : reg := padd CTL (0x4 / 4).
Definition RNG1 : reg := padd CTL (0x10 / 4).
Definition DAT1 : reg := padd CTL (0x14 / 4).
Definition RNG2 : reg := padd CTL (0x20 / 4).
Definition DAT2 : reg := padd CTL (0x24 / 4).

Definition SPI_FIFO : reg := padd SPI_CS (0x4 / 4).

Definition BSC_DIV : reg := padd BSC_C (0x14 / 4).
Definition BSC_DEL : reg := padd BSC_C (0x18 / 4).

(** ** Timed waits (rpi.c 136-160)

    The [struct timespec] each wait hands to [nanosleep]: seconds and
    nanoseconds. *)
Definition nswait_timespec (ns : Z) : Z * Z := (ns / 1000000, ns mod 1000000).
Definition uswait_timespec (us : Z) : Z * Z := (us / 1000, us mod 1000 * 1000).
Definition mswait_timespec (ms : Z) : Z * Z := (ms / 1000, ms mod 1000 * 1000000).

(** The duration a [timespec] stands for, in nanoseconds. *)
Definition timespec_ns (ts : Z * Z) : Z := ts.1 * 1000000000 + ts.2.

(** ** Functions that may leave through [exit] *)

Inductive outcome (A : Type) : Type :=
| Returned (a : A)
| Exited (status : Z).
Arguments Returned {A} _.
Arguments Exited {A} _.

Section ProgramRest.
Context {D : Type} `{Device D}.

(** *** Pins (rpi.c 352-577) *)

Definition gpio_input (pin : Z) : M D unit := set_gpio pin 0.

Definition gpio_output (pin : Z) : M D unit := set_gpio pin 1.

Definition gpio_config (pin mode : Z) : M D unit :=
  if mode =? 0 then gpio_input pin
  else if mode =? 1 then gpio_output pin
  else puts "Invalid mode parameter".

Definition gpio_write (pin bit : Z) : M D Z :=
  if bit =? 1 then store GPSET (u32 (Z.shiftl 1 pin)) ;; ret 1
  else if bit =? 0 then store GPCLR (u32 (Z.shiftl 1 pin)) ;; ret 0
  else puts "invalid bit parameter" ;; ret (u8 (-1)).

Definition gpio_reset_event (pin : Z) : M D unit :=
  setBit GPEDS pin ;; ret tt.

Definition gpio_enable_high_event (pin bit : Z) : M D unit :=
  if bit =? 1 then setBit GPHEN pin ;; ret tt
  else if bit =? 0 then clearBit GPHEN pin ;; ret tt
  else puts "invalid bit parameter".

Definition gpio_enable_low_event (pin bit : Z) : M D unit :=
  if bit =? 1 then setBit GPLEN pin ;; ret tt
  else if bit =? 0 then clearBit GPLEN pin ;; ret tt
  else puts "invalid bit parameter".

Definition gpio_enable_rising_event (pin bit : Z) : M D unit :=
  if bit =? 1 then setBit GPREN pin ;; ret tt
  else if bit =? 0 then clearBit GPREN pin ;; ret tt
  else puts "invalid bit parameter".

Definition gpio_enable_falling_event (pin bit : Z) : M D unit :=
  if bit =? 1 then setBit GPFEN pin ;; ret tt
  else if bit =? 0 then clearBit GPFEN pin ;; ret tt
  else puts "invalid bit parameter".

Definition gpio_enable_async_rising_event (pin bit : Z) : M D unit :=
  if bit =? 1 then setBit GPAREN pin ;; ret tt
  else if bit =? 0 then clearBit GPAREN pin ;; ret tt
  else puts "invalid bit parameter".

Definition gpio_enable_async_falling_event (pin bit : Z) : M D unit :=
  if bit =? 1 then setBit GPAFEN pin ;; ret tt
  else if bit =? 0 then clearBit GPAFEN pin ;; ret tt
  else puts "invalid bit parameter".

Definition gpio_reset_all_events (pin : Z) : M D unit :=
  clearBit GPREN pin ;;
  clearBit GPFEN pin ;;
  clearBit GPHEN pin ;;
  clearBit GPLEN pin ;;
  clearBit GPAREN pin ;;
  clearBit GPAFEN pin ;;
  setBit GPEDS pin ;;
  ret tt.


(** *** Pulse generator (rpi.c 588-888) *)

Definition pwm_reset_all_pins : M D unit :=
  gpio_input 18 ;;
  mswait 10 ;;
  gpio_input 13 ;;
  mswait 10 ;;
  gpio_input 12 ;;
  mswait 10 ;;
  gpio_input 19.

Definition pwm_set_pin (pin : Z) : M D (outcome unit) :=
  if pin =? 12 then set_gpio 18 2 ;; ret (Returned tt)
  else if pin =? 32 then set_gpio 12 4 ;; ret (Returned tt)
  else if pin =? 33 then set_gpio 13 4 ;; ret (Returned tt)
  else if pin =? 35 then set_gpio 19 2 ;; ret (Returned tt)
  else
    puts "Invalid pin number for PWM." ;;
    puts "Choose only from physical layout pins 12, 32, 33 and 35." ;;
    ret (Exited 1).

Definition pwm_reset_pin (pin : Z) : M D (outcome unit) :=
  if pin =? 12 then gpio_input 18 ;; ret (Returned tt)
  else if pin =? 32 then gpio_input 12 ;; ret (Returned tt)
  else if pin =? 33 then gpio_input 13 ;; ret (Returned tt)
  else if pin =? 35 then gpio_input 19 ;; ret (Returned tt)
  else
    puts "Invalid pin number for PWM." ;;
    puts "Choose only from physical layout pins 12, 32, 33 and 35." ;;
    ret (Exited 1).

(** [n] is a [uint8_t] here. *)
Definition pwm_reg_ctrl (n position : Z) : M D unit :=
  (if n =? 1 then setBit CTL position ;; ret tt
   else if n =? 0 then clearBit CTL position ;; ret tt
   else puts "Invalid control parameter. Choose 1 or 0 only.") ;;
  uswait 10.

Definition reset_status_reg : M D unit :=
  STA2 <- isBitSet STA 10 ;;
  uswait 10 ;;
  STA1 <- isBitSet STA 9 ;;
  uswait 10 ;;
  BERR <- isBitSet STA 8 ;;
  uswait 10 ;;
  RERR1 <- isBitSet STA 3 ;;
  uswait 10 ;;
  WERR1 <- isBitSet STA 2 ;;
  uswait 10 ;;
  (if negb STA1 then
     (if RERR1 then setBit STA 3 ;; ret tt else ret tt) ;;
     (if WERR1 then setBit STA 2 ;; ret tt else ret tt) ;;
     (if BERR then setBit STA 8 ;; ret tt else ret tt)
   else ret tt) ;;
  (if negb STA2 then
     (if RERR1 then setBit STA 3 ;; ret tt else ret tt) ;;
     (if WERR1 then setBit STA 2 ;; ret tt else ret tt) ;;
     (if BERR then setBit STA 8 ;; ret tt else ret tt)
   else ret tt) ;;
  uswait 10.

(** The setters take [n] as a [uint32_t] and pass it to the [uint8_t]
    parameter of [pwm_reg_ctrl]. *)
Definition pwm_enable (pin n : Z) : M D unit :=
  if (pin =? 12) || (pin =? 32) then pwm_reg_ctrl (u8 n) 0
  else if (pin =? 33) || (pin =? 35) then pwm_reg_ctrl (u8 n) 8
  else puts "enablePWM() - invalid pin or n value".

Definition pwm_set_mode (pin n : Z) : M D unit :=
  if (pin =? 12) || (pin =? 32) then pwm_reg_ctrl (u8 n) 7
  else if (pin =? 33) || (pin =? 35) then pwm_reg_ctrl (u8 n) 15
  else puts "setMode() - invalid pin or n value".

Definition pwm_set_pola (pin n : Z) : M D unit :=
  if (pin =? 12) || (pin =? 32) then pwm_reg_ctrl (u8 n) 4
  else if (pin =? 33) || (pin =? 35) then pwm_reg_ctrl (u8 n) 12
  else puts "enablePWM() - invalid pin or n value".

Definition pwm_set_range (pin range : Z) : M D unit :=
  if (pin =? 12) || (pin =? 32) then store RNG1 range ;; reset_status_reg
  else if (pin =? 33) || (pin =? 35) then store RNG2 range ;; reset_status_reg
  else puts "setRange() - invalid pin".

Definition pwm_set_data (pin data : Z) : M D unit :=
  if (pin =? 12) || (pin =? 32) then store DAT1 data ;; reset_status_reg
  else if (pin =? 33) || (pin =? 35) then store DAT2 data ;; reset_status_reg
  else puts "setData() - invalid pin".

(** *** Two-wire engine: start, speed, stop (rpi.c 909-975, 1260-1272) *)

Definition i2c_start : M D Z :=
  p <- get_base 6 ;;
  if p =? 0 then
    puts "i2c init() fail, i2c registers didn't received the correct adresses" ;;
    ret 0
  else
    set_gpio 2 4 ;;
    set_gpio 3 4 ;;
    mswait 10 ;;
    setBit BSC_C 15 ;;
    ret 1.

(** [div] points at the divider register as a [uint16_t]: each [*div]
    loads the register and keeps its low half (the processor is
    little-endian).  The second [*div] is behind [&&]. *)
Definition set_clock_delay (FEDL REDL : Z) : M D Z :=
  let fedl := u32 (65535 + FEDL) in
  let redl := u8 REDL in
  d1 <- load BSC_DIV ;;
  ok <- (if FEDL <? (d1 mod 2 ^ 16) / 2 then
           d2 <- load BSC_DIV ;; ret (REDL <? (d2 mod 2 ^ 16) / 2)
         else ret false) ;;
  (if ok then store BSC_DEL (u32 (fedl + redl))
   else puts "clock delays should be below cdiv/2") ;;
  load BSC_DEL.

(** [divider] is a [uint16_t]. *)
Definition i2c_set_clock_freq (divider : Z) : M D unit :=
  store BSC_DIV divider ;;
  set_clock_delay 1 1 ;;
  ret tt.

(** [system_clock] is the file's global, 250000000 or 400000000 once
    [arm_info] has run; it is an argument here.  The quotient is cut to
    [uint16_t] by the cast at the call. *)
Definition i2c_data_transfer_speed (system_clock baud : Z) : M D unit :=
  let divider := u32 (system_clock / baud) in
  i2c_set_clock_freq (divider mod 2 ^ 16).

Definition i2c_stop : M D unit :=
  clear_fifo BSC_C ;;
  reset_error_status ;;
  clearBit BSC_C 15 ;;
  set_gpio 2 0 ;;
  set_gpio 3 0.

(** *** Four-wire engine: chip select, transfers (rpi.c 1384-1524) *)

Definition spi_chip_select (cs : Z) : M D unit :=
  let mask := u32 (Z.lnot (Z.shiftl 3 0)) in
  v <- load SPI_CS ;;
  store SPI_CS (Z.land v mask) ;;
  let mask := Z.shiftl cs 0 in
  v <- load SPI_CS ;;
  store SPI_CS (Z.lor v mask).

(** [while (isBitSet(SPI_CS, 18) && (w < len)) { *fifo = wbuf[w]; w++; }];
    [wrap] is the width of the counter: [u32] in [spi_data_transfer],
    [u8] in [spi_write]. *)
Fixpoint spi_tx_fill (wrap : Z -> Z) (fuel : nat) (wbuf : list Z) (len : Z) (i : Z)
    (w : world D) : option (Z * world D) :=
  match fuel with
  | O => None
  | S n =>
      let '(b, w1) := isBitSet SPI_CS 18 w in
      if b && (i <? len) then
        let '(_, w2) := store SPI_FIFO (nth (Z.to_nat i) wbuf 0) w1 in
        spi_tx_fill wrap n wbuf len (wrap (i + 1)) w2
      else Some (i, w1)
  end.

(** [while (w < len) { <spi_tx_fill> }] *)
Fixpoint spi_tx_loop (wrap : Z -> Z) (inner : nat) (fuel : nat) (wbuf : list Z)
    (len : Z) (i : Z) (w : world D) : option (Z * world D) :=
  match fuel with
  | O => None
  | S n =>
      if i <? len then
        match spi_tx_fill wrap inner wbuf len i w with
        | Some (i', w1) => spi_tx_loop wrap inner n wbuf len i' w1
        | None => None
        end
      else Some (i, w)
  end.

(** [while (isBitSet(SPI_CS, 17) && (r < len)) { rbuf[r] = *fifo; r++; }] *)
Fixpoint spi_rx_drain (wrap : Z -> Z) (fuel : nat) (len : Z) (rbuf : list Z) (i : Z)
    (w : world D) : option ((list Z * Z) * world D) :=
  match fuel with
  | O => None
  | S n =>
      let '(b, w1) := isBitSet SPI_CS 17 w in
      if b && (i <? len) then
        let '(v, w2) := load SPI_FIFO w1 in
        spi_rx_drain wrap n len (<[Z.to_nat i := u8 v]> rbuf) (wrap (i + 1)) w2
      else Some ((rbuf, i), w1)
  end.

(** [while (r < len) { <spi_rx_drain> }] *)
Fixpoint spi_rx_loop (wrap : Z -> Z) (inner : nat) (fuel : nat) (len : Z)
    (rbuf : list Z) (i : Z) (w : world D) : option ((list Z * Z) * world D) :=
  match fuel with
  | O => None
  | S n =>
      if i <? len then
        match spi_rx_drain wrap inner len rbuf i w with
        | Some ((rbuf', i'), w1) => spi_rx_loop wrap inner n len rbuf' i' w1
        | None => None
        end
      else Some ((rbuf, i), w)
  end.

(** The caller's read buffer is the result. *)
Definition spi_data_transfer (fuel : nat) (wbuf rbuf : list Z) (len : Z)
    : MO D (list Z) :=
  lift (clear_fifo SPI_CS) ;;;
  lift (setBit SPI_CS 7) ;;;
  _ <~ spi_tx_loop u32 fuel fuel wbuf len 0 ;;
  r <~ spi_rx_loop u32 fuel fuel len rbuf 0 ;;
  lift (clearBit SPI_CS 7) ;;;
  err <~ lift (isBitSet SPI_CS 16) ;;
  lift (if err then puts "spi_transfer() - data transfer error" else ret tt) ;;;
  lift (ret r.1).

Definition spi_write (fuel : nat) (wbuf : list Z) (len : Z) : MO D unit :=
  lift (clear_fifo SPI_CS) ;;;
  lift (setBit SPI_CS 7) ;;;
  _ <~ spi_tx_loop u8 fuel fuel wbuf len 0 ;;
  lift (ret tt).

Definition spi_read (fuel : nat) (rbuf : list Z) (len : Z) : MO D (list Z) :=
  ta <~ lift (isBitSet SPI_CS 7) ;;
  if negb ta then
    lift (puts "spi_read() error - nothing to read from fifo") ;;;
    lift (ret rbuf)
  else
    r <~ spi_rx_loop u8 fuel fuel len rbuf 0 ;;
    lift (clearBit SPI_CS 7) ;;;
    lift (ret r.1).

End ProgramRest.

(** ** Decoders for the rest *)

(** The chip-select field of the SPI control word: bits 0-1. *)
Definition spi_cs_field (v : Z) : Z := Z.land v 3.

(** The divider register of the clock manager: the password is the top
    byte, the integer divisor is bits 12-23. *)
Definition div_passwd (v : Z) : Z := Z.shiftr v 24.
Definition div_divi (v : Z) : Z := Z.land (Z.shiftr v 12) 0xFFF.

(** The word [set_gpio] stores last: [v] with the 3-bit field at bit [s]
    cleared and [f] ORed in at bit [s]. *)
Definition field_update (v s f : Z) : Z :=
  Z.lor (Z.land v (u32 (Z.lnot (Z.shiftl 7 s)))) (u32 (Z.shiftl f s)).

(** The function code of a pin, read from the select registers of the
    simulated register file. *)
Definition pin_function (w : world sim) (pin : Z) : Z :=
  fsel_field (peek (padd GPSEL (pin / 10)) w) (pin mod 10).

(** ** Frames on the simulated register file *)

(** The register file is plain memory: no register is scripted. *)
Definition ram_world (w : world sim) : Prop := feeds (hw w) = ∅.

(** A program that, on plain memory, changes no register outside [R]. *)
Definition touches_only {A : Type} (R : reg -> Prop) (m : M sim A) : Prop :=
  forall w, ram_world w ->
    ram_world (m w).2 /\ forall r, ~ R r -> peek r (m w).2 = peek r w.

(** The six event-enable setters with the register each one drives. *)
Definition event_enables : list ((Z -> Z -> M sim unit) * reg) :=
  [ (gpio_enable_high_event, GPHEN); (gpio_enable_low_event, GPLEN);
    (gpio_enable_rising_event, GPREN); (gpio_enable_falling_event, GPFEN);
    (gpio_enable_async_rising_event, GPAREN);
    (gpio_enable_async_falling_event, GPAFEN) ].

(** What one event-enable setter does to its register [r], on plain
    memory: bit 1 sets the pin's bit, bit 0 clears it, any other value
    prints and leaves the register file alone; no other bit and no other
    register changes. *)
Definition event_enable_spec (f : Z -> Z -> M sim unit) (r : reg) : Prop :=
  forall (m : gmap (nat * Z) Z) bp t (pin bit : Z),
    0 <= pin < 32 ->
    let w := World (ram m) bp t in
    let w' := (f pin bit w).2 in
    (bit = 1 -> Z.testbit (peek r w') pin = true) /\
    (bit = 0 -> Z.testbit (peek r w') pin = false) /\
    (bit <> 0 -> bit <> 1 ->
       hw w' = hw w /\ trace w' = t ++ [EvPuts "invalid bit parameter"]) /\
    (forall i, 0 <= i < 32 -> i <> pin ->
       Z.testbit (peek r w') i = Z.testbit (peek r w) i) /\
    (forall r', r' <> r -> peek r' w' = peek r' w).

(** ** Tables of the pulse generator *)

(** Physical header pin, the GPIO behind it and the function code
    [pwm_set_pin] gives it. *)
Definition pwm_pin_table : list (Z * Z * Z) :=
  [ (12, 18, 2); (32, 12, 4); (33, 13, 4); (35, 19, 2) ].

(** The first control-register bit of the channel a physical pin belongs
    to: channel 1 starts at bit 0, channel 2 at bit 8. *)
Definition pwm_channel_base (pin : Z) : option Z :=
  if (pin =? 12) || (pin =? 32) then Some 0
  else if (pin =? 33) || (pin =? 35) then Some 8
  else None.

(** The three control setters, the bit each drives within a channel and
    the line each prints for a pin that has no channel. *)
Definition pwm_ctl_setters : list ((Z -> Z -> M sim unit) * Z * string) :=
  [ (pwm_enable, 0, "enablePWM() - invalid pin or n value"%string);
    (pwm_set_mode, 7, "setMode() - invalid pin or n value"%string);
    (pwm_set_pola, 4, "enablePWM() - invalid pin or n value"%string) ].

(** What a control setter [f] driving bit [b] of a channel does, on
    plain memory: the value [n] counts modulo 256. *)
Definition pwm_ctl_setter_spec (f : Z -> Z -> M sim unit) (b : Z) (line : string) : Prop :=
  forall (m : gmap (nat * Z) Z) bp t (pin n : Z),
    let w := World (ram m) bp t in
    let w' := (f pin n w).2 in
    match pwm_channel_base pin with
    | Some base =>
        (n mod 256 = 1 -> Z.testbit (peek CTL w') (base + b) = true) /\
        (n mod 256 = 0 -> Z.testbit (peek CTL w') (base + b) = false) /\
        (n mod 256 <> 0 -> n mod 256 <> 1 ->
           hw w' = hw w /\
           trace w' = t ++ [EvPuts "Invalid control parameter. Choose 1 or 0 only."; EvWait 10]) /\
        (forall i, 0 <= i < 32 -> i <> base + b ->
           Z.testbit (peek CTL w') i = Z.testbit (peek CTL w) i) /\
        (forall r, r <> CTL -> peek r w' = peek r w)
    | None => hw w' = hw w /\ trace w' = t ++ [EvPuts line]
    end.

(** ** FIFO traffic in a trace *)

(** The bytes [buf[i]], [buf[i+1]], ... [buf[i+n-1]] as the C code reads
    them (0 past the end of the list). *)
Definition bytes_from (buf : list Z) (i n : nat) : list Z :=
  map (fun k => nth k buf 0) (seq i n).

(** A stretch of trace without access to the FIFO register [fifo]. *)
Definition fifo_free (fifo : reg) (evs : list event) : Prop :=
  writes_to fifo evs = [] /\ reads_from fifo evs = [].

(** ** A loopback device for the four-wire engine

    What is stored in the FIFO register comes back, byte by byte, when it
    is loaded.  The control register shows the TX FIFO as able to accept
    data (bit 18) always, and the RX FIFO as holding data (bit 17) while
    bytes are queued; the rest of the control word is what was last
    stored in it. *)
Record loopback := Loopback {
  lb_queue : list Z;
  lb_control : Z
}.

Definition loopback_read (r : reg) (d : loopback) : Z * loopback :=
  if decide (r = SPI_CS) then
    (Z.lor (Z.lor (Z.land (lb_control d) (Z.lnot 0x60000)) 0x40000)
           (match lb_queue d with [] => 0 | _ :: _ => 0x20000 end), d)
  else if decide (r = SPI_FIFO) then
    match lb_queue d with
    | [] => (0, d)
    | b :: q => (b, Loopback q (lb_control d))
    end
  else (0, d).

Definition loopback_write (r : reg) (v : Z) (d : loopback) : loopback :=
  if decide (r = SPI_CS) then Loopback (lb_queue d) v
  else if decide (r = SPI_FIFO) then Loopback (lb_queue d ++ [u8 v]) (lb_control d)
  else d.

#[export] Instance loopback_device : Device loopback :=
  {| dev_read := loopback_read; dev_write := loopback_write |}.

(** * Properties *)

(** ** Bits of machine words *)

Lemma testbit_small (a n i : Z) :
  0 <= a < 2 ^ n -> 0 <= n <= i -> Z.testbit a i = false.
Proof.
  intros Ha Hi.
  rewrite <- (Z.mod_small a (2 ^ n)) by exact Ha.
  apply Z.mod_pow2_bits_high; exact Hi.
Qed.

Lemma testbit_u32 (a i : Z) :
  Z.testbit (u32 a) i = (i <? 32) && Z.testbit a i.
Proof.
  unfold u32.
  destruct (Z.ltb_spec i 32) as [Hlt | Hge]; simpl.
  - apply Z.mod_pow2_bits_low; exact Hlt.
  - apply Z.mod_pow2_bits_high; lia.
Qed.

Lemma testbit_7 (i : Z) : 0 <= i -> Z.testbit 7 i = (i <? 3).
Proof.
  intros Hi. change 7 with (Z.ones 3).
  destruct (Z.ltb_spec i 3).
  - apply Z.ones_spec_low; lia.
  - apply Z.ones_spec_high; lia.
Qed.

Lemma testbit_one_shifted (p i : Z) :
  0 <= p -> 0 <= i -> Z.testbit (Z.shiftl 1 p) i = (i =? p).
Proof.
  intros Hp Hi. rewrite Z.shiftl_spec by exact Hi.
  destruct (Z.eqb_spec i p) as [-> | Hne].
  - now rewrite Z.sub_diag.
  - destruct (Z.lt_ge_cases i p).
    + apply Z.testbit_neg_r; lia.
    + apply (testbit_small 1 1); lia.
Qed.

(** The word [set_gpio] leaves in the select register, bit by bit. *)
Lemma testbit_field_update (v f s i : Z) :
  0 <= s -> 0 <= f < 8 -> 0 <= i ->
  Z.testbit (Z.lor (Z.land v (u32 (Z.lnot (Z.shiftl 7 s)))) (u32 (Z.shiftl f s))) i =
  (i <? 32) && (if (s <=? i) && (i <? s + 3) then Z.testbit f (i - s) else Z.testbit v i).
Proof.
  intros Hs Hf Hi.
  rewrite Z.lor_spec, Z.land_spec, !testbit_u32.
  rewrite Z.lnot_spec, !Z.shiftl_spec by exact Hi.
  destruct (Z.ltb_spec i 32); simpl; [| now rewrite Bool.andb_false_r].
  destruct (Z.leb_spec s i); simpl.
  - rewrite testbit_7 by lia.
    destruct (Z.ltb_spec i (s + 3)); destruct (Z.ltb_spec (i - s) 3); try lia; simpl.
    + now rewrite Bool.andb_false_r.
    + rewrite Bool.andb_true_r.
      rewrite (testbit_small f 3 (i - s)) by lia.
      now rewrite Bool.orb_false_r.
  - rewrite !(Z.testbit_neg_r _ (i - s)) by lia. simpl.
    now rewrite Bool.andb_true_r, Bool.orb_false_r.
Qed.

Lemma fsel_field_bits (v k i : Z) :
  0 <= k -> 0 <= i ->
  Z.testbit (fsel_field v k) i = (i <? 3) && Z.testbit v (i + k * 3).
Proof.
  intros Hk Hi. unfold fsel_field.
  rewrite Z.land_spec, Z.shiftr_spec, testbit_7 by exact Hi.
  apply Bool.andb_comm.
Qed.

(** ** The simulated register file as plain memory *)

Lemma load_ram (r : reg) (m : gmap (nat * Z) Z) bp t :
  load r (World (ram m) bp t) =
  (default 0 (m !! r), World (ram m) bp (t ++ [EvRead r (default 0 (m !! r))])).
Proof.
  unfold load, ram. simpl. unfold sim_read. simpl.
  now rewrite lookup_empty.
Qed.

Lemma store_ram (r : reg) (v : Z) (m : gmap (nat * Z) Z) bp t :
  store r v (World (ram m) bp t) =
  (tt, World (ram (<[r := v]> m)) bp (t ++ [EvWrite r v])).
Proof. reflexivity. Qed.

Lemma set_gpio_ram (pin fsel : Z) (m : gmap (nat * Z) Z) bp t :
  let r := padd GPSEL (pin / 10) in
  let s := (pin mod 10) * 3 in
  let v := default 0 (m !! r) in
  let v1 := Z.land v (u32 (Z.lnot (Z.shiftl 7 s))) in
  let v2 := Z.lor v1 (u32 (Z.shiftl fsel s)) in
  set_gpio pin fsel (World (ram m) bp t) =
  (tt, World (ram (<[r := v2]> m)) bp
         (t ++ [EvRead r v; EvWrite r v1; EvRead r v1; EvWrite r v2])).
Proof.
  intros r s v v1 v2. unfold set_gpio, bind.
  rewrite load_ram, store_ram, load_ram, store_ram.
  rewrite lookup_insert_eq. simpl.
  rewrite insert_insert_eq, <- !app_assoc. reflexivity.
Qed.

(** ** Pin multiplexer *)

(** C1.  For every pin 0-53 and every function code 0-7, on a register
    file that behaves as memory, [set_gpio] touches only the select
    register [GPSEL + pin/10], with a clearing store and then a setting
    store; afterwards the 3-bit field of the pin
    (slot [pin mod 10]) decodes to the code, the fields of the nine other
    slots of that register decode to what they did before, and every bit
    of the 32-bit word outside the pin's field is unchanged. *)
Theorem set_gpio_field_exact (m : gmap (nat * Z) Z) (bp : nat -> Z) (t : list event)
    (pin fsel : Z) :
  0 <= pin <= 53 -> 0 <= fsel <= 7 ->
  let w := World (ram m) bp t in
  let w' := (set_gpio pin fsel w).2 in
  let r := padd GPSEL (pin / 10) in
  (exists v v1 v2,
     trace w' = t ++ [EvRead r v; EvWrite r v1; EvRead r v1; EvWrite r v2]) /\
  (forall r', r' <> r -> peek r' w' = peek r' w) /\
  fsel_field (peek r w') (pin mod 10) = fsel /\
  (forall k, 0 <= k < 10 -> k <> pin mod 10 ->
     fsel_field (peek r w') k = fsel_field (peek r w) k) /\
  (forall i, 0 <= i < 32 -> ~ ((pin mod 10) * 3 <= i < (pin mod 10) * 3 + 3) ->
     Z.testbit (peek r w') i = Z.testbit (peek r w) i).
Proof.
  intros Hpin Hf w w' r.
  assert (Hslot : 0 <= pin mod 10 < 10) by (apply Z.mod_pos_bound; lia).
  subst w'. unfold w. rewrite set_gpio_ram. cbn [snd].
  unfold peek. cbn [hw ram cells trace]. fold r.
  rewrite lookup_insert_eq. cbn [from_option id].
  set (v := default 0 (m !! r)).
  split; [do 3 eexists; reflexivity |].
  repeat split.
  - intros r' Hne. now rewrite lookup_insert_ne by congruence.
  - apply Z.bits_inj'. intros i Hi.
    rewrite fsel_field_bits, testbit_field_update by lia.
    destruct (Z.ltb_spec i 3); simpl.
    + replace (i + pin mod 10 * 3 <? 32) with true by (symmetry; apply Z.ltb_lt; lia).
      replace (pin mod 10 * 3 <=? i + pin mod 10 * 3) with true
        by (symmetry; apply Z.leb_le; lia).
      replace (i + pin mod 10 * 3 <? pin mod 10 * 3 + 3) with true
        by (symmetry; apply Z.ltb_lt; lia).
      simpl. f_equal. lia.
    + symmetry. apply (testbit_small fsel 3); lia.
  - intros k Hk Hne. apply Z.bits_inj'. intros i Hi.
    rewrite !fsel_field_bits, testbit_field_update by lia.
    destruct (Z.ltb_spec i 3); simpl; [| reflexivity].
    replace (i + k * 3 <? 32) with true by (symmetry; apply Z.ltb_lt; lia).
    destruct (Z.leb_spec (pin mod 10 * 3) (i + k * 3));
      destruct (Z.ltb_spec (i + k * 3) (pin mod 10 * 3 + 3)); simpl;
      try reflexivity; lia.
  - intros i Hi Hout.
    rewrite testbit_field_update by lia.
    replace (i <? 32) with true by (symmetry; apply Z.ltb_lt; lia).
    destruct (Z.leb_spec (pin mod 10 * 3) i);
      destruct (Z.ltb_spec i (pin mod 10 * 3 + 3)); simpl;
      try reflexivity; lia.
Qed.

Lemma set_gpio_field_exact_witness :
  let w := World (ram {[ padd GPSEL 1 := 0xFFFFFFFF ]}) (fun _ => 1) [] in
  let w' := (set_gpio 17 5 w).2 in
  fsel_field (peek (padd GPSEL (17 / 10)) w') (17 mod 10) = 5 /\
  fsel_field (peek (padd GPSEL (17 / 10)) w') 6 = 7.
Proof.
  pose proof (set_gpio_field_exact {[ padd GPSEL 1 := 0xFFFFFFFF ]} (fun _ => 1) [] 17 5
                ltac:(lia) ltac:(lia)) as (_ & _ & Hfield & Hsib & _).
  split.
  - exact Hfield.
  - rewrite (Hsib 6) by (vm_compute; intuition congruence). reflexivity.
Defined.

(** ** Register primitives on any device *)

Lemma land_bit (v p : Z) :
  0 <= p < 32 ->
  negb (Z.land v (u32 (Z.shiftl 1 p)) =? 0) = Z.testbit v p.
Proof.
  intros Hp.
  assert (Hbits : forall i, 0 <= i ->
            Z.testbit (Z.land v (u32 (Z.shiftl 1 p))) i = Z.testbit v i && (i =? p)).
  { intros i Hi. rewrite Z.land_spec, testbit_u32, testbit_one_shifted by lia.
    destruct (Z.eqb_spec i p) as [-> | _]; [| now rewrite !Bool.andb_false_r].
    replace (p <? 32) with true by (symmetry; apply Z.ltb_lt; lia). reflexivity. }
  destruct (Z.testbit v p) eqn:Hv.
  - destruct (Z.eqb_spec (Z.land v (u32 (Z.shiftl 1 p))) 0) as [H0 | _]; [| reflexivity].
    specialize (Hbits p ltac:(lia)).
    rewrite H0, Z.bits_0, Hv, Z.eqb_refl in Hbits. discriminate.
  - replace (Z.land v (u32 (Z.shiftl 1 p))) with 0; [reflexivity |].
    symmetry. apply Z.bits_inj'. intros i Hi.
    rewrite Hbits, Z.bits_0 by exact Hi.
    destruct (Z.eqb_spec i p) as [-> | _]; [now rewrite Hv | apply Bool.andb_false_r].
Qed.

Lemma clk_src_field_u8 (v : Z) : u8 (Z.land v 0x0000000F) = clk_src_field v.
Proof.
  unfold clk_src_field, u8. change 0xF with (Z.ones 4).
  rewrite Z.land_ones by lia.
  apply Z.mod_small.
  pose proof (Z.mod_pos_bound v (2 ^ 4) ltac:(lia)). lia.
Qed.

(** Proof steps for running the embedded code symbolically. *)
Ltac tidy := cbv beta iota; cbn [hw base_pointer trace fst snd negb].

Ltac read_as v d :=
  unfold load; tidy; destruct (dev_read _ _) as [v d]; tidy.

Section Generic.
Context {D : Type} `{Device D}.

Lemma isBitSet_load (r : reg) (p : Z) (w : world D) :
  0 <= p < 32 ->
  isBitSet r p w = (Z.testbit (load r w).1 p, (load r w).2).
Proof.
  intros Hp. unfold isBitSet, bind, ret.
  destruct (load r w) as [v w1]. cbn [fst snd].
  now rewrite land_bit.
Qed.

Lemma get_clk_src_load (w : world D) :
  get_clk_src w = (clk_src_field (load GPCTL w).1, (load GPCTL w).2).
Proof.
  unfold get_clk_src, bind, ret.
  destruct (load GPCTL w) as [v w1]. cbn [fst snd].
  now rewrite clk_src_field_u8.
Qed.

(** The trace [set_clock_div] produces, in full: PWM disabled, the stop
    command that matches the running source, the kill command when the
    busy check still reads true, and the divisor store guarded by the
    last busy check. *)
Lemma set_clock_div_trace (div : Z) (w : world D) :
  exists c0 c8 s0 s1 b1 b2,
    trace (set_clock_div div w).2 =
    trace w ++
      [EvRead CTL c0; EvWrite CTL (Z.land c0 (u32 (Z.lnot (u32 (Z.shiftl 1 0)))));
       EvRead CTL c8; EvWrite CTL (Z.land c8 (u32 (Z.lnot (u32 (Z.shiftl 1 8)))));
       EvWait 10] ++
      stop_events s0 s1 ++ [EvWait 20] ++
      kill_events b1 ++ div_events div b2 ++ [EvWait 20].
Proof.
  cbv [set_clock_div bind clearBit ret uswait emit store]. tidy.
  read_as c0 d1. read_as c8 d2. exists c0, c8.
  rewrite get_clk_src_load. read_as s0 d3. exists s0.
  unfold stop_events, kill_events, div_events, clk_busy.
  destruct (clk_src_field s0 =? OSC); tidy.
  - exists 0.
    rewrite isBitSet_load by lia. read_as b1 d4. exists b1.
    destruct (Z.testbit b1 7); tidy;
      rewrite isBitSet_load by lia; read_as b2 d5; exists b2;
      destruct (Z.testbit b2 7); tidy; rewrite <- ?app_assoc; reflexivity.
  - rewrite get_clk_src_load. read_as s1 d4. exists s1.
    destruct (clk_src_field s1 =? PLLD); tidy;
      rewrite isBitSet_load by lia; read_as b1 d5; exists b1;
      destruct (Z.testbit b1 7); tidy;
      rewrite isBitSet_load by lia; read_as b2 d6; exists b2;
      destruct (Z.testbit b2 7); tidy; rewrite <- ?app_assoc; reflexivity.
Qed.

End Generic.

(** ** Traces *)

Lemma writes_to_app (r : reg) (t1 t2 : list event) :
  writes_to r (t1 ++ t2) = writes_to r t1 ++ writes_to r t2.
Proof. apply omap_app. Qed.

Lemma console_app (t1 t2 : list event) :
  console (t1 ++ t2) = console t1 ++ console t2.
Proof. apply omap_app. Qed.

Lemma writes_to_self (r : reg) (v : Z) (t : list event) :
  writes_to r (EvWrite r v :: t) = v :: writes_to r t.
Proof.
  unfold writes_to. cbn [omap list_omap is_write_to].
  destruct (decide (r = r)); [reflexivity | contradiction].
Qed.

(** A store that occurs once in a trace splits it in one way only. *)
Lemma store_position (r : reg) (l1 l2 pre post : list event) (v v' : Z) :
  writes_to r l1 = [] ->
  writes_to r l2 = [] ->
  l1 ++ EvWrite r v' :: l2 = pre ++ EvWrite r v :: post ->
  pre = l1 /\ v = v' /\ post = l2.
Proof.
  revert pre. induction l1 as [| e l1 IH]; intros pre Hl1 Hl2 Heq.
  - destruct pre as [| e' pre]; simpl in Heq.
    + injection Heq as -> ->. auto.
    + injection Heq as _ ->.
      rewrite writes_to_app, writes_to_self in Hl2.
      now apply app_eq_nil in Hl2 as [_ Hl2].
  - destruct pre as [| e' pre]; simpl in Heq.
    + injection Heq as -> _. rewrite writes_to_self in Hl1. discriminate.
    + injection Heq as <- Heq.
      change (e :: l1) with ([e] ++ l1) in Hl1.
      rewrite writes_to_app in Hl1.
      apply app_eq_nil in Hl1 as [_ Hl1].
      destruct (IH pre Hl1 Hl2 Heq) as (-> & -> & ->). auto.
Qed.

Lemma no_store_no_split (r : reg) (t pre post : list event) (v : Z) :
  writes_to r t = [] -> t <> pre ++ EvWrite r v :: post.
Proof.
  intros Ht ->. rewrite writes_to_app, writes_to_self in Ht.
  now apply app_eq_nil in Ht as [_ Ht].
Qed.

Lemma stop_events_no_div (s0 s1 : Z) : writes_to GPDIV (stop_events s0 s1) = [].
Proof.
  unfold stop_events.
  destruct (clk_src_field s0 =? OSC); [reflexivity |].
  destruct (clk_src_field s1 =? PLLD); reflexivity.
Qed.

Lemma kill_events_no_div (b1 : Z) : writes_to GPDIV (kill_events b1) = [].
Proof. unfold kill_events. destruct (clk_busy b1); reflexivity. Qed.

(** ** Clock divider *)

(** C5.  In every execution of [set_clock_div], on any device, for any
    divisor and any state of the clock: a store to the divider register,
    when there is one, is the event right after a load of the control
    register that showed the busy flag clear; everything before it is the
    PWM disable, the stop command that matches the source that was read,
    the wait, and the kill command with its wait when the first busy check
    read true; the value stored is the password-prefixed divisor, and only
    the closing wait follows. *)
Theorem set_clock_div_guards_divider {D : Type} `{Device D} (div : Z) (w : world D) :
  exists evs,
    trace (set_clock_div div w).2 = trace w ++ evs /\
    div_stores_guarded evs /\
    (forall pre v post,
       evs = pre ++ EvWrite GPDIV v :: post ->
       exists c0 c8 s0 s1 b1 b2,
         pre = [EvRead CTL c0; EvWrite CTL (Z.land c0 (u32 (Z.lnot (u32 (Z.shiftl 1 0)))));
                EvRead CTL c8; EvWrite CTL (Z.land c8 (u32 (Z.lnot (u32 (Z.shiftl 1 8)))));
                EvWait 10] ++
               stop_events s0 s1 ++ [EvWait 20] ++ kill_events b1 ++ [EvRead GPCTL b2] /\
         clk_busy b2 = false /\
         v = Z.lor 0x5A000000 (u32 (Z.shiftl div 12)) /\
         post = [EvWait 20]).
Proof.
  destruct (set_clock_div_trace div w) as (c0 & c8 & s0 & s1 & b1 & b2 & Ht).
  eexists. split; [exact Ht |].
  set (head := [EvRead CTL c0; EvWrite CTL (Z.land c0 (u32 (Z.lnot (u32 (Z.shiftl 1 0)))));
                EvRead CTL c8; EvWrite CTL (Z.land c8 (u32 (Z.lnot (u32 (Z.shiftl 1 8)))));
                EvWait 10] ++ stop_events s0 s1 ++ [EvWait 20] ++ kill_events b1).
  assert (Hhead : writes_to GPDIV head = []).
  { unfold head. rewrite !writes_to_app, stop_events_no_div, kill_events_no_div.
    reflexivity. }
  assert (Hsplit : forall pre v post,
            head ++ div_events div b2 ++ [EvWait 20] = pre ++ EvWrite GPDIV v :: post ->
            pre = head ++ [EvRead GPCTL b2] /\ clk_busy b2 = false /\
            v = Z.lor 0x5A000000 (u32 (Z.shiftl div 12)) /\ post = [EvWait 20]).
  { intros pre v post Heq. unfold div_events in Heq.
    destruct (clk_busy b2) eqn:Hb.
    - exfalso. revert Heq. apply no_store_no_split.
      rewrite writes_to_app, Hhead. reflexivity.
    - change (head ++ (EvRead GPCTL b2 :: [EvWrite GPDIV (Z.lor 0x5A000000 (u32 (Z.shiftl div 12)))])
                ++ [EvWait 20])
        with (head ++ [EvRead GPCTL b2] ++
                EvWrite GPDIV (Z.lor 0x5A000000 (u32 (Z.shiftl div 12))) :: [EvWait 20]) in Heq.
      rewrite app_assoc in Heq.
      apply store_position in Heq as (-> & -> & ->); auto.
      rewrite writes_to_app, Hhead. reflexivity. }
  assert (Hevs : [EvRead CTL c0; EvWrite CTL (Z.land c0 (u32 (Z.lnot (u32 (Z.shiftl 1 0)))));
                  EvRead CTL c8; EvWrite CTL (Z.land c8 (u32 (Z.lnot (u32 (Z.shiftl 1 8)))));
                  EvWait 10] ++ stop_events s0 s1 ++ [EvWait 20] ++ kill_events b1 ++
                 div_events div b2 ++ [EvWait 20]
                 = head ++ div_events div b2 ++ [EvWait 20]).
  { unfold head. now rewrite <- !app_assoc. }
  rewrite Hevs. split.
  - intros pre v post Heq. apply Hsplit in Heq as (-> & Hb & _).
    exists head, b2. auto.
  - intros pre v post Heq. apply Hsplit in Heq as (-> & Hb & -> & ->).
    exists c0, c8, s0, s1, b1, b2. unfold head. rewrite <- !app_assoc. auto.
Qed.

Lemma set_clock_div_guards_divider_witness :
  let w := boot (Sim {[ GPCTL := 0x91 ]} {[ GPCTL := [0x91; 0x91; 0x11] ]}) in
  exists evs,
    trace (set_clock_div 192 w).2 = trace w ++ evs /\
    div_stores_guarded evs /\
    writes_to GPDIV evs = [Z.lor 0x5A000000 (u32 (Z.shiftl 192 12))].
Proof.
  intros w.
  destruct (set_clock_div_guards_divider 192 w) as (evs & Ht & Hg & _).
  exists evs. split; [exact Ht |]. split; [exact Hg |].
  vm_compute in Ht. subst evs. reflexivity.
Defined.

Lemma sim_read_cells (r : reg) (d : sim) : cells (sim_read r d).2 = cells d.
Proof.
  unfold sim_read.
  destruct (feeds d !! r) as [[| v [| v' rest]] |]; reflexivity.
Qed.

(** C4 (as amended).  For every divisor that is 0 or at least 4096, on the
    simulated register file in any state, [pwm_set_clock_freq] prints
    "Invalid div value", never stores to the divider register (its value
    is unchanged), and then stores the fixed control word 0x5A000011:
    source oscillator, enabled, whatever source and enable state the
    control register had before the call. *)
Theorem pwm_set_clock_freq_invalid_div (w : world sim) (div : Z) :
  div <= 0 \/ 4096 <= div ->
  let w' := (pwm_set_clock_freq div w).2 in
  (exists s,
     trace w' = trace w ++
       [EvPuts "Invalid div value"; EvWrite GPCTL 0x5A000011; EvWait 10; EvRead GPCTL s] /\
     (pwm_set_clock_freq div w).1 = (if clk_src_field s =? OSC then OSC else 255)) /\
  peek GPDIV w' = peek GPDIV w /\
  peek GPCTL w' = 0x5A000011 /\
  clk_src_field (peek GPCTL w') = OSC /\
  clk_enab (peek GPCTL w') = true.
Proof.
  intros Hdiv w'.
  assert (Hguard : (0 <? div) && (div <? 4096) = false).
  { destruct (Z.ltb_spec 0 div); destruct (Z.ltb_spec div 4096); simpl; try reflexivity; lia. }
  assert (Hrun : exists s,
            trace w' = trace w ++
              [EvPuts "Invalid div value"; EvWrite GPCTL 0x5A000011; EvWait 10; EvRead GPCTL s] /\
            (pwm_set_clock_freq div w).1 = (if clk_src_field s =? OSC then OSC else 255) /\
            cells (hw w') = <[GPCTL := 0x5A000011]> (cells (hw w))).
  { subst w'. unfold pwm_set_clock_freq. rewrite Hguard.
    cbv [bind puts store uswait emit ret]. tidy.
    rewrite get_clk_src_load. unfold load. tidy.
    pose proof (sim_read_cells GPCTL (sim_write GPCTL 0x5A000011 (hw w))) as Hc.
    change (dev_read GPCTL (dev_write GPCTL 0x5A000011 (hw w)))
      with (sim_read GPCTL (sim_write GPCTL 0x5A000011 (hw w))).
    destruct (sim_read GPCTL (sim_write GPCTL 0x5A000011 (hw w))) as [s d] eqn:E.
    tidy. exists s.
    destruct (clk_src_field s =? OSC); tidy; rewrite <- !app_assoc;
      (split; [reflexivity | split; [reflexivity | exact Hc]]). }
  destruct Hrun as (s & Ht & Hret & Hc).
  assert (Hctl : peek GPCTL w' = 0x5A000011).
  { unfold peek. rewrite Hc, lookup_insert_eq. reflexivity. }
  split; [exists s; split; [exact Ht | exact Hret] |].
  split; [| rewrite Hctl; repeat split; reflexivity].
  unfold peek. rewrite Hc. now rewrite lookup_insert_ne by discriminate.
Qed.

Lemma pwm_set_clock_freq_invalid_div_witness :
  let w := boot (ram {[ GPCTL := 0x16; GPDIV := 0x5A0C0000 ]}) in
  let w' := (pwm_set_clock_freq 4096 w).2 in
  peek GPDIV w' = 0x5A0C0000 /\ peek GPCTL w' = 0x5A000011.
Proof.
  intros w w'.
  destruct (pwm_set_clock_freq_invalid_div w 4096 ltac:(lia)) as (_ & Hdiv & Hctl & _).
  split; [exact Hdiv | exact Hctl].
Defined.

(** C4 as the specification states it does not hold: with the PLLD
    source selected and the clock enabled, an invalid divisor leaves the
    control register on the oscillator source; with the clock disabled, it
    leaves it enabled. *)
Lemma pwm_set_clock_freq_previous_configuration_lost :
  ~ same_clock_configuration
      (peek GPCTL (boot (ram {[ GPCTL := 0x16 ]})))
      (peek GPCTL (pwm_set_clock_freq 0 (boot (ram {[ GPCTL := 0x16 ]}))).2) /\
  ~ same_clock_configuration
      (peek GPCTL (boot (ram {[ GPCTL := 0x06 ]})))
      (peek GPCTL (pwm_set_clock_freq 4096 (boot (ram {[ GPCTL := 0x06 ]}))).2).
Proof.
  split; intros [Hsrc Henab]; vm_compute in Hsrc; discriminate.
Qed.

(** ** Bit operations on the simulated register file *)

Lemma testbit_setbit (v p i : Z) :
  0 <= p < 32 -> 0 <= i ->
  Z.testbit (Z.lor v (u32 (Z.shiftl 1 p))) i = Z.testbit v i || (i =? p).
Proof.
  intros Hp Hi.
  rewrite Z.lor_spec, testbit_u32, testbit_one_shifted by lia.
  destruct (Z.eqb_spec i p) as [-> | _]; [| now rewrite Bool.andb_false_r].
  replace (p <? 32) with true by (symmetry; apply Z.ltb_lt; lia). reflexivity.
Qed.

Lemma testbit_clearbit (v p i : Z) :
  0 <= p < 32 -> 0 <= i < 32 ->
  Z.testbit (Z.land v (u32 (Z.lnot (u32 (Z.shiftl 1 p))))) i =
  Z.testbit v i && negb (i =? p).
Proof.
  intros Hp Hi.
  rewrite Z.land_spec, testbit_u32, Z.lnot_spec, testbit_u32, testbit_one_shifted by lia.
  replace (i <? 32) with true by (symmetry; apply Z.ltb_lt; lia). reflexivity.
Qed.

Lemma setBit_ram (r : reg) (p : Z) (m : gmap (nat * Z) Z) bp t :
  let v := default 0 (m !! r) in
  let v' := Z.lor v (u32 (Z.shiftl 1 p)) in
  setBit r p (World (ram m) bp t) =
  (v', World (ram (<[r := v']> m)) bp (t ++ [EvRead r v; EvWrite r v'])).
Proof.
  intros v v'. unfold setBit, bind, ret.
  rewrite load_ram, store_ram, <- app_assoc. reflexivity.
Qed.

Lemma clearBit_ram (r : reg) (p : Z) (m : gmap (nat * Z) Z) bp t :
  let v := default 0 (m !! r) in
  let v' := Z.land v (u32 (Z.lnot (u32 (Z.shiftl 1 p)))) in
  clearBit r p (World (ram m) bp t) =
  (v', World (ram (<[r := v']> m)) bp (t ++ [EvRead r v; EvWrite r v'])).
Proof.
  intros v v'. unfold clearBit, bind, ret.
  rewrite load_ram, store_ram, <- app_assoc. reflexivity.
Qed.

Lemma clear_fifo_ram (r : reg) (m : gmap (nat * Z) Z) bp t :
  let v := default 0 (m !! r) in
  let v1 := Z.land v (u32 (Z.lnot (Z.shiftl 3 4))) in
  let v2 := Z.lor v1 (Z.shiftl 3 4) in
  clear_fifo r (World (ram m) bp t) =
  (tt, World (ram (<[r := v2]> m)) bp
         (t ++ [EvRead r v; EvWrite r v1; EvRead r v1; EvWrite r v2])).
Proof.
  intros v v1 v2. unfold clear_fifo, bind.
  rewrite load_ram, store_ram, load_ram, store_ram.
  rewrite lookup_insert_eq. simpl.
  rewrite insert_insert_eq, <- !app_assoc. reflexivity.
Qed.

(** Runs straight-line code on a register file that is plain memory. *)
Ltac ram_run :=
  cbv [bind ret]; tidy;
  repeat (first [ rewrite setBit_ram | rewrite clearBit_ram | rewrite set_gpio_ram
                | rewrite clear_fifo_ram | rewrite load_ram | rewrite store_ram ];
          tidy).

Ltac peek_top :=
  unfold peek; cbn [hw ram cells];
  rewrite ?lookup_insert_eq; cbn [from_option id].

(** ** Four-wire engine *)

(** What [spi_set_data_mode] leaves in the phase and polarity bits, mode
    by mode. *)
Lemma spi_set_data_mode_bits (m : gmap (nat * Z) Z) bp t (mode : Z) :
  0 <= mode <= 3 ->
  let v' := peek SPI_CS (spi_set_data_mode mode (World (ram m) bp t)).2 in
  cpha v' = (mode =? 1) /\ cpol v' = (mode =? 2).
Proof.
  intros Hmode.
  assert (Hcases : mode = 0 \/ mode = 1 \/ mode = 2 \/ mode = 3) by lia.
  destruct Hcases as [-> | [-> | [-> | ->]]];
    cbv zeta; unfold spi_set_data_mode; cbn [Z.eqb Pos.eqb]; ram_run; peek_top;
    unfold cpha, cpol;
    rewrite ?testbit_setbit, ?testbit_clearbit by lia;
    rewrite ?testbit_setbit, ?testbit_clearbit by lia;
    cbn [Z.eqb Pos.eqb negb]; rewrite ?Bool.andb_false_r, ?Bool.orb_true_r;
    split; reflexivity.
Qed.

(** C6 (the code departs from it at mode 3).  On every device mode 3 runs
    exactly what mode 0 runs, so on a register file that is memory it
    leaves clock phase 0 and clock polarity 0, not phase 1 and
    polarity 1. *)
Theorem spi_set_data_mode_3_is_mode_0 :
  (forall (D : Type) (HD : Device D) (w : world D),
     spi_set_data_mode 3 w = spi_set_data_mode 0 w) /\
  (forall (m : gmap (nat * Z) Z) bp t,
     let v' := peek SPI_CS (spi_set_data_mode 3 (World (ram m) bp t)).2 in
     cpha v' = false /\ cpol v' = false).
Proof.
  split.
  - reflexivity.
  - intros m bp t. apply (spi_set_data_mode_bits m bp t 3). lia.
Qed.

(** C7 (the code departs from it).  For every chip-select index 0-2 and
    active value 0 or 1, on a register file that is memory,
    [spi_set_chip_select_polarity] leaves the polarity bit of that index
    equal to [active] and the polarity bits of the two other indices at 0,
    whatever they held before: the function starts by clearing all
    three. *)
Theorem spi_set_chip_select_polarity_clears_others
    (m : gmap (nat * Z) Z) bp t (cs active : Z) :
  0 <= cs <= 2 -> 0 <= active <= 1 ->
  let v' := peek SPI_CS (spi_set_chip_select_polarity cs active (World (ram m) bp t)).2 in
  cspol v' cs = (active =? 1) /\
  (forall n, 0 <= n <= 2 -> n <> cs -> cspol v' n = false).
Proof.
  intros Hcs Hactive.
  assert (Hc : cs = 0 \/ cs = 1 \/ cs = 2) by lia.
  assert (Ha : active = 0 \/ active = 1) by lia.
  assert (Hn : forall n, 0 <= n <= 2 -> n = 0 \/ n = 1 \/ n = 2) by (intros; lia).
  destruct Hc as [-> | [-> | ->]]; destruct Ha as [-> | ->];
    cbv zeta; unfold spi_set_chip_select_polarity;
    cbn [Z.eqb Pos.eqb andb]; ram_run; peek_top; unfold cspol;
    (split;
     [ | intros n Hr Hne; destruct (Hn n Hr) as [-> | [-> | ->]]; try contradiction ]);
    cbn [Z.add Pos.add Pos.succ Pos.add_carry];
    rewrite ?testbit_setbit, ?testbit_clearbit by lia;
    rewrite ?testbit_setbit, ?testbit_clearbit by lia;
    rewrite ?testbit_setbit, ?testbit_clearbit by lia;
    rewrite ?testbit_setbit, ?testbit_clearbit by lia;
    cbn [Z.eqb Pos.eqb negb];
    rewrite ?Bool.andb_false_r, ?Bool.orb_true_r, ?Bool.orb_false_r, ?Bool.andb_false_l;
    reflexivity.
Qed.

Lemma spi_set_chip_select_polarity_clears_others_witness :
  let w := World (ram {[ SPI_CS := 0x00C00000 ]}) (fun _ => 1) [] in
  let v' := peek SPI_CS (spi_set_chip_select_polarity 0 1 w).2 in
  cspol (peek SPI_CS w) 1 = true /\ cspol (peek SPI_CS w) 2 = true /\
  cspol v' 0 = true /\ cspol v' 1 = false /\ cspol v' 2 = false.
Proof.
  intros w v'.
  destruct (spi_set_chip_select_polarity_clears_others
              {[ SPI_CS := 0x00C00000 ]} (fun _ => 1) [] 0 1 ltac:(lia) ltac:(lia))
    as [Hown Hothers].
  split; [reflexivity |]. split; [reflexivity |].
  split; [exact Hown |].
  split; [apply (Hothers 1); lia | apply (Hothers 2); lia].
Defined.



(** ** Traces only grow *)

Create HintDb steady.

Section Growth.
Context {D : Type} `{Device D}.

Lemma grows_refl (w : world D) : grows w w.
Proof. exists []. now rewrite app_nil_r. Qed.

Lemma grows_trans (w1 w2 w3 : world D) : grows w1 w2 -> grows w2 w3 -> grows w1 w3.
Proof.
  intros [e1 H1] [e2 H2]. exists (e1 ++ e2).
  now rewrite H2, H1, app_assoc.
Qed.

Lemma grows_emit (e : event) (w : world D) : grows w (emit e w).
Proof. now exists [e]. Qed.

Lemma steady_ret {A : Type} (a : A) : steady (D := D) (ret a).
Proof. intros w. apply grows_refl. Qed.

Lemma steady_bind {A B : Type} (m : M D A) (k : A -> M D B) :
  steady m -> (forall a, steady (D := D) (k a)) -> steady (D := D) (bind m k).
Proof.
  intros Hm Hk w. unfold bind.
  specialize (Hm w). destruct (m w) as [a w1]. cbn [snd] in Hm.
  eapply grows_trans; [exact Hm | apply Hk].
Qed.

Lemma steady_load (r : reg) : steady (D := D) (load r).
Proof. intros w. unfold load. destruct (dev_read r (hw w)) as [v d]. now eexists. Qed.

Lemma steady_store (r : reg) (v : Z) : steady (D := D) (store r v).
Proof. intros w. now eexists. Qed.

Lemma steady_puts (s : string) : steady (D := D) (puts s).
Proof. intros w. apply grows_emit. Qed.

Lemma steady_if {A : Type} (b : bool) (m1 m2 : M D A) :
  steady m1 -> steady m2 -> steady (D := D) (if b then m1 else m2).
Proof. now destruct b. Qed.

#[local] Hint Resolve steady_ret steady_load steady_store steady_puts : steady.

Ltac steady_tac :=
  repeat first [ apply steady_bind; [| intros ? ]
               | apply steady_if
               | solve [ auto with steady ] ].

Lemma steady_setBit (r : reg) (p : Z) : steady (D := D) (setBit r p).
Proof. unfold setBit. steady_tac. Qed.

Lemma steady_clearBit (r : reg) (p : Z) : steady (D := D) (clearBit r p).
Proof. unfold clearBit. steady_tac. Qed.

Lemma steady_isBitSet (r : reg) (p : Z) : steady (D := D) (isBitSet r p).
Proof. unfold isBitSet. steady_tac. Qed.

Lemma steady_clear_fifo (r : reg) : steady (D := D) (clear_fifo r).
Proof. unfold clear_fifo. steady_tac. Qed.

#[local] Hint Resolve steady_setBit steady_clearBit steady_isBitSet steady_clear_fifo : steady.

Lemma steady_reset_error_status : steady (D := D) reset_error_status.
Proof. unfold reset_error_status. steady_tac. Qed.

Lemma steady_cap_len (len : Z) : steady (D := D) (cap_len len).
Proof. unfold cap_len. steady_tac. Qed.

#[local] Hint Resolve steady_reset_error_status steady_cap_len : steady.

Lemma steady_done_and_idle : steady (D := D) done_and_idle.
Proof. unfold done_and_idle. steady_tac. Qed.

#[local] Hint Resolve steady_done_and_idle : steady.

Lemma steady_i2c_write_status (i len : Z) : steady (D := D) (i2c_write_status i len).
Proof. unfold i2c_write_status. steady_tac. Qed.

(** The part of the write paths that runs before the polling loop. *)
Lemma steady_write_prelude (len : Z) :
  steady (D := D) (clear_fifo BSC_C ;; reset_error_status ;; store BSC_DLEN len ;;
          _ <- cap_len len ;; clearBit BSC_C 0 ;; setBit BSC_C 7).
Proof. steady_tac. Qed.

Lemma fifo_fill_grows (bit : Z) (fuel : nat) (buf : list Z) :
  forall (i : Z) (w : world D) (i' : Z) (w' : world D),
    fifo_fill bit fuel buf i w = Some (i', w') -> grows w w'.
Proof.
  induction fuel as [| n IH]; intros i w i' w' Hrun; [discriminate |].
  cbn [fifo_fill] in Hrun.
  pose proof (steady_isBitSet BSC_S bit w) as Hpoll.
  destruct (isBitSet BSC_S bit w) as [b w1]. cbn [snd] in Hpoll.
  destruct b.
  - pose proof (steady_store BSC_FIFO (nth (Z.to_nat i) buf 0) w1) as Hpush.
    destruct (store BSC_FIFO (nth (Z.to_nat i) buf 0) w1) as [u w2]. cbn [snd] in Hpush.
    apply IH in Hrun.
    eapply grows_trans; [exact Hpoll |]. eapply grows_trans; eassumption.
  - injection Hrun as _ <-. exact Hpoll.
Qed.

Lemma write_poll_grows (bit : Z) (inner fuel : nat) (buf : list Z) :
  forall (i : Z) (w : world D) (i' : Z) (w' : world D),
    write_poll bit inner fuel buf i w = Some (i', w') -> grows w w'.
Proof.
  induction fuel as [| n IH]; intros i w i' w' Hrun; [discriminate |].
  cbn [write_poll] in Hrun.
  pose proof (steady_isBitSet BSC_S 1 w) as Hpoll.
  destruct (isBitSet BSC_S 1 w) as [done w1]. cbn [snd] in Hpoll.
  destruct done.
  - injection Hrun as _ <-. exact Hpoll.
  - destruct (fifo_fill bit inner buf i w1) as [[i1 w2] |] eqn:Hfill; [| discriminate].
    apply fifo_fill_grows in Hfill. apply IH in Hrun.
    eapply grows_trans; [exact Hpoll |]. eapply grows_trans; eassumption.
Qed.

(** What the probe's classification step returns and prints. *)
Lemma i2c_slave_write_test_status_logs (w : world D) :
  let r := (i2c_slave_write_test_status w).1 in
  let w' := (i2c_slave_write_test_status w).2 in
  (r = 0 \/ r = 1 \/ r = 4) /\
  exists evs, trace w' = trace w ++ evs /\
    (r = 1 -> In "slave address error - address not acknowledge by slave device."%string
                (console evs)) /\
    (r = 4 -> In "slave write error - data transfer is not complete"%string
                (console evs)).
Proof.
  cbv zeta. unfold i2c_slave_write_test_status, done_and_idle.
  cbv [bind ret puts emit setBit store]. tidy.
  rewrite isBitSet_load by lia. read_as s8 d1.
  destruct (Z.testbit s8 8); tidy;
    rewrite isBitSet_load by lia; read_as s1 d2;
    (destruct (Z.testbit s1 1); tidy;
     [ rewrite isBitSet_load by lia; read_as s0 d3; destruct (Z.testbit s0 0); tidy;
       try read_as s1' d4 | ]);
    (split; [ auto | ]);
    (eexists; split; [ rewrite <- ?app_assoc; reflexivity | ]);
    (split; intros Hr; try discriminate Hr; cbn; auto).
Qed.

End Growth.

(** ** Two-wire engine *)

(** C8 (as amended).  On any device, for every slave address:
    [i2c_select_slave] stores the address, runs the one-byte probe and
    returns no value; it returns exactly when the probe does, in the
    state the probe left, and the probe's classification (0, 1 or 4) is
    dropped.  A classification of 1 or 4 reaches the caller only as the
    line the probe prints. *)
Theorem i2c_select_slave_drops_classification {D : Type} `{Device D}
    (fuel : nat) (addr : Z) (w : world D) :
  let probe := i2c_slave_write_test fuel [0x01; 0x00] 1 (store BSC_A addr w).2 in
  i2c_select_slave fuel addr w = (fun p => (tt, p.2)) <$> probe /\
  (forall (r : Z) (w' : world D),
     probe = Some (r, w') ->
     (r = 0 \/ r = 1 \/ r = 4) /\
     exists evs, trace w' = trace w ++ evs /\
       (r = 1 -> In "slave address error - address not acknowledge by slave device."%string
                   (console evs)) /\
       (r = 4 -> In "slave write error - data transfer is not complete"%string
                   (console evs))).
Proof.
  intros probe. split.
  - unfold i2c_select_slave. cbv [bindo lift store ret].
    subst probe. cbv [store]. cbn [snd].
    destruct (i2c_slave_write_test _ _ _ _) as [[r w'] |]; reflexivity.
  - intros r w' Hprobe. subst probe.
    pose proof (steady_store BSC_A addr w) as Haddr.
    set (w0 := (store BSC_A addr w).2) in *.
    unfold i2c_slave_write_test in Hprobe.
    pose proof (steady_write_prelude 1 w0) as Hpre.
    cbv [bindo lift] in Hprobe. cbv [bind] in Hpre.
    destruct (clear_fifo BSC_C w0) as [u1 w1].
    destruct (reset_error_status w1) as [u2 w2].
    destruct (store BSC_DLEN 1 w2) as [u3 w3].
    destruct (cap_len 1 w3) as [len' w4].
    destruct (clearBit BSC_C 0 w4) as [v5 w5].
    destruct (setBit BSC_C 7 w5) as [v6 w6]. cbn [snd] in Hpre.
    destruct (write_poll 4 fuel fuel [0x01; 0x00] 0 w6) as [[i w7] |] eqn:Hpoll;
      [| discriminate].
    apply write_poll_grows in Hpoll.
    pose proof (i2c_slave_write_test_status_logs w7) as Hst. cbv zeta in Hst.
    injection Hprobe as Hr. rewrite Hr in Hst. cbn [fst snd] in Hst.
    destruct Hst as (Hcases & evs & Ht & H1 & H4).
    split; [exact Hcases |].
    destruct (grows_trans _ _ _ Haddr (grows_trans _ _ _ Hpre Hpoll)) as [evs0 Ht0].
    exists (evs0 ++ evs). split.
    + now rewrite Ht, Ht0, app_assoc.
    + rewrite console_app.
      split; intros Hrv; apply in_or_app; right; auto.
Qed.

Lemma i2c_select_slave_drops_classification_witness :
  let w := boot (bsc [0; 0; 0; S_DONE + S_ERR] []) in
  exists w', i2c_select_slave 4 0x48 w = Some (tt, w') /\
             In "slave address error - address not acknowledge by slave device."%string
                (console (trace w')).
Proof.
  intros w.
  assert (Hprobe : exists w',
            i2c_slave_write_test 4 [0x01; 0x00] 1 (store BSC_A 0x48 w).2 = Some (1, w')).
  { vm_compute. eexists. reflexivity. }
  destruct Hprobe as [w' Hprobe].
  pose proof (i2c_select_slave_drops_classification 4 0x48 w) as Hthm.
  cbv zeta in Hthm. rewrite Hprobe in Hthm. destruct Hthm as [Hsel Hlog].
  destruct (Hlog 1 w' eq_refl) as (_ & evs & Ht & H1 & _).
  exists w'. split; [exact Hsel |].
  rewrite Ht. cbn [trace w boot app]. apply H1. reflexivity.
Defined.

(** C8 as the specification states it does not hold: no reading of what
    [i2c_select_slave] returns recovers the probe's classification, since
    it returns the same value for a slave that acknowledges and for one
    that does not. *)
Lemma i2c_select_slave_result_carries_nothing :
  ~ exists classify : unit -> Z, select_slave_reports classify.
Proof.
  intros [classify Hrep].
  destruct (i2c_slave_write_test 4 [0x01; 0x00] 1
              (store BSC_A 0x48 (boot (bsc [0; 0; 0; S_DONE] []))).2)
    as [[r_ack w_ack] |] eqn:Hack; [| vm_compute in Hack; discriminate].
  destruct (i2c_slave_write_test 4 [0x01; 0x00] 1
              (store BSC_A 0x48 (boot (bsc [0; 0; 0; S_DONE + S_ERR] []))).2)
    as [[r_nack w_nack] |] eqn:Hnack; [| vm_compute in Hnack; discriminate].
  destruct (Hrep _ _ _ _ _ Hack) as ([] & _ & _ & Hcl_ack).
  destruct (Hrep _ _ _ _ _ Hnack) as ([] & _ & _ & Hcl_nack).
  vm_compute in Hack. vm_compute in Hnack.
  injection Hack as Hr_ack _. injection Hnack as Hr_nack _.
  rewrite <- Hr_ack in Hcl_ack. rewrite <- Hr_nack in Hcl_nack.
  rewrite Hcl_ack in Hcl_nack. discriminate.
Qed.

(** C2 (the code departs from it).  A controller that asks for bytes as
    long as the programmed length is not reached: with length 20,
    [i2c_write] programs a length of 20, not 16, pushes all 20 bytes,
    prints the warning and reports success; with length 10 it programs 10,
    pushes 10 bytes and reports success. *)
Theorem i2c_write_length_not_capped :
  let buf := [1; 2; 3; 4; 5; 6; 7; 8; 9; 10; 11; 12; 13; 14; 15; 16; 17; 18; 19; 20] in
  let asks (n : nat) := boot (bsc ([0; 0; 0; 0] ++ repeat S_TXW n ++ [0; S_DONE]) []) in
  write_report (i2c_write 32 buf 20 (asks 20%nat)) =
    Some (0, [20], buf,
          ["maximum number of bytes per one write cycle is 16 bytes, beyond this data will be ignored"%string]) /\
  write_report (i2c_write 32 buf 10 (asks 10%nat)) =
    Some (0, [10], [1; 2; 3; 4; 5; 6; 7; 8; 9; 10], []).
Proof. split; vm_compute; reflexivity. Qed.

(** *** Classification once the status has settled *)

Lemma isBitSet_settled (s p : Z) (w : world sim) :
  0 <= p < 32 -> settled s w ->
  isBitSet BSC_S p w = (Z.testbit s p, emit (EvRead BSC_S s) w).
Proof.
  intros Hp Hs. rewrite isBitSet_load by exact Hp.
  unfold load, settled in *. cbn [dev_read sim_device]. unfold sim_read.
  rewrite Hs. reflexivity.
Qed.

Lemma settled_emit (s : Z) (e : event) (w : world sim) :
  settled s w -> settled s (emit e w).
Proof. auto. Qed.

Lemma settled_setBit (s p : Z) (w : world sim) :
  settled s w -> settled s (setBit BSC_S p w).2.
Proof.
  intros Hs. unfold setBit, bind, ret, load, store, settled in *.
  cbn [dev_read dev_write sim_device]. unfold sim_read.
  rewrite Hs. exact Hs.
Qed.

Lemma done_and_idle_settled (s : Z) (w : world sim) :
  settled s w ->
  (done_and_idle w).1 = done_idle s /\ settled s (done_and_idle w).2.
Proof.
  intros Hs. unfold done_and_idle, done_idle. cbv [bind ret].
  rewrite (isBitSet_settled s) by (lia || assumption). tidy.
  destruct (Z.testbit s 1); tidy; [| auto using settled_emit].
  rewrite (isBitSet_settled s) by (lia || auto using settled_emit). tidy.
  auto using settled_emit.
Qed.

Lemma i2c_write_status_settled (s i len : Z) (w : world sim) :
  settled s w -> (i2c_write_status i len w).1 = write_class s i len.
Proof.
  intros Hs. unfold i2c_write_status, write_class. cbv [bind ret puts].
  rewrite (isBitSet_settled s) by (lia || assumption). tidy.
  set (w1 := emit (EvRead BSC_S s) w).
  assert (H1 : settled s w1) by now apply settled_emit.
  assert (Hstep : forall (b : bool) (line : string) (a c : Z) (w0 : world sim),
            settled s w0 ->
            settled s (if b return (Z * world sim)
                       then (a, emit (EvPuts line) w0) else (c, w0)).2).
  { intros [] ? ? ? ? ?; auto using settled_emit. }
  destruct (Z.testbit s 8); tidy;
    rewrite (isBitSet_settled s) by (lia || auto using settled_emit); tidy;
    destruct (Z.testbit s 9); tidy;
    rewrite (isBitSet_settled s) by (lia || auto 6 using settled_emit); tidy;
    destruct (Z.testbit s 2 || (i <? len)); tidy;
    match goal with
    | |- context [done_and_idle ?w0] =>
        destruct (done_and_idle_settled s w0) as [Hd _];
        [ auto 8 using settled_emit | ];
        destruct (done_and_idle w0) as [ok w2]; cbn [fst] in Hd; rewrite <- Hd
    end;
    destruct ok; tidy; try reflexivity;
    destruct (setBit BSC_S 1 w2); reflexivity.
Qed.

Lemma bind_run {D A B : Type} (m : M D A) (k : A -> M D B) (w : world D) :
  bind m k w = k (m w).1 (m w).2.
Proof. unfold bind. now destruct (m w). Qed.

Lemma i2c_read_status_settled (s i len : Z) (w : world sim) :
  settled s w -> (i2c_read_status i len w).1 = read_class s i len.
Proof.
  intros Hs. unfold i2c_read_status, read_class.
  match goal with
  | |- (bind _ (fun ok => bind _ ?k) _).1 = _ =>
      assert (Htail : forall (result : Z) (w2 : world sim), settled s w2 ->
                (k result w2).1 =
                (if Z.testbit s 8 then 0x01
                 else if Z.testbit s 9 then 0x02
                 else if Z.testbit s 5 || (i <? len) then 0x04
                 else result))
  end.
  { intros result w2 H2. cbv [bind ret puts].
    rewrite (isBitSet_settled s) by (lia || assumption). tidy.
    destruct (Z.testbit s 8); tidy; [reflexivity |].
    rewrite (isBitSet_settled s) by (lia || auto using settled_emit). tidy.
    destruct (Z.testbit s 9); tidy; [reflexivity |].
    rewrite (isBitSet_settled s) by (lia || auto using settled_emit). tidy.
    destruct (Z.testbit s 5 || (i <? len)); reflexivity. }
  rewrite bind_run.
  destruct (done_and_idle_settled s w Hs) as [Hd Hs1].
  destruct (done_and_idle w) as [ok w1]. cbn [fst snd] in Hd, Hs1 |- *.
  rewrite <- Hd. rewrite bind_run. cbv beta.
  destruct ok.
  - rewrite Htail; [rewrite bind_run; reflexivity |].
    rewrite bind_run. cbv [ret]. cbn [snd]. now apply settled_setBit.
  - rewrite Htail; [rewrite bind_run; reflexivity |].
    cbv [bind puts ret]. cbn [snd]. now apply settled_emit.
Qed.

(** C3 (the code departs from it on the write path).  Once the status
    register has settled on a final word [s]: the classification step of
    [i2c_read] returns 0x01 exactly when the not-acknowledged bit (8) of
    [s] is set; the classification step of [i2c_write] returns 0x01 only
    when, besides that bit, the clock-stretch-timeout bit (9) and the TXW
    bit (2) are clear, no byte is missing, and the transfer is done and
    idle: its later checks overwrite the not-acknowledged result. *)
Theorem i2c_status_nack_classification (w : world sim) (s i len : Z) :
  settled s w ->
  ((i2c_read_status i len w).1 = 0x01 <-> Z.testbit s 8 = true) /\
  ((i2c_write_status i len w).1 = 0x01 <->
     Z.testbit s 8 = true /\ Z.testbit s 9 = false /\ Z.testbit s 2 = false /\
     len <= i /\ Z.testbit s 1 = true /\ Z.testbit s 0 = false).
Proof.
  intros Hs.
  rewrite (i2c_read_status_settled s), (i2c_write_status_settled s) by exact Hs.
  unfold read_class, write_class, done_idle.
  destruct (Z.testbit s 8), (Z.testbit s 9), (Z.testbit s 2), (Z.testbit s 5),
    (Z.testbit s 1), (Z.testbit s 0), (Z.ltb_spec i len);
    cbn [andb orb negb]; (split; split; intros; try discriminate; try lia; intuition (try discriminate; try lia)).
Qed.

Lemma i2c_status_nack_classification_witness :
  let w := boot (bsc [S_DONE + S_ERR + S_CLKT] []) in
  (i2c_read_status 0 0 w).1 = 0x01 /\ (i2c_write_status 0 0 w).1 <> 0x01.
Proof.
  intros w.
  destruct (i2c_status_nack_classification w (S_DONE + S_ERR + S_CLKT) 0 0 eq_refl)
    as [[_ Hread] [Hwrite _]].
  split.
  - apply Hread. reflexivity.
  - intros Habs. apply Hwrite in Habs as (_ & Hclkt & _). discriminate Hclkt.
Defined.

(** The same on whole transactions: a not-acknowledged slave is reported
    as a clock-stretch timeout by [i2c_write] when that bit is set too,
    and as an incomplete transfer when a byte was left unsent, while
    [i2c_read] reports 0x01 on the same final status. *)
Lemma i2c_write_nack_runs :
  fst <$> i2c_write 4 [] 0 (boot (bsc [0; 0; 0; S_DONE + S_ERR + S_CLKT] [])) = Some 0x02 /\
  fst <$> i2c_write 4 [0xAB] 1 (boot (bsc [0; 0; 0; S_DONE + S_ERR] [])) = Some 0x04 /\
  fst <$> i2c_write 4 [] 0 (boot (bsc [0; 0; 0; S_DONE + S_ERR] [])) = Some 0x01 /\
  fst <$> i2c_read 4 [] 0 (boot (bsc [0; 0; 0; S_DONE + S_ERR + S_CLKT] [])) = Some (0x01, []).
Proof. repeat split; vm_compute; reflexivity. Qed.

(** C10.  [i2c_byte_read] returns the byte on success and 0x01, 0x02 or
    0x04 on failure, in the same [uint8_t]: for each of these three values
    there is a run that takes that byte from the FIFO, prints nothing and
    returns it, and a run that takes nothing from the FIFO, prints an
    error and returns the same value. *)
Theorem i2c_byte_read_result_ambiguous :
  let delivers (c : Z) := boot (bsc [0; 0; 0; S_RXD; S_RXD; 0; S_DONE] [c]) in
  let fails (s : Z) := boot (bsc [0; 0; 0; s] []) in
  (byte_read_report (i2c_byte_read 4 (delivers 0x01)) = Some (0x01, [0x01], []) /\
   byte_read_report (i2c_byte_read 4 (fails (S_DONE + S_ERR))) =
     Some (0x01, [], ["read error - slave address not acknowledged"%string])) /\
  (byte_read_report (i2c_byte_read 4 (delivers 0x02)) = Some (0x02, [0x02], []) /\
   byte_read_report (i2c_byte_read 4 (fails (S_DONE + S_CLKT))) =
     Some (0x02, [], ["read error - clock stretch timeout"%string])) /\
  (byte_read_report (i2c_byte_read 4 (delivers 0x04)) = Some (0x04, [0x04], []) /\
   byte_read_report (i2c_byte_read 4 (fails (S_DONE + S_TA))) =
     Some (0x04, [], ["read error - data transfer is not complete"%string])).
Proof. repeat split; vm_compute; reflexivity. Qed.

(** On every device, whatever the length asked for, the first and only
    value [i2c_write] stores in the length register is that length: the
    16-byte check runs after the store and changes a local variable. *)
Lemma i2c_write_programs_requested_length {D : Type} `{Device D}
    (fuel : nat) (buf : list Z) (len : Z) (w : world D) (r : Z) (w' : world D) :
  i2c_write fuel buf len w = Some (r, w') ->
  exists e1 e2,
    trace w' = trace w ++ e1 ++ EvWrite BSC_DLEN len :: e2 /\
    writes_to BSC_DLEN e1 = [].
Proof.
  intros Hrun. unfold i2c_write in Hrun. cbv [bindo lift] in Hrun.
  assert (Hhead : exists e1, trace (reset_error_status (clear_fifo BSC_C w).2).2 = trace w ++ e1 /\
                             writes_to BSC_DLEN e1 = []).
  { cbv [clear_fifo reset_error_status setBit bind ret store]. tidy.
    read_as c0 d1. read_as c1 d2. read_as s9 d3. read_as s8 d4. read_as s1 d5.
    eexists. rewrite <- !app_assoc. split; reflexivity. }
  destruct (clear_fifo BSC_C w) as [u1 w1]. cbn [snd] in Hhead.
  destruct (reset_error_status w1) as [u2 w2]. cbn [snd] in Hhead.
  destruct Hhead as (e1 & He1 & Hno).
  assert (Hstore : trace (store BSC_DLEN len w2).2 = trace w2 ++ [EvWrite BSC_DLEN len])
    by reflexivity.
  destruct (store BSC_DLEN len w2) as [u3 w3]. cbn [snd] in Hstore.
  pose proof (steady_cap_len len w3) as H4.
  destruct (cap_len len w3) as [len' w4]. cbn [snd] in H4.
  pose proof (steady_clearBit BSC_C 0 w4) as H5.
  destruct (clearBit BSC_C 0 w4) as [v5 w5]. cbn [snd] in H5.
  pose proof (steady_setBit BSC_C 7 w5) as H6.
  destruct (setBit BSC_C 7 w5) as [v6 w6]. cbn [snd] in H6.
  destruct (write_poll 2 fuel fuel buf 0 w6) as [[i w7] |] eqn:Hpoll; [| discriminate].
  apply write_poll_grows in Hpoll.
  pose proof (steady_i2c_write_status i len' w7) as H8.
  injection Hrun as Hst. rewrite Hst in H8. cbn [snd] in H8.
  destruct (grows_trans _ _ _ H4 (grows_trans _ _ _ H5 (grows_trans _ _ _ H6
              (grows_trans _ _ _ Hpoll H8)))) as [e2 He2].
  exists e1, e2. split; [| exact Hno].
  rewrite He2, Hstore, He1, <- !app_assoc. reflexivity.
Qed.

(** * Properties of the rest of rpi.c *)

(** ** Register primitives *)

Lemma isBitSet_ram (r : reg) (p : Z) (m : gmap (nat * Z) Z) bp t :
  0 <= p < 32 ->
  isBitSet r p (World (ram m) bp t) =
  (Z.testbit (default 0 (m !! r)) p,
   World (ram m) bp (t ++ [EvRead r (default 0 (m !! r))])).
Proof.
  intros Hp. rewrite isBitSet_load by exact Hp. now rewrite load_ram.
Qed.

(** X1.  On a register file that is memory, for every register and bit
    position 0-31: [isBitSet] is true after [setBit], false after
    [clearBit], false after [setBit] then [clearBit]; neither changes
    another bit of the word or another register. *)
Theorem bit_primitives_roundtrip (m : gmap (nat * Z) Z) bp t (r : reg) (p : Z) :
  0 <= p < 32 ->
  let w := World (ram m) bp t in
  (isBitSet r p (setBit r p w).2).1 = true /\
  (isBitSet r p (clearBit r p w).2).1 = false /\
  (isBitSet r p (clearBit r p (setBit r p w).2).2).1 = false /\
  (forall i, 0 <= i < 32 -> i <> p ->
     Z.testbit (peek r (setBit r p w).2) i = Z.testbit (peek r w) i /\
     Z.testbit (peek r (clearBit r p w).2) i = Z.testbit (peek r w) i) /\
  (forall r', r' <> r ->
     peek r' (setBit r p w).2 = peek r' w /\ peek r' (clearBit r p w).2 = peek r' w).
Proof.
  intros Hp w. unfold w.
  rewrite setBit_ram, clearBit_ram. cbn [snd].
  rewrite clearBit_ram. cbn [snd].
  rewrite !isBitSet_ram by exact Hp. cbn [fst].
  rewrite !lookup_insert_eq. cbn [from_option id].
  assert (Hpp : (p =? p) = true) by apply Z.eqb_refl.
  split; [rewrite testbit_setbit by lia; rewrite Hpp; apply Bool.orb_true_r |].
  split; [rewrite testbit_clearbit by lia; rewrite Hpp; apply Bool.andb_false_r |].
  split; [rewrite testbit_clearbit by lia; rewrite Hpp; apply Bool.andb_false_r |].
  split.
  - intros i Hi Hne. peek_top.
    rewrite testbit_setbit, testbit_clearbit by lia.
    replace (i =? p) with false by (symmetry; apply Z.eqb_neq; exact Hne).
    now rewrite Bool.orb_false_r, Bool.andb_true_r.
  - intros r' Hne. unfold peek. cbn [hw ram cells].
    now rewrite !lookup_insert_ne by congruence.
Qed.

Lemma bit_primitives_roundtrip_witness :
  let w := World (ram {[ GPHEN := 0x0F ]}) (fun _ => 1) [] in
  (isBitSet GPHEN 17 (setBit GPHEN 17 w).2).1 = true /\
  (isBitSet GPHEN 17 (clearBit GPHEN 17 (setBit GPHEN 17 w).2).2).1 = false.
Proof.
  intros w.
  destruct (bit_primitives_roundtrip {[ GPHEN := 0x0F ]} (fun _ => 1) [] GPHEN 17 ltac:(lia))
    as (Hset & _ & Hboth & _).
  split; [exact Hset | exact Hboth].
Defined.

(** ** Function-select fields *)

Lemma fsel_field_update (v f pin k : Z) :
  0 <= pin -> 0 <= f < 8 -> 0 <= k < 10 ->
  fsel_field (field_update v (pin mod 10 * 3) f) k =
  if k =? pin mod 10 then f else fsel_field v k.
Proof.
  intros Hpin Hf Hk.
  assert (Hslot : 0 <= pin mod 10 < 10) by (apply Z.mod_pos_bound; lia).
  apply Z.bits_inj'. intros i Hi.
  rewrite fsel_field_bits by lia.
  unfold field_update. rewrite testbit_field_update by lia.
  destruct (Z.eqb_spec k (pin mod 10)) as [-> | Hne].
  - destruct (Z.ltb_spec i 3); simpl.
    + replace (i + pin mod 10 * 3 <? 32) with true by (symmetry; apply Z.ltb_lt; lia).
      replace (pin mod 10 * 3 <=? i + pin mod 10 * 3) with true
        by (symmetry; apply Z.leb_le; lia).
      replace (i + pin mod 10 * 3 <? pin mod 10 * 3 + 3) with true
        by (symmetry; apply Z.ltb_lt; lia).
      simpl. f_equal. lia.
    + symmetry. apply (testbit_small f 3); lia.
  - rewrite fsel_field_bits by lia.
    destruct (Z.ltb_spec i 3); simpl; [| reflexivity].
    replace (i + k * 3 <? 32) with true by (symmetry; apply Z.ltb_lt; lia).
    destruct (Z.leb_spec (pin mod 10 * 3) (i + k * 3));
      destruct (Z.ltb_spec (i + k * 3) (pin mod 10 * 3 + 3)); simpl;
      try reflexivity; lia.
Qed.

(** Runs code made of pin settings on a register file that is memory. *)
Ltac pins_run :=
  cbv [bind ret]; tidy;
  repeat (first [ rewrite set_gpio_ram | rewrite setBit_ram | rewrite clearBit_ram
                | rewrite clear_fifo_ram | rewrite load_ram | rewrite store_ram ];
          tidy);
  repeat match goal with
         | |- context [Z.lor (Z.land ?v (u32 (Z.lnot (Z.shiftl 7 ?s)))) (u32 (Z.shiftl ?f ?s))] =>
             change (Z.lor (Z.land v (u32 (Z.lnot (Z.shiftl 7 s)))) (u32 (Z.shiftl f s)))
               with (field_update v s f)
         end.

Lemma pin_eq_split (p pin : Z) :
  p = pin <-> p / 10 = pin / 10 /\ p mod 10 = pin mod 10.
Proof.
  split; [intros ->; auto |].
  intros [Hq Hr].
  rewrite (Z.div_mod p 10), (Z.div_mod pin 10) by lia. now rewrite Hq, Hr.
Qed.

Lemma pin_function_set (m : gmap (nat * Z) Z) bp t bp' t' (pin f p : Z) :
  0 <= pin -> 0 <= f < 8 -> 0 <= p ->
  pin_function
    (World (ram (<[padd GPSEL (pin / 10) :=
                     field_update (default 0 (m !! padd GPSEL (pin / 10)))
                                  (pin mod 10 * 3) f]> m)) bp' t') p =
  if p =? pin then f else pin_function (World (ram m) bp t) p.
Proof.
  intros Hpin Hf Hp. unfold pin_function, peek. cbn [hw ram cells].
  assert (Hslot : 0 <= p mod 10 < 10) by (apply Z.mod_pos_bound; lia).
  destruct (Z.eq_dec (p / 10) (pin / 10)) as [Hq | Hq].
  - rewrite Hq, lookup_insert_eq. cbn [from_option id].
    rewrite fsel_field_update by lia.
    destruct (Z.eqb_spec (p mod 10) (pin mod 10)) as [Hr | Hr];
      destruct (Z.eqb_spec p pin) as [He | He]; try reflexivity.
    + exfalso. apply He. now apply pin_eq_split.
    + exfalso. apply Hr. now rewrite He.
  - rewrite lookup_insert_ne
      by (intros E; apply Hq; unfold padd, GPSEL in E; cbn in E; injection E as E; lia).
    destruct (Z.eqb_spec p pin) as [He | He]; [| reflexivity].
    exfalso. apply Hq. now rewrite He.
Qed.

Lemma pin_function_other (m : gmap (nat * Z) Z) bp t bp' t' (r : reg) (x p : Z) :
  r <> padd GPSEL (p / 10) ->
  pin_function (World (ram (<[r := x]> m)) bp' t') p =
  pin_function (World (ram m) bp t) p.
Proof.
  intros Hne. unfold pin_function, peek. cbn [hw ram cells].
  now rewrite lookup_insert_ne by exact Hne.
Qed.

(** X2.  Two pin settings in a row, on a register file that is memory:
    every pin 0-53 then has the code of the last setting that named it,
    and its previous code when neither did.  So a second setting of the
    same pin overrides the first, and settings of different pins do not
    disturb each other, in the same select register or not. *)
Theorem set_gpio_compose (m : gmap (nat * Z) Z) bp t (p1 f1 p2 f2 p : Z) :
  0 <= p1 <= 53 -> 0 <= f1 <= 7 -> 0 <= p2 <= 53 -> 0 <= f2 <= 7 -> 0 <= p <= 53 ->
  let w := World (ram m) bp t in
  pin_function (set_gpio p2 f2 (set_gpio p1 f1 w).2).2 p =
  if p =? p2 then f2 else if p =? p1 then f1 else pin_function w p.
Proof.
  intros H1 Hf1 H2 Hf2 Hp w. unfold w.
  pins_run.
  rewrite (pin_function_set _ bp t) by lia.
  rewrite (pin_function_set _ bp t) by lia.
  reflexivity.
Qed.

Lemma set_gpio_compose_witness :
  let w := World (ram {[ padd GPSEL 1 := 0x3FFFFFFF ]}) (fun _ => 1) [] in
  pin_function (set_gpio 18 2 (set_gpio 12 4 w).2).2 12 = 4 /\
  pin_function (set_gpio 18 2 (set_gpio 12 4 w).2).2 18 = 2 /\
  pin_function (set_gpio 18 2 (set_gpio 12 4 w).2).2 13 = 7.
Proof.
  intros w.
  pose proof (set_gpio_compose {[ padd GPSEL 1 := 0x3FFFFFFF ]} (fun _ => 1) [] 12 4 18 2) as Hc.
  split; [exact (Hc 12 ltac:(lia) ltac:(lia) ltac:(lia) ltac:(lia) ltac:(lia)) |].
  split; [exact (Hc 18 ltac:(lia) ltac:(lia) ltac:(lia) ltac:(lia) ltac:(lia)) |].
  exact (Hc 13 ltac:(lia) ltac:(lia) ltac:(lia) ltac:(lia) ltac:(lia)).
Defined.

(** ** Pins *)

(** X3.  [gpio_config] on a register file that is memory, for a pin
    0-53: mode 0 makes the pin an input (code 0) and mode 1 an output
    (code 1), every other pin keeps its function and nothing is printed;
    any other mode prints "Invalid mode parameter" and touches no
    register. *)
Theorem gpio_config_modes (m : gmap (nat * Z) Z) bp t (pin mode : Z) :
  0 <= pin <= 53 ->
  let w := World (ram m) bp t in
  let w' := (gpio_config pin mode w).2 in
  (mode = 0 \/ mode = 1 ->
     (forall p, 0 <= p <= 53 ->
        pin_function w' p = if p =? pin then mode else pin_function w p) /\
     console (trace w') = console t) /\
  (mode <> 0 -> mode <> 1 ->
     hw w' = hw w /\ trace w' = t ++ [EvPuts "Invalid mode parameter"]).
Proof.
  intros Hpin w w'. subst w' w. split.
  - intros [-> | ->]; unfold gpio_config, gpio_input, gpio_output; cbn [Z.eqb Pos.eqb];
      pins_run;
      (split; [intros p Hp; now rewrite (pin_function_set _ bp t) by lia |]);
      rewrite console_app; cbn; now rewrite app_nil_r.
  - intros H0 H1. unfold gpio_config.
    destruct (Z.eqb_spec mode 0); [contradiction |].
    destruct (Z.eqb_spec mode 1); [contradiction |].
    split; reflexivity.
Qed.

Lemma gpio_config_modes_witness :
  let w := World (ram {[ padd GPSEL 2 := 0x00000249 ]}) (fun _ => 1) [] in
  pin_function (gpio_config 21 0 w).2 21 = 0 /\
  pin_function (gpio_config 21 0 w).2 22 = 1 /\
  trace (gpio_config 21 7 w).2 = [EvPuts "Invalid mode parameter"].
Proof.
  intros w.
  destruct (gpio_config_modes {[ padd GPSEL 2 := 0x00000249 ]} (fun _ => 1) [] 21 0 ltac:(lia))
    as [Hvalid _].
  destruct (Hvalid (or_introl eq_refl)) as [Hpins _].
  destruct (gpio_config_modes {[ padd GPSEL 2 := 0x00000249 ]} (fun _ => 1) [] 21 7 ltac:(lia))
    as [_ Hbad].
  destruct (Hbad ltac:(lia) ltac:(lia)) as [_ Htrace].
  split; [exact (Hpins 21 ltac:(lia)) |].
  split; [exact (Hpins 22 ltac:(lia)) | exact Htrace].
Defined.

Lemma event_enable_pattern (r : reg) (f : Z -> Z -> M sim unit) :
  (forall pin bit,
     f pin bit =
     (if bit =? 1 then setBit r pin ;; ret tt
      else if bit =? 0 then clearBit r pin ;; ret tt
      else puts "invalid bit parameter")) ->
  event_enable_spec f r.
Proof.
  intros Hf m bp t pin bit Hpin w w'. subst w' w. rewrite Hf.
  assert (Hpp : (pin =? pin) = true) by apply Z.eqb_refl.
  destruct (Z.eqb_spec bit 1) as [-> | H1];
    [| destruct (Z.eqb_spec bit 0) as [-> | H0]].
  - ram_run. repeat split; try (intros; exfalso; lia).
    + intros _. peek_top. rewrite testbit_setbit by lia. rewrite Hpp. apply Bool.orb_true_r.
    + intros i Hi Hne. peek_top. rewrite testbit_setbit by lia.
      replace (i =? pin) with false by (symmetry; apply Z.eqb_neq; exact Hne).
      apply Bool.orb_false_r.
    + intros r' Hne. unfold peek. cbn [hw ram cells].
      now rewrite lookup_insert_ne by congruence.
  - ram_run. repeat split; try (intros; exfalso; lia).
    + intros _. peek_top. rewrite testbit_clearbit by lia. rewrite Hpp. apply Bool.andb_false_r.
    + intros i Hi Hne. peek_top. rewrite testbit_clearbit by lia.
      replace (i =? pin) with false by (symmetry; apply Z.eqb_neq; exact Hne).
      apply Bool.andb_true_r.
    + intros r' Hne. unfold peek. cbn [hw ram cells].
      now rewrite lookup_insert_ne by congruence.
  - repeat split; try (intros; exfalso; lia); reflexivity.
Qed.

(** X4.  Each of the six event-enable setters drives its own register:
    high GPHEN, low GPLEN, rising GPREN, falling GPFEN, asynchronous
    rising GPAREN, asynchronous falling GPAFEN.  For a pin 0-31, on a
    register file that is memory, bit 1 sets the pin's bit there, bit 0
    clears it, any other value prints "invalid bit parameter" and changes
    nothing; no other bit of that register and no other register
    changes. *)
Theorem gpio_event_enables_own_register :
  Forall (fun fr => event_enable_spec fr.1 fr.2) event_enables.
Proof.
  unfold event_enables.
  repeat (constructor; [apply event_enable_pattern; reflexivity |]).
  constructor.
Qed.

Lemma gpio_event_enables_own_register_witness :
  let w := World (ram {[ GPFEN := 0x10 ]}) (fun _ => 1) [] in
  Z.testbit (peek GPFEN (gpio_enable_falling_event 7 1 w).2) 7 = true /\
  Z.testbit (peek GPFEN (gpio_enable_falling_event 4 0 w).2) 4 = false /\
  peek GPREN (gpio_enable_falling_event 7 1 w).2 = 0.
Proof.
  intros w.
  pose proof gpio_event_enables_own_register as Hall.
  unfold event_enables in Hall.
  apply Forall_cons in Hall as [_ Hall]. apply Forall_cons in Hall as [_ Hall].
  apply Forall_cons in Hall as [_ Hall]. apply Forall_cons in Hall as [Hfall _].
  cbn [fst snd] in Hfall.
  destruct (Hfall {[ GPFEN := 0x10 ]} (fun _ => 1) [] 7 1 ltac:(lia)) as (Hset & _ & _ & _ & Hfr).
  destruct (Hfall {[ GPFEN := 0x10 ]} (fun _ => 1) [] 4 0 ltac:(lia)) as (_ & Hclr & _).
  split; [exact (Hset eq_refl) |]. split; [exact (Hclr eq_refl) |].
  exact (Hfr GPREN ltac:(discriminate)).
Defined.

(** X5.  [gpio_reset_all_events] for a pin 0-31, on a register file that
    is memory: the pin's bit ends clear in the six event-enable registers
    and set in the event-status register GPEDS; in these seven registers
    no other bit changes, and no other register changes. *)
Theorem gpio_reset_all_events_clears_pin (m : gmap (nat * Z) Z) bp t (pin : Z) :
  0 <= pin < 32 ->
  let w := World (ram m) bp t in
  let w' := (gpio_reset_all_events pin w).2 in
  (forall r, In r [GPREN; GPFEN; GPHEN; GPLEN; GPAREN; GPAFEN] ->
     Z.testbit (peek r w') pin = false) /\
  Z.testbit (peek GPEDS w') pin = true /\
  (forall r i, In r [GPREN; GPFEN; GPHEN; GPLEN; GPAREN; GPAFEN; GPEDS] ->
     0 <= i < 32 -> i <> pin -> Z.testbit (peek r w') i = Z.testbit (peek r w) i) /\
  (forall r, ~ In r [GPREN; GPFEN; GPHEN; GPLEN; GPAREN; GPAFEN; GPEDS] ->
     peek r w' = peek r w).
Proof.
  intros Hpin w w'. subst w' w. unfold gpio_reset_all_events. ram_run.
  rewrite !lookup_insert_ne by (compute; congruence).
  assert (Hpp : (pin =? pin) = true) by apply Z.eqb_refl.
  assert (Hget : forall r v (m' : gmap (nat * Z) Z),
            default 0 (<[r := v]> m' !! r) = v).
  { intros. now rewrite lookup_insert_eq. }
  split; [| split; [| split]].
  - intros r Hr. unfold peek. cbn [hw ram cells].
    cbn [In] in Hr.
    destruct Hr as [<- | [<- | [<- | [<- | [<- | [<- | []]]]]]];
      rewrite ?lookup_insert_ne by (compute; congruence);
      rewrite lookup_insert_eq; cbn [from_option id];
      rewrite testbit_clearbit by lia; rewrite Hpp; apply Bool.andb_false_r.
  - peek_top. rewrite testbit_setbit by lia. rewrite Hpp. apply Bool.orb_true_r.
  - intros r i Hr Hi Hne. unfold peek. cbn [hw ram cells].
    assert (Hip : (i =? pin) = false) by (apply Z.eqb_neq; exact Hne).
    cbn [In] in Hr.
    destruct Hr as [<- | [<- | [<- | [<- | [<- | [<- | [<- | []]]]]]]];
      rewrite ?lookup_insert_ne by (compute; congruence);
      rewrite lookup_insert_eq; cbn [from_option id];
      rewrite ?testbit_clearbit, ?testbit_setbit by lia; rewrite Hip;
      cbn [negb]; rewrite ?Bool.andb_true_r, ?Bool.orb_false_r; reflexivity.
  - intros r Hr. unfold peek. cbn [hw ram cells].
    cbn [In] in Hr.
    rewrite !lookup_insert_ne by (intros <-; apply Hr; tauto).
    reflexivity.
Qed.

Lemma gpio_reset_all_events_clears_pin_witness :
  let w := World (ram {[ GPREN := 0x30; GPLEN := 0x20 ]}) (fun _ => 1) [] in
  let w' := (gpio_reset_all_events 5 w).2 in
  Z.testbit (peek GPREN w') 5 = false /\ Z.testbit (peek GPREN w') 4 = true /\
  Z.testbit (peek GPEDS w') 5 = true.
Proof.
  intros w w'.
  destruct (gpio_reset_all_events_clears_pin {[ GPREN := 0x30; GPLEN := 0x20 ]}
              (fun _ => 1) [] 5 ltac:(lia)) as (Hclr & Heds & Hbits & _).
  split; [apply Hclr; cbn; tauto |].
  split; [| exact Heds].
  subst w' w. rewrite (Hbits GPREN 4) by (cbn; tauto || lia). reflexivity.
Defined.


(** ** Frames on plain memory *)

Lemma load_ram_world (r : reg) (w : world sim) :
  ram_world w ->
  load r w = (peek r w, World (hw w) (base_pointer w) (trace w ++ [EvRead r (peek r w)])).
Proof.
  intros Hw. unfold load, ram_world in *. cbn [dev_read sim_device]. unfold sim_read.
  rewrite Hw, lookup_empty. reflexivity.
Qed.

Lemma peek_store (r r' : reg) (v : Z) (w : world sim) :
  peek r' (store r v w).2 = if decide (r = r') then v else peek r' w.
Proof.
  unfold peek, store. cbn [snd hw dev_write sim_device sim_write cells].
  rewrite lookup_insert. destruct (decide (r = r')); reflexivity.
Qed.

Lemma touches_only_ret {A : Type} (R : reg -> Prop) (a : A) : touches_only R (ret a).
Proof. intros w Hw. auto. Qed.

Lemma touches_only_bind {A B : Type} (R : reg -> Prop) (m : M sim A) (k : A -> M sim B) :
  touches_only R m -> (forall a, touches_only R (k a)) -> touches_only R (bind m k).
Proof.
  intros Hm Hk w Hw. rewrite bind_run.
  destruct (Hm w Hw) as [Hw1 Hf1].
  destruct (Hk (m w).1 (m w).2 Hw1) as [Hw2 Hf2].
  split; [exact Hw2 |]. intros r Hr. now rewrite Hf2, Hf1.
Qed.

Lemma touches_only_load (R : reg -> Prop) (r : reg) : touches_only R (load r).
Proof. intros w Hw. rewrite load_ram_world by exact Hw. auto. Qed.

Lemma touches_only_store (R : reg -> Prop) (r : reg) (v : Z) :
  R r -> touches_only R (store r v).
Proof.
  intros HR w Hw. split; [exact Hw |].
  intros r' Hr'. rewrite peek_store.
  destruct (decide (r = r')) as [<- |]; [contradiction | reflexivity].
Qed.

Lemma touches_only_emit (R : reg -> Prop) (e : event) :
  touches_only R (fun w => (tt, emit e w)).
Proof. intros w Hw. auto. Qed.

Lemma touches_only_if {A : Type} (R : reg -> Prop) (b : bool) (m1 m2 : M sim A) :
  touches_only R m1 -> touches_only R m2 -> touches_only R (if b then m1 else m2).
Proof. now destruct b. Qed.

Lemma touches_only_puts (R : reg -> Prop) (line : string) : touches_only R (puts line).
Proof. apply touches_only_emit. Qed.

Lemma touches_only_uswait (R : reg -> Prop) (us : Z) : touches_only R (uswait us).
Proof. apply touches_only_emit. Qed.

Lemma touches_only_mswait (R : reg -> Prop) (ms : Z) : touches_only R (mswait ms).
Proof. apply touches_only_emit. Qed.

Create HintDb frame.
#[local] Hint Resolve touches_only_ret touches_only_load touches_only_puts
  touches_only_uswait touches_only_mswait : frame.

Ltac frame_tac :=
  repeat first [ solve [ auto with frame ]
               | apply touches_only_store; solve [ auto 10 ]
               | apply touches_only_if
               | apply touches_only_bind; [| intros ? ] ].

Lemma touches_only_setBit (R : reg -> Prop) (r : reg) (p : Z) :
  R r -> touches_only R (setBit r p).
Proof. intros HR. unfold setBit. frame_tac. Qed.

Lemma touches_only_clearBit (R : reg -> Prop) (r : reg) (p : Z) :
  R r -> touches_only R (clearBit r p).
Proof. intros HR. unfold clearBit. frame_tac. Qed.

Lemma touches_only_isBitSet (R : reg -> Prop) (r : reg) (p : Z) :
  touches_only R (isBitSet r p).
Proof. unfold isBitSet. frame_tac. Qed.

Lemma touches_only_reset_status_reg (R : reg -> Prop) :
  R STA -> touches_only R reset_status_reg.
Proof.
  intros HR. unfold reset_status_reg.
  repeat first [ apply touches_only_isBitSet
               | apply touches_only_setBit; exact HR
               | apply touches_only_ret
               | apply touches_only_uswait
               | apply touches_only_if
               | apply touches_only_bind; [| intros ? ] ].
Qed.

(** ** Pulse generator *)

(** X7.  [pwm_set_pin] and [pwm_reset_pin], on a register file that is
    memory.  For the physical pins 12, 32, 33 and 35, [pwm_set_pin]
    returns and gives GPIO 18, 12, 13, 19 the code 2, 4, 4, 2 (alternate
    function 5, 0, 0, 5), every other pin 0-53 keeping its function;
    [pwm_reset_pin] after it returns and makes that GPIO an input again,
    every other pin being as before both calls.  For any other pin both
    print two lines and leave through [exit(1)] without touching a
    register. *)
Theorem pwm_set_reset_pin (m : gmap (nat * Z) Z) bp t (phys : Z) :
  let w := World (ram m) bp t in
  (forall gpio code, In (phys, gpio, code) pwm_pin_table ->
     (pwm_set_pin phys w).1 = Returned tt /\
     (forall p, 0 <= p <= 53 ->
        pin_function (pwm_set_pin phys w).2 p = if p =? gpio then code else pin_function w p) /\
     (pwm_reset_pin phys (pwm_set_pin phys w).2).1 = Returned tt /\
     (forall p, 0 <= p <= 53 ->
        pin_function (pwm_reset_pin phys (pwm_set_pin phys w).2).2 p =
        if p =? gpio then 0 else pin_function w p)) /\
  (phys <> 12 -> phys <> 32 -> phys <> 33 -> phys <> 35 ->
     let lines := [EvPuts "Invalid pin number for PWM.";
                   EvPuts "Choose only from physical layout pins 12, 32, 33 and 35."] in
     pwm_set_pin phys w = (Exited 1, World (ram m) bp (t ++ lines)) /\
     pwm_reset_pin phys w = (Exited 1, World (ram m) bp (t ++ lines))).
Proof.
  intros w. subst w. split.
  - intros gpio code Hin. cbn [In pwm_pin_table] in Hin.
    destruct Hin as [E | [E | [E | [E | []]]]]; injection E as <- <- <-;
      unfold pwm_set_pin, pwm_reset_pin, gpio_input; cbn [Z.eqb Pos.eqb];
      pins_run;
      (split; [reflexivity |]);
      (split; [intros p Hp; rewrite (pin_function_set _ bp t) by lia; reflexivity |]);
      (split; [reflexivity |]);
      intros p Hp;
      rewrite (pin_function_set _ bp t) by lia;
      rewrite (pin_function_set _ bp t) by lia;
      destruct (_ =? _); reflexivity.
  - intros H12 H32 H33 H35 lines. subst lines.
    unfold pwm_set_pin, pwm_reset_pin.
    destruct (Z.eqb_spec phys 12); [contradiction |].
    destruct (Z.eqb_spec phys 32); [contradiction |].
    destruct (Z.eqb_spec phys 33); [contradiction |].
    destruct (Z.eqb_spec phys 35); [contradiction |].
    cbv [bind puts ret emit]. tidy. rewrite <- !app_assoc. split; reflexivity.
Qed.

Lemma pwm_set_reset_pin_witness :
  let w := World (ram {[ padd GPSEL 1 := 0x00000249 ]}) (fun _ => 1) [] in
  pin_function (pwm_set_pin 12 w).2 18 = 2 /\
  pin_function (pwm_reset_pin 12 (pwm_set_pin 12 w).2).2 18 = 0 /\
  pin_function (pwm_reset_pin 12 (pwm_set_pin 12 w).2).2 11 = 1 /\
  (pwm_set_pin 13 w).1 = Exited 1.
Proof.
  intros w.
  destruct (pwm_set_reset_pin {[ padd GPSEL 1 := 0x00000249 ]} (fun _ => 1) [] 12)
    as [Hvalid _].
  destruct (Hvalid 18 2 ltac:(cbn; tauto)) as (_ & Hset & _ & Hreset).
  destruct (pwm_set_reset_pin {[ padd GPSEL 1 := 0x00000249 ]} (fun _ => 1) [] 13)
    as [_ Hbad].
  destruct (Hbad ltac:(lia) ltac:(lia) ltac:(lia) ltac:(lia)) as [Hexit _].
  split; [exact (Hset 18 ltac:(lia)) |].
  split; [exact (Hreset 18 ltac:(lia)) |].
  split; [exact (Hreset 11 ltac:(lia)) |].
  subst w. now rewrite Hexit.
Defined.

(** X8.  [pwm_reset_all_pins], on a register file that is memory: GPIO
    12, 13, 18 and 19 become inputs, every other pin 0-53 keeps its
    function, and no register but the select register of pins 10-19
    changes. *)
Theorem pwm_reset_all_pins_inputs (m : gmap (nat * Z) Z) bp t :
  let w := World (ram m) bp t in
  let w' := (pwm_reset_all_pins w).2 in
  (forall p, 0 <= p <= 53 ->
     pin_function w' p =
     if (p =? 12) || (p =? 13) || (p =? 18) || (p =? 19) then 0 else pin_function w p) /\
  (forall r, r <> padd GPSEL 1 -> peek r w' = peek r w).
Proof.
  intros w w'. subst w' w. unfold pwm_reset_all_pins, gpio_input.
  pins_run. cbv [mswait emit]. tidy. pins_run. cbv [mswait emit]. tidy. pins_run.
  cbv [mswait emit]. tidy. pins_run.
  split.
  - intros p Hp.
    rewrite (pin_function_set _ bp t) by lia. rewrite (pin_function_set _ bp t) by lia.
    rewrite (pin_function_set _ bp t) by lia. rewrite (pin_function_set _ bp t) by lia.
    destruct (p =? 12), (p =? 13), (p =? 18), (p =? 19); reflexivity.
  - intros r Hr. unfold peek. cbn [hw ram cells].
    now rewrite !lookup_insert_ne by exact (fun E => Hr (eq_sym E)).
Qed.

Lemma pwm_reset_all_pins_inputs_witness :
  let w := World (ram {[ padd GPSEL 1 := 0x02012841 ]}) (fun _ => 1) [] in
  pin_function (pwm_reset_all_pins w).2 18 = 0 /\
  pin_function (pwm_reset_all_pins w).2 12 = 0 /\
  pin_function (pwm_reset_all_pins w).2 10 = 1 /\
  peek GPSET (pwm_reset_all_pins w).2 = 0.
Proof.
  intros w.
  destruct (pwm_reset_all_pins_inputs {[ padd GPSEL 1 := 0x02012841 ]} (fun _ => 1) [])
    as [Hpins Hframe].
  split; [exact (Hpins 18 ltac:(lia)) |].
  split; [exact (Hpins 12 ltac:(lia)) |].
  split; [exact (Hpins 10 ltac:(lia)) |].
  exact (Hframe GPSET ltac:(discriminate)).
Defined.

Lemma pwm_reg_ctrl_ram (m : gmap (nat * Z) Z) bp t (k pos : Z) :
  0 <= pos < 32 ->
  let w := World (ram m) bp t in
  let w' := (pwm_reg_ctrl k pos w).2 in
  (k = 1 -> Z.testbit (peek CTL w') pos = true) /\
  (k = 0 -> Z.testbit (peek CTL w') pos = false) /\
  (k <> 0 -> k <> 1 ->
     hw w' = hw w /\
     trace w' = t ++ [EvPuts "Invalid control parameter. Choose 1 or 0 only."; EvWait 10]) /\
  (forall i, 0 <= i < 32 -> i <> pos ->
     Z.testbit (peek CTL w') i = Z.testbit (peek CTL w) i) /\
  (forall r, r <> CTL -> peek r w' = peek r w).
Proof.
  intros Hpos w w'. subst w' w. unfold pwm_reg_ctrl.
  assert (Hpp : (pos =? pos) = true) by apply Z.eqb_refl.
  destruct (Z.eqb_spec k 1) as [-> | H1];
    [| destruct (Z.eqb_spec k 0) as [-> | H0]].
  - ram_run. cbv [uswait emit]. tidy.
    repeat split; try (intros; exfalso; lia).
    + intros _. peek_top. rewrite testbit_setbit by lia. rewrite Hpp. apply Bool.orb_true_r.
    + intros i Hi Hne. peek_top. rewrite testbit_setbit by lia.
      replace (i =? pos) with false by (symmetry; apply Z.eqb_neq; exact Hne).
      apply Bool.orb_false_r.
    + intros r Hne. unfold peek. cbn [hw ram cells].
      now rewrite lookup_insert_ne by congruence.
  - ram_run. cbv [uswait emit]. tidy.
    repeat split; try (intros; exfalso; lia).
    + intros _. peek_top. rewrite testbit_clearbit by lia. rewrite Hpp. apply Bool.andb_false_r.
    + intros i Hi Hne. peek_top. rewrite testbit_clearbit by lia.
      replace (i =? pos) with false by (symmetry; apply Z.eqb_neq; exact Hne).
      apply Bool.andb_true_r.
    + intros r Hne. unfold peek. cbn [hw ram cells].
      now rewrite lookup_insert_ne by congruence.
  - cbv [bind puts uswait emit]. tidy. rewrite <- !app_assoc.
    repeat split; try (intros; exfalso; lia); reflexivity.
Qed.

Lemma pwm_ctl_setter_pattern (f : Z -> Z -> M sim unit) (b : Z) (line : string) :
  0 <= b < 8 ->
  (forall pin n,
     f pin n =
     (if (pin =? 12) || (pin =? 32) then pwm_reg_ctrl (u8 n) (0 + b)
      else if (pin =? 33) || (pin =? 35) then pwm_reg_ctrl (u8 n) (8 + b)
      else puts line)) ->
  pwm_ctl_setter_spec f b line.
Proof.
  intros Hb Hf m bp t pin n w w'. subst w' w. rewrite Hf. unfold pwm_channel_base.
  change (n mod 256) with (u8 n).
  destruct ((pin =? 12) || (pin =? 32)).
  - apply pwm_reg_ctrl_ram. lia.
  - destruct ((pin =? 33) || (pin =? 35)).
    + apply pwm_reg_ctrl_ram. lia.
    + split; reflexivity.
Qed.

(** X9.  The three control setters of the pulse generator, on a register
    file that is memory.  [pwm_enable] drives bit 0, [pwm_set_pola] bit 4
    and [pwm_set_mode] bit 7 of the channel of the pin: channel 1 (pins 12
    and 32) starts at bit 0 of the control register, channel 2 (pins 33
    and 35) at bit 8.  The value counts modulo 256: 1 sets the bit, 0
    clears it (so 256 clears and 257 sets), anything else prints "Invalid
    control parameter. Choose 1 or 0 only." and changes nothing.  No other
    bit and no other register changes.  A pin without a channel only gets
    the setter's own line printed. *)
Theorem pwm_ctl_setters_drive_channel_bit :
  Forall (fun fbl => pwm_ctl_setter_spec fbl.1.1 fbl.1.2 fbl.2) pwm_ctl_setters.
Proof.
  unfold pwm_ctl_setters.
  repeat (constructor; [cbn [fst snd]; apply pwm_ctl_setter_pattern; [lia | reflexivity] |]).
  constructor.
Qed.

Lemma pwm_ctl_setters_drive_channel_bit_witness :
  let w := World (ram {[ CTL := 0x0101 ]}) (fun _ => 1) [] in
  Z.testbit (peek CTL (pwm_enable 33 256 w).2) 8 = false /\
  Z.testbit (peek CTL (pwm_enable 33 256 w).2) 0 = true /\
  Z.testbit (peek CTL (pwm_enable 12 257 w).2) 0 = true.
Proof.
  intros w.
  pose proof pwm_ctl_setters_drive_channel_bit as Hall.
  unfold pwm_ctl_setters in Hall.
  apply Forall_cons in Hall as [Hen _]. cbn [fst snd] in Hen.
  pose proof (Hen {[ CTL := 0x0101 ]} (fun _ => 1) [] 33 256) as H33.
  pose proof (Hen {[ CTL := 0x0101 ]} (fun _ => 1) [] 12 257) as H12.
  cbv zeta in H33, H12. cbn [pwm_channel_base Z.eqb Pos.eqb orb] in H33, H12.
  destruct H33 as (_ & Hclr & _ & Hbits & _). destruct H12 as (Hset & _).
  split; [exact (Hclr eq_refl) |].
  split; [| exact (Hset eq_refl)].
  subst w. rewrite (Hbits 0) by lia. reflexivity.
Defined.

(** X10.  [pwm_set_range] and [pwm_set_data], on a register file that is
    memory: for a pin of channel 1 (12, 32) the value ends in RNG1,
    respectively DAT1, for a pin of channel 2 (33, 35) in RNG2,
    respectively DAT2, and apart from that register only the status
    register STA can change; for any other pin nothing changes and
    "setRange() - invalid pin", respectively "setData() - invalid pin",
    is printed. *)
Theorem pwm_set_range_data_channel (m : gmap (nat * Z) Z) bp t (pin x : Z) :
  let w := World (ram m) bp t in
  match pwm_channel_base pin with
  | Some base =>
      let rng := if base =? 0 then RNG1 else RNG2 in
      let dat := if base =? 0 then DAT1 else DAT2 in
      peek rng (pwm_set_range pin x w).2 = x /\
      (forall r, r <> rng -> r <> STA -> peek r (pwm_set_range pin x w).2 = peek r w) /\
      peek dat (pwm_set_data pin x w).2 = x /\
      (forall r, r <> dat -> r <> STA -> peek r (pwm_set_data pin x w).2 = peek r w)
  | None =>
      pwm_set_range pin x w = (tt, World (ram m) bp (t ++ [EvPuts "setRange() - invalid pin"])) /\
      pwm_set_data pin x w = (tt, World (ram m) bp (t ++ [EvPuts "setData() - invalid pin"]))
  end.
Proof.
  intros w. subst w. unfold pwm_channel_base, pwm_set_range, pwm_set_data.
  assert (Hstore : forall r,
            r <> STA ->
            peek r (bind (store r x) (fun _ => reset_status_reg) (World (ram m) bp t)).2 = x /\
            forall r', r' <> r -> r' <> STA ->
              peek r' (bind (store r x) (fun _ => reset_status_reg) (World (ram m) bp t)).2 =
              peek r' (World (ram m) bp t)).
  { intros r Hr. rewrite bind_run.
    assert (Hram : ram_world (store r x (World (ram m) bp t)).2) by reflexivity.
    destruct (touches_only_reset_status_reg (fun r0 => r0 = STA) eq_refl _ Hram)
      as [_ Hframe].
    split.
    - rewrite Hframe by exact Hr. rewrite peek_store.
      destruct (decide (r = r)); [reflexivity | contradiction].
    - intros r' Hne Hsta. rewrite Hframe by exact Hsta. rewrite peek_store.
      destruct (decide (r = r')) as [E |]; [| reflexivity].
      exfalso. apply Hne. now rewrite E. }
  destruct ((pin =? 12) || (pin =? 32)).
  - cbn [Z.eqb].
    destruct (Hstore RNG1 ltac:(discriminate)) as [Hr Hrf].
    destruct (Hstore DAT1 ltac:(discriminate)) as [Hd Hdf]. auto.
  - destruct ((pin =? 33) || (pin =? 35)).
    + cbn [Z.eqb].
      destruct (Hstore RNG2 ltac:(discriminate)) as [Hr Hrf].
      destruct (Hstore DAT2 ltac:(discriminate)) as [Hd Hdf]. auto.
    + split; reflexivity.
Qed.

Lemma pwm_set_range_data_channel_witness :
  let w := World (ram {[ RNG1 := 32; DAT2 := 7 ]}) (fun _ => 1) [] in
  peek RNG2 (pwm_set_range 33 1024 w).2 = 1024 /\
  peek RNG1 (pwm_set_range 33 1024 w).2 = 32 /\
  peek DAT1 (pwm_set_data 12 512 w).2 = 512 /\
  peek DAT2 (pwm_set_data 12 512 w).2 = 7.
Proof.
  intros w.
  pose proof (pwm_set_range_data_channel {[ RNG1 := 32; DAT2 := 7 ]} (fun _ => 1) [] 33 1024)
    as H33.
  pose proof (pwm_set_range_data_channel {[ RNG1 := 32; DAT2 := 7 ]} (fun _ => 1) [] 12 512)
    as H12.
  cbn in H33, H12.
  destruct H33 as (Hrng & Hrest & _). destruct H12 as (_ & _ & Hdat & Hrest').
  split; [exact Hrng |].
  split; [exact (Hrest RNG1 ltac:(discriminate) ltac:(discriminate)) |].
  split; [exact Hdat |].
  exact (Hrest' DAT2 ltac:(discriminate) ltac:(discriminate)).
Defined.

(** ** Two-wire engine: start, stop, speed *)

Ltac map_lookups :=
  repeat first [ rewrite lookup_insert_eq
               | rewrite lookup_insert_ne by (compute; congruence) ];
  cbn [from_option id].

Ltac not_gpsel :=
  cbv [padd GPSEL BSC_C BSC_S SPI_CS fst snd]; congruence.

(** X11.  [i2c_start], on a register file that is memory.  With the
    window of the controller not mapped it prints its failure line,
    returns 0 and touches no register.  Otherwise it returns 1, pins 2 and
    3 get code 4 (alternate function 0) and every other pin 0-53 keeps its
    function, bit 15 (enable) of the control register is set and its
    other bits are unchanged. *)
Theorem i2c_start_claims_pins (m : gmap (nat * Z) Z) bp t :
  let w := World (ram m) bp t in
  (bp 6%nat = 0 ->
     i2c_start w =
     (0, World (ram m) bp
           (t ++ [EvPuts "i2c init() fail, i2c registers didn't received the correct adresses"]))) /\
  (bp 6%nat <> 0 ->
     (i2c_start w).1 = 1 /\
     (forall p, 0 <= p <= 53 ->
        pin_function (i2c_start w).2 p =
        if (p =? 2) || (p =? 3) then 4 else pin_function w p) /\
     Z.testbit (peek BSC_C (i2c_start w).2) 15 = true /\
     (forall i, 0 <= i < 32 -> i <> 15 ->
        Z.testbit (peek BSC_C (i2c_start w).2) i = Z.testbit (peek BSC_C w) i)).
Proof.
  intros w. subst w. unfold i2c_start, get_base. cbv [bind]. tidy. split.
  - intros ->. reflexivity.
  - intros Hbp. destruct (Z.eqb_spec (bp 6%nat) 0) as [E | _]; [contradiction |].
    pins_run. cbv [mswait emit]. tidy. pins_run.
    rewrite !lookup_insert_ne by (compute; congruence).
    split; [reflexivity |]. split; [| split].
    + intros p Hp.
      rewrite (pin_function_other _ bp t) by not_gpsel.
      rewrite (pin_function_set _ bp t) by lia.
      rewrite (pin_function_set _ bp t) by lia.
      destruct (p =? 2), (p =? 3); reflexivity.
    + peek_top. rewrite testbit_setbit by lia. apply Bool.orb_true_r.
    + intros i Hi Hne. peek_top. rewrite testbit_setbit by lia.
      replace (i =? 15) with false by (symmetry; apply Z.eqb_neq; exact Hne).
      apply Bool.orb_false_r.
Qed.

Lemma i2c_start_claims_pins_witness :
  let w := World (ram {[ padd GPSEL 0 := 0x00000009 ]}) (fun _ => 0x76F04000) [] in
  (i2c_start w).1 = 1 /\
  pin_function (i2c_start w).2 2 = 4 /\ pin_function (i2c_start w).2 1 = 1 /\
  (i2c_start (World (ram ∅) (fun _ => 0) [])).1 = 0.
Proof.
  intros w.
  destruct (i2c_start_claims_pins {[ padd GPSEL 0 := 0x00000009 ]} (fun _ => 0x76F04000) [])
    as [_ Hok].
  destruct (Hok ltac:(discriminate)) as (Hret & Hpins & _).
  destruct (i2c_start_claims_pins ∅ (fun _ => 0) []) as [Hnull _].
  split; [exact Hret |].
  split; [exact (Hpins 2 ltac:(lia)) |].
  split; [exact (Hpins 1 ltac:(lia)) |].
  now rewrite (Hnull eq_refl).
Defined.

(** X12.  [i2c_stop], on a register file that is memory, started or
    not: pins 2 and 3 become inputs and every other pin 0-53 keeps its
    function; in the control register bit 15 (enable) ends clear, bits 4-5
    (clear FIFO) end set and every other bit is unchanged; no register
    other than that one, the status register and the select register of
    pins 0-9 changes. *)
Theorem i2c_stop_releases_pins (m : gmap (nat * Z) Z) bp t :
  let w := World (ram m) bp t in
  let w' := (i2c_stop w).2 in
  (forall p, 0 <= p <= 53 ->
     pin_function w' p = if (p =? 2) || (p =? 3) then 0 else pin_function w p) /\
  Z.testbit (peek BSC_C w') 15 = false /\
  Z.testbit (peek BSC_C w') 4 = true /\ Z.testbit (peek BSC_C w') 5 = true /\
  (forall i, 0 <= i < 32 -> i <> 15 -> i <> 4 -> i <> 5 ->
     Z.testbit (peek BSC_C w') i = Z.testbit (peek BSC_C w) i) /\
  (forall r, r <> BSC_C -> r <> BSC_S -> r <> padd GPSEL 0 -> peek r w' = peek r w).
Proof.
  intros w w'. subst w' w. unfold i2c_stop, reset_error_status. pins_run.
  assert (Hc : forall c i, 0 <= i < 32 ->
            Z.testbit (Z.land (Z.lor (Z.land c (u32 (Z.lnot (Z.shiftl 3 4)))) (Z.shiftl 3 4))
                              (u32 (Z.lnot (u32 (Z.shiftl 1 15))))) i =
            negb (i =? 15) && (Z.testbit c i && negb ((i =? 4) || (i =? 5))
                               || ((i =? 4) || (i =? 5)))).
  { intros c i Hi. rewrite testbit_clearbit by lia.
    rewrite Z.lor_spec, Z.land_spec, testbit_u32, Z.lnot_spec by lia.
    change (Z.shiftl 3 4) with 48.
    replace (i <? 32) with true by (symmetry; apply Z.ltb_lt; lia).
    assert (H48 : Z.testbit 48 i = (i =? 4) || (i =? 5)).
    { destruct (Z.eq_dec i 4) as [-> |]; [reflexivity |].
      destruct (Z.eq_dec i 5) as [-> |]; [reflexivity |].
      replace (i =? 4) with false by (symmetry; apply Z.eqb_neq; assumption).
      replace (i =? 5) with false by (symmetry; apply Z.eqb_neq; assumption).
      destruct (Z.lt_ge_cases i 4).
      - assert (Hi' : i = 0 \/ i = 1 \/ i = 2 \/ i = 3) by lia.
        destruct Hi' as [-> | [-> | [-> | ->]]]; reflexivity.
      - apply (testbit_small 48 6); lia. }
    rewrite H48. apply Bool.andb_comm. }
  split; [| split; [| split; [| split; [| split]]]].
  - intros p Hp.
    rewrite (pin_function_set _ bp t) by lia.
    rewrite (pin_function_set _ bp t) by lia.
    rewrite !(pin_function_other _ bp t) by not_gpsel.
    destruct (p =? 2), (p =? 3); reflexivity.
  - unfold peek. cbn [hw ram cells].
    map_lookups. rewrite Hc by lia. reflexivity.
  - unfold peek. cbn [hw ram cells].
    map_lookups. rewrite Hc by lia. cbn [Z.eqb Pos.eqb negb orb andb].
    apply Bool.orb_true_r.
  - unfold peek. cbn [hw ram cells].
    map_lookups. rewrite Hc by lia. cbn [Z.eqb Pos.eqb negb orb andb].
    apply Bool.orb_true_r.
  - intros i Hi H15 H4 H5. unfold peek. cbn [hw ram cells].
    map_lookups. rewrite Hc by lia.
    replace (i =? 15) with false by (symmetry; apply Z.eqb_neq; assumption).
    replace (i =? 4) with false by (symmetry; apply Z.eqb_neq; assumption).
    replace (i =? 5) with false by (symmetry; apply Z.eqb_neq; assumption).
    cbn [negb orb andb]. now rewrite Bool.andb_true_r, Bool.orb_false_r.
  - intros r Hc' Hs Hg. unfold peek. cbn [hw ram cells].
    rewrite !lookup_insert_ne; try reflexivity;
      try exact (fun E => Hc' (eq_sym E)); try exact (fun E => Hs (eq_sym E));
      intros E; apply Hg; rewrite <- E; reflexivity.
Qed.

Lemma i2c_stop_releases_pins_witness :
  let w := World (ram {[ padd GPSEL 0 := 0x00004909; BSC_C := 0x8080 ]}) (fun _ => 1) [] in
  pin_function (i2c_stop w).2 2 = 0 /\ pin_function (i2c_stop w).2 3 = 0 /\
  pin_function (i2c_stop w).2 1 = 1 /\
  Z.testbit (peek BSC_C (i2c_stop w).2) 15 = false /\
  Z.testbit (peek BSC_C (i2c_stop w).2) 7 = true.
Proof.
  intros w.
  destruct (i2c_stop_releases_pins {[ padd GPSEL 0 := 0x00004909; BSC_C := 0x8080 ]}
              (fun _ => 1) [])
    as (Hpins & Hen & _ & _ & Hbits & _).
  split; [exact (Hpins 2 ltac:(lia)) |].
  split; [exact (Hpins 3 ltac:(lia)) |].
  split; [exact (Hpins 1 ltac:(lia)) |].
  split; [exact Hen |].
  exact (Hbits 7 ltac:(lia) ltac:(lia) ltac:(lia) ltac:(lia)).
Defined.

Lemma touches_only_set_clock_delay (FEDL REDL : Z) :
  touches_only (fun r => r = BSC_DEL) (set_clock_delay FEDL REDL).
Proof. unfold set_clock_delay. frame_tac. Qed.

(** The delay step never stores to the divider register. *)
Lemma i2c_set_clock_freq_div (m : gmap (nat * Z) Z) bp t (divider : Z) :
  peek BSC_DIV (i2c_set_clock_freq divider (World (ram m) bp t)).2 = divider.
Proof.
  unfold i2c_set_clock_freq. rewrite !bind_run. cbv [ret]. cbn [snd].
  assert (Hram : ram_world (store BSC_DIV divider (World (ram m) bp t)).2) by reflexivity.
  destruct (touches_only_set_clock_delay 1 1 _ Hram) as [_ Hframe].
  rewrite Hframe by discriminate. rewrite peek_store.
  destruct (decide (BSC_DIV = BSC_DIV)); [reflexivity | contradiction].
Qed.

(** X13.  [i2c_set_clock_freq] for a 16-bit divider, on a register file
    that is memory: the divider register holds the divider; when the
    divider is at least 4 the delay register ends as 0x10001 (one core
    clock of falling-edge delay in the high half, one of rising-edge delay
    in the low half) and nothing is printed; when it is below 4 the delay
    register keeps its value and "clock delays should be below cdiv/2" is
    printed.  No other register changes. *)
Theorem i2c_set_clock_freq_delays (m : gmap (nat * Z) Z) bp t (divider : Z) :
  0 <= divider < 65536 ->
  let w := World (ram m) bp t in
  let w' := (i2c_set_clock_freq divider w).2 in
  peek BSC_DIV w' = divider /\
  (4 <= divider -> peek BSC_DEL w' = 0x10001 /\ console (trace w') = console t) /\
  (divider < 4 ->
     peek BSC_DEL w' = peek BSC_DEL w /\
     console (trace w') = console t ++ ["clock delays should be below cdiv/2"%string]) /\
  (forall r, r <> BSC_DIV -> r <> BSC_DEL -> peek r w' = peek r w).
Proof.
  intros Hd w w'. subst w' w. unfold i2c_set_clock_freq, set_clock_delay.
  cbv [bind ret]. tidy. rewrite store_ram. tidy. rewrite load_ram. tidy.
  rewrite lookup_insert_eq. cbn [from_option id].
  change (2 ^ 16) with 65536. rewrite (Z.mod_small divider 65536) by lia.
  destruct (Z.ltb_spec 1 (divider / 2)) as [Hbig | Hsmall].
  - rewrite load_ram. tidy. rewrite lookup_insert_eq. cbn [from_option id].
    rewrite (Z.mod_small divider 65536) by lia.
    destruct (Z.ltb_spec 1 (divider / 2)) as [_ | Habs]; [| lia].
    rewrite store_ram. tidy. rewrite load_ram. tidy.
    unfold peek. cbn [hw ram cells].
    split; [now rewrite lookup_insert_ne, lookup_insert_eq by discriminate |].
    split; [| split].
    + intros _. rewrite lookup_insert_eq. split; [reflexivity |].
      rewrite !console_app. cbn. now rewrite !app_nil_r.
    + intros Hlt. exfalso. Z.div_mod_to_equations. lia.
    + intros r Hv Hl. now rewrite !lookup_insert_ne by congruence.
  - cbv [puts emit]. tidy. rewrite load_ram. tidy.
    unfold peek. cbn [hw ram cells].
    split; [now rewrite lookup_insert_eq |].
    split; [| split].
    + intros Hge. exfalso. Z.div_mod_to_equations. lia.
    + intros _. split; [now rewrite lookup_insert_ne by discriminate |].
      rewrite !console_app. cbn. now rewrite !app_nil_r.
    + intros r Hv Hl. now rewrite !lookup_insert_ne by congruence.
Qed.

Lemma i2c_set_clock_freq_delays_witness :
  let w := World (ram {[ BSC_DEL := 0x300030 ]}) (fun _ => 1) [] in
  peek BSC_DIV (i2c_set_clock_freq 2500 w).2 = 2500 /\
  peek BSC_DEL (i2c_set_clock_freq 2500 w).2 = 0x10001 /\
  peek BSC_DEL (i2c_set_clock_freq 3 w).2 = 0x300030.
Proof.
  intros w.
  destruct (i2c_set_clock_freq_delays {[ BSC_DEL := 0x300030 ]} (fun _ => 1) [] 2500 ltac:(lia))
    as (Hdiv & Hbig & _).
  destruct (i2c_set_clock_freq_delays {[ BSC_DEL := 0x300030 ]} (fun _ => 1) [] 3 ltac:(lia))
    as (_ & _ & Hsmall & _).
  split; [exact Hdiv |].
  split; [exact (proj1 (Hbig ltac:(lia))) | exact (proj1 (Hsmall ltac:(lia)))].
Defined.

(** X14.  [i2c_data_transfer_speed] for a baud rate above 0, on a
    register file that is memory, with the system clock of the file's
    global: the divider register ends as the quotient of the system clock
    by the baud rate cut to 16 bits.  It is the quotient itself exactly
    when the quotient is below 65536; for a slower baud rate the divider
    programmed is the quotient modulo 65536. *)
Theorem i2c_data_transfer_speed_divider (m : gmap (nat * Z) Z) bp t (system_clock baud : Z) :
  0 < baud -> 0 <= system_clock < 2 ^ 32 ->
  let w := World (ram m) bp t in
  let w' := (i2c_data_transfer_speed system_clock baud w).2 in
  peek BSC_DIV w' = (system_clock / baud) mod 65536 /\
  (peek BSC_DIV w' = system_clock / baud <-> system_clock / baud < 65536).
Proof.
  intros Hbaud Hclk w w'.
  assert (Hq : 0 <= system_clock / baud < 2 ^ 32).
  { split; [apply Z.div_pos; lia |].
    apply Z.le_lt_trans with system_clock; [| lia].
    apply Z.div_le_upper_bound; nia. }
  assert (Hmod : 0 <= (system_clock / baud) mod 65536 < 65536)
    by (apply Z.mod_pos_bound; lia).
  assert (Hdiv : peek BSC_DIV w' = (system_clock / baud) mod 65536).
  { subst w' w. unfold i2c_data_transfer_speed.
    unfold u32. rewrite (Z.mod_small (system_clock / baud)) by exact Hq.
    change (2 ^ 16) with 65536.
    apply i2c_set_clock_freq_div. }
  split; [exact Hdiv |]. rewrite Hdiv. split.
  - intros E. rewrite <- E. lia.
  - intros Hlt. apply Z.mod_small. lia.
Qed.

Lemma i2c_data_transfer_speed_divider_witness :
  let w := World (ram ∅) (fun _ => 1) [] in
  peek BSC_DIV (i2c_data_transfer_speed 250000000 100000 w).2 = 2500 /\
  peek BSC_DIV (i2c_data_transfer_speed 250000000 3814 w).2 = 11 /\
  250000000 / 3814 = 65547.
Proof.
  intros w.
  destruct (i2c_data_transfer_speed_divider ∅ (fun _ => 1) [] 250000000 100000
              ltac:(lia) ltac:(lia)) as [Hfast _].
  destruct (i2c_data_transfer_speed_divider ∅ (fun _ => 1) [] 250000000 3814
              ltac:(lia) ltac:(lia)) as [Hslow _].
  split; [exact Hfast |]. split; [exact Hslow | reflexivity].
Defined.

(** ** Timed waits *)

(** X15.  The time each wait asks [nanosleep] for.  [mswait] asks for
    exactly its argument in milliseconds, with a nanosecond field below
    one second.  [uswait] asks for its argument in microseconds exactly
    when the argument is below 1000, and [nswait] for its argument in
    nanoseconds exactly when the argument is below 1000000: above that,
    each whole thousand microseconds, respectively million nanoseconds,
    is passed as a whole second. *)
Theorem wait_timespecs (x : Z) :
  0 <= x ->
  (timespec_ns (mswait_timespec x) = x * 1000000 /\
   0 <= (mswait_timespec x).2 < 1000000000) /\
  (timespec_ns (uswait_timespec x) = x * 1000 <-> x < 1000) /\
  (timespec_ns (nswait_timespec x) = x <-> x < 1000000) /\
  timespec_ns (uswait_timespec x) = (x / 1000) * 1000000000 + (x mod 1000) * 1000 /\
  timespec_ns (nswait_timespec x) = (x / 1000000) * 1000000000 + x mod 1000000.
Proof.
  intros Hx. unfold timespec_ns, mswait_timespec, uswait_timespec, nswait_timespec.
  cbn [fst snd].
  pose proof (Z.div_mod x 1000 ltac:(lia)) as E3.
  pose proof (Z.mod_pos_bound x 1000 ltac:(lia)) as B3.
  pose proof (Z.div_mod x 1000000 ltac:(lia)) as E6.
  pose proof (Z.mod_pos_bound x 1000000 ltac:(lia)) as B6.
  assert (Q3 : 0 <= x / 1000) by (apply Z.div_pos; lia).
  assert (Q6 : 0 <= x / 1000000) by (apply Z.div_pos; lia).
  repeat split; lia.
Qed.

Lemma wait_timespecs_witness :
  timespec_ns (mswait_timespec 1500) = 1500000000 /\
  timespec_ns (uswait_timespec 150) = 150000 /\
  timespec_ns (uswait_timespec 1500) = 1000500000.
Proof.
  destruct (wait_timespecs 1500 ltac:(lia)) as ((Hms & _) & _ & _ & Hus & _).
  destruct (wait_timespecs 150 ltac:(lia)) as (_ & Hus150 & _).
  split; [exact Hms |]. split; [| exact Hus].
  apply Hus150. lia.
Defined.

(** ** Four-wire engine: pins and chip select *)

(** X16.  The pins of the four-wire engine, on a register file that is
    memory.  [spi_start] with the SPI window mapped gives pins 7, 8, 9, 10
    and 11 the code 4 (alternate function 0); with the window not mapped
    it prints its failure line, returns 0 and touches no register.
    [spi_stop] makes the same five pins inputs.  In both, every other pin
    0-53 keeps its function. *)
Theorem spi_start_stop_pins (m : gmap (nat * Z) Z) bp t :
  let w := World (ram m) bp t in
  let spi_pin p := (p =? 7) || (p =? 8) || (p =? 9) || (p =? 10) || (p =? 11) in
  (bp 4%nat <> 0 ->
     forall p, 0 <= p <= 53 ->
       pin_function (spi_start w).2 p = if spi_pin p then 4 else pin_function w p) /\
  (bp 4%nat = 0 ->
     spi_start w =
     (0, World (ram m) bp
           (t ++ [EvPuts "spi init() fail, spi registers didn't received the correct adresses"]))) /\
  (forall p, 0 <= p <= 53 ->
     pin_function (spi_stop w).2 p = if spi_pin p then 0 else pin_function w p).
Proof.
  intros w spi_pin. subst w spi_pin. cbv beta. split; [| split].
  - intros Hbp p Hp. unfold spi_start, get_base. cbv [bind]. tidy.
    destruct (Z.eqb_spec (bp 4%nat) 0) as [E | _]; [contradiction |].
    pins_run. cbv [mswait emit]. tidy. pins_run.
    rewrite !(pin_function_other _ bp t) by not_gpsel.
    do 5 rewrite (pin_function_set _ bp t) by lia.
    destruct (p =? 7), (p =? 8), (p =? 9), (p =? 10), (p =? 11); reflexivity.
  - intros E. unfold spi_start, get_base. cbv [bind]. tidy. rewrite E. reflexivity.
  - intros p Hp. unfold spi_stop. pins_run.
    do 5 rewrite (pin_function_set _ bp t) by lia.
    rewrite !(pin_function_other _ bp t) by not_gpsel.
    destruct (p =? 7), (p =? 8), (p =? 9), (p =? 10), (p =? 11); reflexivity.
Qed.

Lemma spi_start_stop_pins_witness :
  let w := World (ram {[ padd GPSEL 1 := 0x00000048 ]}) (fun _ => 1) [] in
  pin_function (spi_start w).2 10 = 4 /\ pin_function (spi_start w).2 12 = 1 /\
  pin_function (spi_stop w).2 11 = 0.
Proof.
  intros w.
  destruct (spi_start_stop_pins {[ padd GPSEL 1 := 0x00000048 ]} (fun _ => 1) [])
    as (Hstart & _ & Hstop).
  split; [exact (Hstart ltac:(discriminate) 10 ltac:(lia)) |].
  split; [exact (Hstart ltac:(discriminate) 12 ltac:(lia)) |].
  exact (Hstop 11 ltac:(lia)).
Defined.

(** X17.  [spi_chip_select] for a [uint8_t] value, on a register file
    that is memory: bits 0-1 of the control register become bits 0-1 of
    the value, and every higher bit of the value is ORed into the bit of
    the same position.  So for 0-3 the chip-select field decodes to the
    value and no other bit changes, while a value above 3 is not rejected
    and also sets control bits outside the field.  No other register
    changes. *)
Theorem spi_chip_select_field (m : gmap (nat * Z) Z) bp t (cs : Z) :
  0 <= cs < 256 ->
  let w := World (ram m) bp t in
  let w' := (spi_chip_select cs w).2 in
  (forall i, 0 <= i < 32 ->
     Z.testbit (peek SPI_CS w') i =
     if i <? 2 then Z.testbit cs i else Z.testbit (peek SPI_CS w) i || Z.testbit cs i) /\
  (cs <= 3 ->
     spi_cs_field (peek SPI_CS w') = cs /\
     forall i, 2 <= i < 32 -> Z.testbit (peek SPI_CS w') i = Z.testbit (peek SPI_CS w) i) /\
  (forall r, r <> SPI_CS -> peek r w' = peek r w).
Proof.
  intros Hcs w w'. subst w' w. unfold spi_chip_select. ram_run.
  rewrite lookup_insert_eq, insert_insert_eq. cbn [from_option id].
  change (Z.shiftl cs 0) with cs. change (Z.shiftl 3 0) with 3.
  unfold peek. cbn [hw ram cells]. rewrite lookup_insert_eq. cbn [from_option id].
  set (v := default 0 (m !! SPI_CS)).
  assert (H3 : forall i, 0 <= i -> Z.testbit 3 i = (i <? 2)).
  { intros i Hi. change 3 with (Z.ones 2).
    destruct (Z.ltb_spec i 2); [apply Z.ones_spec_low | apply Z.ones_spec_high]; lia. }
  assert (Hbits : forall i, 0 <= i < 32 ->
            Z.testbit (Z.lor (Z.land v (u32 (Z.lnot 3))) cs) i =
            if i <? 2 then Z.testbit cs i else Z.testbit v i || Z.testbit cs i).
  { intros i Hi.
    rewrite Z.lor_spec, Z.land_spec, testbit_u32, Z.lnot_spec, H3 by lia.
    replace (i <? 32) with true by (symmetry; apply Z.ltb_lt; lia).
    destruct (i <? 2); cbn [negb andb]; [now rewrite Bool.andb_false_r |].
    now rewrite Bool.andb_true_r. }
  split; [exact Hbits |]. split.
  - intros Hle. split.
    + unfold spi_cs_field. apply Z.bits_inj'. intros i Hi.
      rewrite Z.land_spec, H3 by lia.
      destruct (Z.ltb_spec i 2).
      * rewrite Hbits by lia. replace (i <? 2) with true by (symmetry; apply Z.ltb_lt; lia).
        apply Bool.andb_true_r.
      * rewrite Bool.andb_false_r. symmetry. apply (testbit_small cs 2); lia.
    + intros i Hi. rewrite Hbits by lia.
      replace (i <? 2) with false by (symmetry; apply Z.ltb_ge; lia).
      rewrite (testbit_small cs 2 i) by lia. apply Bool.orb_false_r.
  - intros r Hr. now rewrite lookup_insert_ne by congruence.
Qed.

Lemma spi_chip_select_field_witness :
  let w := World (ram {[ SPI_CS := 0x00000083 ]}) (fun _ => 1) [] in
  spi_cs_field (peek SPI_CS (spi_chip_select 1 w).2) = 1 /\
  Z.testbit (peek SPI_CS (spi_chip_select 1 w).2) 7 = true /\
  Z.testbit (peek SPI_CS (spi_chip_select 4 w).2) 2 = true.
Proof.
  intros w.
  destruct (spi_chip_select_field {[ SPI_CS := 0x00000083 ]} (fun _ => 1) [] 1 ltac:(lia))
    as (_ & Hvalid & _).
  destruct (Hvalid ltac:(lia)) as [Hfield Hrest].
  destruct (spi_chip_select_field {[ SPI_CS := 0x00000083 ]} (fun _ => 1) [] 4 ltac:(lia))
    as (Hbits & _).
  split; [exact Hfield |].
  split; [subst w; rewrite (Hrest 7) by lia; reflexivity |].
  subst w. rewrite (Hbits 2) by lia. reflexivity.
Defined.

(** ** Clock divider: a valid divisor *)

Lemma div_word_decodes (div : Z) :
  0 < div < 4096 ->
  div_divi (Z.lor 0x5A000000 (u32 (Z.shiftl div 12))) = div /\
  div_passwd (Z.lor 0x5A000000 (u32 (Z.shiftl div 12))) = 0x5A.
Proof.
  intros Hdiv.
  assert (Hx : u32 (Z.shiftl div 12) = div * 4096).
  { unfold u32. rewrite Z.shiftl_mul_pow2 by lia. change (2 ^ 12) with 4096.
    apply Z.mod_small. lia. }
  rewrite Hx. unfold div_divi, div_passwd. split.
  - apply Z.bits_inj'. intros i Hi.
    rewrite Z.land_spec, Z.shiftr_spec, Z.lor_spec by lia.
    change 0xFFF with (Z.ones 12).
    destruct (Z.lt_ge_cases i 12).
    + rewrite Z.ones_spec_low by lia.
      change 0x5A000000 with (Z.shiftl 0x5A 24).
      rewrite Z.shiftl_spec_low by lia.
      replace (div * 4096) with (Z.shiftl div 12)
        by (rewrite Z.shiftl_mul_pow2 by lia; reflexivity).
      rewrite Z.shiftl_spec by lia. cbn [orb]. rewrite Bool.andb_true_r.
      f_equal. lia.
    + rewrite Z.ones_spec_high by lia. rewrite Bool.andb_false_r.
      symmetry. apply (testbit_small div 12); lia.
  - rewrite Z.shiftr_lor.
    replace (Z.shiftr (div * 4096) 24) with 0.
    + reflexivity.
    + symmetry. rewrite Z.shiftr_div_pow2 by lia. apply Z.div_small. lia.
Qed.

Lemma get_clk_src_ram (m : gmap (nat * Z) Z) bp t :
  get_clk_src (World (ram m) bp t) =
  (clk_src_field (default 0 (m !! GPCTL)),
   World (ram m) bp (t ++ [EvRead GPCTL (default 0 (m !! GPCTL))])).
Proof. rewrite get_clk_src_load. now rewrite load_ram. Qed.

Lemma uswait_ram (us : Z) (m : gmap (nat * Z) Z) bp t :
  uswait us (World (ram m) bp t) = (tt, World (ram m) bp (t ++ [EvWait us])).
Proof. reflexivity. Qed.

(** Runs the clock sequence on a register file that is memory, up to the
    next test of a value that is not known. *)
Ltac clock_run :=
  tidy;
  repeat (first [ rewrite clearBit_ram | rewrite store_ram | rewrite get_clk_src_ram
                | rewrite isBitSet_ram by lia | rewrite uswait_ram ];
          tidy; map_lookups;
          repeat match goal with
                 | |- context [clk_src_field (Zpos ?p) =? ?c] =>
                     let b := eval vm_compute in (clk_src_field (Zpos p) =? c) in
                     change (clk_src_field (Zpos p) =? c) with b
                 | |- context [Z.testbit (Zpos ?p) 7] =>
                     let b := eval vm_compute in (Z.testbit (Zpos p) 7) in
                     change (Z.testbit (Zpos p) 7) with b
                 end;
          tidy).

(** X18.  [pwm_set_clock_freq] for a divisor in (0, 4096), on a register
    file that is memory, whatever the clock and the pulse generator held:
    the divider register ends as the password 0x5A in its top byte and the
    divisor in bits 12-23, the clock control register ends as 0x5A000011
    (oscillator source, enabled), the result is 1, and the two channel
    enable bits (0 and 8) of the pulse generator's control register end
    clear: the function disables both channels and does not enable them
    again. *)
Theorem pwm_set_clock_freq_valid_div (m : gmap (nat * Z) Z) bp t (div : Z) :
  0 < div < 4096 ->
  let w := World (ram m) bp t in
  let w' := (pwm_set_clock_freq div w).2 in
  (pwm_set_clock_freq div w).1 = OSC /\
  div_divi (peek GPDIV w') = div /\ div_passwd (peek GPDIV w') = 0x5A /\
  peek GPCTL w' = 0x5A000011 /\
  Z.testbit (peek CTL w') 0 = false /\ Z.testbit (peek CTL w') 8 = false.
Proof.
  intros Hdiv w w'.
  assert (Hguard : (0 <? div) && (div <? 4096) = true).
  { destruct (Z.ltb_spec 0 div); destruct (Z.ltb_spec div 4096); simpl; try reflexivity; lia. }
  destruct (div_word_decodes div Hdiv) as [Hdivi Hpass].
  assert (Hrun : (pwm_set_clock_freq div w).1 = OSC /\
                 peek GPDIV w' = Z.lor 0x5A000000 (u32 (Z.shiftl div 12)) /\
                 peek GPCTL w' = 0x5A000011 /\
                 peek CTL w' =
                 Z.land (Z.land (peek CTL w) (u32 (Z.lnot (u32 (Z.shiftl 1 0)))))
                        (u32 (Z.lnot (u32 (Z.shiftl 1 8))))).
  { subst w' w. unfold pwm_set_clock_freq. rewrite Hguard.
    unfold set_clock_div. cbv [bind ret]. clock_run.
    assert (Hctl : peek CTL (World (ram m) bp t) = default 0 (m !! CTL)) by reflexivity.
    rewrite Hctl.
    destruct (clk_src_field (default 0 (m !! GPCTL)) =? OSC); clock_run.
    - unfold peek. cbn [hw ram cells]. map_lookups. repeat split; reflexivity.
    - destruct (clk_src_field (default 0 (m !! GPCTL)) =? PLLD); clock_run.
      + unfold peek. cbn [hw ram cells]. map_lookups. repeat split; reflexivity.
      + destruct (Z.testbit (default 0 (m !! GPCTL)) 7) eqn:Hbusy; clock_run.
        * unfold peek. cbn [hw ram cells]. map_lookups. repeat split; reflexivity.
        * rewrite ?Hbusy. clock_run.
          unfold peek. cbn [hw ram cells]. map_lookups. repeat split; reflexivity. }
  destruct Hrun as (Hret & Hd & Hc & Hp).
  split; [exact Hret |].
  rewrite Hd, Hc, Hp.
  split; [exact Hdivi |]. split; [exact Hpass |]. split; [reflexivity |].
  split.
  - rewrite testbit_clearbit by lia. rewrite testbit_clearbit by lia.
    cbn [Z.eqb negb]. now rewrite Bool.andb_false_r.
  - rewrite testbit_clearbit by lia. apply Bool.andb_false_r.
Qed.

Lemma pwm_set_clock_freq_valid_div_witness :
  let w := World (ram {[ GPCTL := 0x96; CTL := 0x8181 ]}) (fun _ => 1) [] in
  let w' := (pwm_set_clock_freq 192 w).2 in
  div_divi (peek GPDIV w') = 192 /\ peek GPCTL w' = 0x5A000011 /\
  Z.testbit (peek CTL w') 0 = false.
Proof.
  intros w w'.
  destruct (pwm_set_clock_freq_valid_div {[ GPCTL := 0x96; CTL := 0x8181 ]} (fun _ => 1) []
              192 ltac:(lia)) as (_ & Hdivi & _ & Hctl & Hen & _).
  split; [exact Hdivi |]. split; [exact Hctl | exact Hen].
Defined.

(** ** Four-wire engine: transfers *)

Lemma reads_from_app (r : reg) (t1 t2 : list event) :
  reads_from r (t1 ++ t2) = reads_from r t1 ++ reads_from r t2.
Proof. apply omap_app. Qed.

Lemma fifo_free_app (fifo : reg) (e1 e2 : list event) :
  fifo_free fifo e1 -> fifo_free fifo e2 -> fifo_free fifo (e1 ++ e2).
Proof.
  intros [Hw1 Hr1] [Hw2 Hr2]. unfold fifo_free.
  now rewrite writes_to_app, reads_from_app, Hw1, Hw2, Hr1, Hr2.
Qed.

Lemma bytes_from_cons (buf : list Z) (i n : nat) :
  bytes_from buf i (S n) = nth i buf 0 :: bytes_from buf (S i) n.
Proof. reflexivity. Qed.

Lemma bytes_from_app (buf : list Z) (i n k : nat) :
  bytes_from buf i (n + k) = bytes_from buf i n ++ bytes_from buf (i + n) k.
Proof.
  unfold bytes_from. now rewrite seq_app, map_app.
Qed.

Lemma bytes_from_take (buf : list Z) (n : nat) :
  (n <= length buf)%nat -> bytes_from buf 0 n = take n buf.
Proof.
  revert buf. unfold bytes_from.
  induction n as [| n IH]; intros buf Hn; [reflexivity |].
  destruct buf as [| b buf]; [simpl in Hn; lia |].
  cbn [seq map nth take]. f_equal.
  rewrite <- seq_shift, map_map. cbn [nth].
  apply IH. simpl in Hn. lia.
Qed.

Section Transfers.
Context {D : Type} `{Device D}.

Lemma isBitSet_trace (r : reg) (p : Z) (w : world D) :
  exists v, trace (isBitSet r p w).2 = trace w ++ [EvRead r v].
Proof.
  unfold isBitSet, bind, ret, load.
  destruct (dev_read r (hw w)) as [v d]. now exists v.
Qed.

(** The transmit loop, for a counter that does not wrap up to [len]. *)
Lemma spi_tx_fill_spec (wrap : Z -> Z) (wbuf : list Z) (len : Z) :
  (forall x, 0 <= x <= len -> wrap x = x) ->
  forall (fuel : nat) (i : Z) (w : world D) (i' : Z) (w' : world D),
    0 <= i <= len ->
    spi_tx_fill wrap fuel wbuf len i w = Some (i', w') ->
    i <= i' <= len /\
    exists evs, trace w' = trace w ++ evs /\
      writes_to SPI_FIFO evs = bytes_from wbuf (Z.to_nat i) (Z.to_nat (i' - i)) /\
      reads_from SPI_FIFO evs = [].
Proof.
  intros Hwrap. induction fuel as [| n IH]; intros i w i' w' Hi Hrun; [discriminate |].
  cbn [spi_tx_fill] in Hrun.
  destruct (isBitSet_trace SPI_CS 18 w) as [v Hv].
  destruct (isBitSet SPI_CS 18 w) as [b w1]. cbn [snd] in Hv.
  destruct (b && (i <? len)) eqn:Hgo.
  - apply andb_true_iff in Hgo as [_ Hlt]. apply Z.ltb_lt in Hlt.
    assert (Hst : trace (store SPI_FIFO (nth (Z.to_nat i) wbuf 0) w1).2 =
                  trace w1 ++ [EvWrite SPI_FIFO (nth (Z.to_nat i) wbuf 0)]) by reflexivity.
    destruct (store SPI_FIFO (nth (Z.to_nat i) wbuf 0) w1) as [u w2]. cbn [snd] in Hst.
    rewrite Hwrap in Hrun by lia.
    apply IH in Hrun as (Hb & evs & Ht & Hw & Hr); [| lia].
    split; [lia |].
    exists ([EvRead SPI_CS v] ++ [EvWrite SPI_FIFO (nth (Z.to_nat i) wbuf 0)] ++ evs).
    split; [rewrite Ht, Hst, Hv, <- !app_assoc; reflexivity |].
    split.
    + rewrite !writes_to_app, Hw. cbn [app].
      change (writes_to SPI_FIFO [EvRead SPI_CS v]) with (@nil Z).
      rewrite writes_to_self. cbn [app writes_to omap list_omap].
      replace (Z.to_nat (i' - i)) with (S (Z.to_nat (i' - (i + 1)))) by lia.
      rewrite bytes_from_cons. f_equal. f_equal. lia.
    + rewrite !reads_from_app, Hr. reflexivity.
  - injection Hrun as <- <-. split; [lia |].
    exists [EvRead SPI_CS v]. split; [exact Hv |].
    rewrite Z.sub_diag. split; reflexivity.
Qed.

Lemma spi_tx_loop_spec (wrap : Z -> Z) (wbuf : list Z) (len : Z) (inner : nat) :
  (forall x, 0 <= x <= len -> wrap x = x) ->
  forall (fuel : nat) (i : Z) (w : world D) (i' : Z) (w' : world D),
    0 <= i <= len ->
    spi_tx_loop wrap inner fuel wbuf len i w = Some (i', w') ->
    i' = len /\
    exists evs, trace w' = trace w ++ evs /\
      writes_to SPI_FIFO evs = bytes_from wbuf (Z.to_nat i) (Z.to_nat (len - i)) /\
      reads_from SPI_FIFO evs = [].
Proof.
  intros Hwrap. induction fuel as [| n IH]; intros i w i' w' Hi Hrun; [discriminate |].
  cbn [spi_tx_loop] in Hrun.
  destruct (Z.ltb_spec i len) as [Hlt | Hge].
  - destruct (spi_tx_fill wrap inner wbuf len i w) as [[i1 w1] |] eqn:Hfill; [| discriminate].
    apply (spi_tx_fill_spec wrap wbuf len Hwrap) in Hfill
      as (Hb & e1 & Ht1 & Hw1 & Hr1); [| lia].
    apply IH in Hrun as (-> & e2 & Ht2 & Hw2 & Hr2); [| lia].
    split; [reflexivity |].
    exists (e1 ++ e2). split; [rewrite Ht2, Ht1, app_assoc; reflexivity |].
    split.
    + rewrite writes_to_app, Hw1, Hw2.
      replace (Z.to_nat (len - i)) with (Z.to_nat (i1 - i) + Z.to_nat (len - i1))%nat by lia.
      rewrite bytes_from_app. f_equal. f_equal. lia.
    + now rewrite reads_from_app, Hr1, Hr2.
  - injection Hrun as <- <-. split; [lia |].
    exists []. rewrite app_nil_r. replace (len - i) with 0 by lia.
    split; [reflexivity |]. split; reflexivity.
Qed.

(** The receive loop: the bytes taken from the FIFO land at indices
    [i], [i+1], ... of the buffer, cut to 8 bits, and nothing else of the
    buffer changes. *)
Lemma spi_rx_drain_spec (wrap : Z -> Z) (len : Z) :
  (forall x, 0 <= x <= len -> wrap x = x) ->
  forall (fuel : nat) (rbuf : list Z) (i : Z) (w : world D)
         (rbuf' : list Z) (i' : Z) (w' : world D),
    0 <= i <= len -> (Z.to_nat len <= length rbuf)%nat ->
    spi_rx_drain wrap fuel len rbuf i w = Some ((rbuf', i'), w') ->
    i <= i' <= len /\ length rbuf' = length rbuf /\
    exists evs, trace w' = trace w ++ evs /\
      writes_to SPI_FIFO evs = [] /\
      length (reads_from SPI_FIFO evs) = Z.to_nat (i' - i) /\
      forall k : nat,
        rbuf' !! k =
        if decide (Z.to_nat i <= k < Z.to_nat i')%nat
        then u8 <$> (reads_from SPI_FIFO evs !! (k - Z.to_nat i)%nat)
        else rbuf !! k.
Proof.
  intros Hwrap. induction fuel as [| n IH];
    intros rbuf i w rbuf' i' w' Hi Hlen Hrun; [discriminate |].
  cbn [spi_rx_drain] in Hrun.
  destruct (isBitSet_trace SPI_CS 17 w) as [v Hv].
  destruct (isBitSet SPI_CS 17 w) as [b w1]. cbn [snd] in Hv.
  destruct (b && (i <? len)) eqn:Hgo.
  - apply andb_true_iff in Hgo as [_ Hlt]. apply Z.ltb_lt in Hlt.
    assert (Hld : exists x, load SPI_FIFO w1 = (x, (load SPI_FIFO w1).2) /\
                            trace (load SPI_FIFO w1).2 = trace w1 ++ [EvRead SPI_FIFO x]).
    { unfold load. destruct (dev_read SPI_FIFO (hw w1)) as [x d]. now exists x. }
    destruct Hld as (x & Hx & Htx). rewrite Hx in Hrun.
    rewrite Hwrap in Hrun by lia.
    apply IH in Hrun as (Hb & Hl & evs & Ht & Hw & Hn & Hk);
      [| lia | rewrite length_insert; exact Hlen].
    rewrite length_insert in Hl.
    split; [lia |]. split; [exact Hl |].
    exists ([EvRead SPI_CS v] ++ [EvRead SPI_FIFO x] ++ evs).
    split; [rewrite Ht, Htx, Hv, <- !app_assoc; reflexivity |].
    split; [rewrite !writes_to_app, Hw; reflexivity |].
    assert (Hreads : reads_from SPI_FIFO ([EvRead SPI_CS v] ++ [EvRead SPI_FIFO x] ++ evs) =
                     x :: reads_from SPI_FIFO evs).
    { rewrite !reads_from_app. reflexivity. }
    rewrite Hreads. split; [cbn [length]; rewrite Hn; lia |].
    intros k. rewrite Hk.
    destruct (decide (Z.to_nat (i + 1) <= k < Z.to_nat i')%nat) as [Hin | Hout].
    + rewrite decide_True by lia.
      replace (k - Z.to_nat i)%nat with (S (k - Z.to_nat (i + 1))) by lia.
      reflexivity.
    + destruct (decide (k = Z.to_nat i)) as [-> | Hne].
      * rewrite decide_True by lia. rewrite Nat.sub_diag.
        rewrite list_lookup_insert_eq by lia. reflexivity.
      * rewrite decide_False by lia.
        now rewrite list_lookup_insert_ne by lia.
  - injection Hrun as <- <- <-. split; [lia |]. split; [reflexivity |].
    exists [EvRead SPI_CS v]. split; [exact Hv |].
    split; [reflexivity |]. split; [rewrite Z.sub_diag; reflexivity |].
    intros k. now rewrite decide_False by lia.
Qed.

Lemma spi_rx_loop_spec (wrap : Z -> Z) (len : Z) (inner : nat) :
  (forall x, 0 <= x <= len -> wrap x = x) ->
  forall (fuel : nat) (rbuf : list Z) (i : Z) (w : world D)
         (rbuf' : list Z) (i' : Z) (w' : world D),
    0 <= i <= len -> (Z.to_nat len <= length rbuf)%nat ->
    spi_rx_loop wrap inner fuel len rbuf i w = Some ((rbuf', i'), w') ->
    i' = len /\ length rbuf' = length rbuf /\
    exists evs, trace w' = trace w ++ evs /\
      writes_to SPI_FIFO evs = [] /\
      length (reads_from SPI_FIFO evs) = Z.to_nat (len - i) /\
      forall k : nat,
        rbuf' !! k =
        if decide (Z.to_nat i <= k < Z.to_nat len)%nat
        then u8 <$> (reads_from SPI_FIFO evs !! (k - Z.to_nat i)%nat)
        else rbuf !! k.
Proof.
  intros Hwrap. induction fuel as [| n IH];
    intros rbuf i w rbuf' i' w' Hi Hlen Hrun; [discriminate |].
  cbn [spi_rx_loop] in Hrun.
  destruct (Z.ltb_spec i len) as [Hlt | Hge].
  - destruct (spi_rx_drain wrap inner len rbuf i w) as [[[rbuf1 i1] w1] |] eqn:Hdrain;
      [| discriminate].
    apply (spi_rx_drain_spec wrap len Hwrap) in Hdrain
      as (Hb & Hl1 & e1 & Ht1 & Hw1 & Hn1 & Hk1); [| lia | exact Hlen].
    apply IH in Hrun as (-> & Hl2 & e2 & Ht2 & Hw2 & Hn2 & Hk2);
      [| lia | rewrite Hl1; exact Hlen].
    split; [reflexivity |]. split; [now rewrite Hl2, Hl1 |].
    exists (e1 ++ e2). split; [rewrite Ht2, Ht1, app_assoc; reflexivity |].
    split; [now rewrite writes_to_app, Hw1, Hw2 |].
    rewrite reads_from_app. split; [rewrite length_app, Hn1, Hn2; lia |].
    intros k. rewrite Hk2, Hk1.
    destruct (decide (Z.to_nat i1 <= k < Z.to_nat len)%nat) as [Hin2 | Hout2].
    + rewrite decide_True by lia.
      rewrite lookup_app_r by lia. f_equal. f_equal. lia.
    + destruct (decide (Z.to_nat i <= k < Z.to_nat i1)%nat) as [Hin1 | Hout1].
      * rewrite decide_True by lia. now rewrite lookup_app_l by lia.
      * now rewrite decide_False by lia.
  - injection Hrun as <- <- <-. split; [lia |]. split; [reflexivity |].
    exists []. rewrite app_nil_r. replace (len - i) with 0 by lia.
    split; [reflexivity |]. split; [reflexivity |]. split; [reflexivity |].
    intros k. now rewrite decide_False by lia.
Qed.

End Transfers.

Lemma buffer_of_lookups (rbuf rbuf' reads : list Z) (n : nat) :
  length rbuf' = length rbuf -> (n <= length rbuf)%nat -> length reads = n ->
  (forall k : nat,
     rbuf' !! k =
     if decide (Z.to_nat 0 <= k < n)%nat
     then u8 <$> (reads !! (k - Z.to_nat 0)%nat) else rbuf !! k) ->
  take n rbuf' = u8 <$> reads /\ drop n rbuf' = drop n rbuf.
Proof.
  intros Hl Hn Hr Hk. split; apply list_eq; intros k.
  - rewrite list_lookup_fmap.
    destruct (decide (k < n)%nat) as [Hlt | Hge].
    + rewrite lookup_take_lt by exact Hlt. rewrite Hk.
      rewrite decide_True by lia. now rewrite Nat.sub_0_r.
    + rewrite lookup_take_ge by lia.
      rewrite (lookup_ge_None_2 reads k) by lia. reflexivity.
  - rewrite !lookup_drop, Hk. now rewrite decide_False by lia.
Qed.

Section TransferTheorems.
Context {D : Type} `{Device D}.

Lemma spi_transfer_prelude (w : world D) :
  exists evs, trace (setBit SPI_CS 7 (clear_fifo SPI_CS w).2).2 = trace w ++ evs /\
              fifo_free SPI_FIFO evs.
Proof.
  cbv [clear_fifo setBit bind ret store]. tidy.
  read_as a d1. read_as b d2. read_as c d3.
  eexists. split; [rewrite <- !app_assoc; reflexivity |]. split; reflexivity.
Qed.

Lemma clearBit_spi_cs_trace (w : world D) :
  exists evs, trace (clearBit SPI_CS 7 w).2 = trace w ++ evs /\ fifo_free SPI_FIFO evs.
Proof.
  cbv [clearBit bind ret store]. tidy. read_as a d1.
  eexists. split; [rewrite <- !app_assoc; reflexivity |]. split; reflexivity.
Qed.

(** X19.  [spi_data_transfer] on any device, for a length that the two
    buffers cover: when it returns, its accesses to the FIFO register are
    first the stores of the first [len] bytes of the write buffer, in
    order, and then [len] loads, with no load before the last store; the
    first [len] bytes of the read buffer are the loaded values cut to 8
    bits, in order, and the rest of the read buffer is unchanged. *)
Theorem spi_data_transfer_moves_buffers (fuel : nat) (wbuf rbuf : list Z) (len : Z)
    (w : world D) (rbuf' : list Z) (w' : world D) :
  0 <= len < 2 ^ 32 ->
  (Z.to_nat len <= length wbuf)%nat -> (Z.to_nat len <= length rbuf)%nat ->
  spi_data_transfer fuel wbuf rbuf len w = Some (rbuf', w') ->
  exists e1 e2,
    trace w' = trace w ++ e1 ++ e2 /\
    writes_to SPI_FIFO e1 = take (Z.to_nat len) wbuf /\
    reads_from SPI_FIFO e1 = [] /\
    writes_to SPI_FIFO e2 = [] /\
    length (reads_from SPI_FIFO e2) = Z.to_nat len /\
    take (Z.to_nat len) rbuf' = u8 <$> reads_from SPI_FIFO e2 /\
    drop (Z.to_nat len) rbuf' = drop (Z.to_nat len) rbuf /\
    length rbuf' = length rbuf.
Proof.
  intros Hlen Hwb Hrb Hrun.
  assert (Hwrap : forall x, 0 <= x <= len -> u32 x = x).
  { intros x Hx. apply Z.mod_small. lia. }
  unfold spi_data_transfer in Hrun. cbv [bindo lift] in Hrun.
  destruct (spi_transfer_prelude w) as (e0 & Ht0 & Hw0 & Hr0).
  destruct (clear_fifo SPI_CS w) as [u0 w0]. cbn [snd] in Ht0.
  destruct (setBit SPI_CS 7 w0) as [v1 w1]. cbn [snd] in Ht0.
  destruct (spi_tx_loop u32 fuel fuel wbuf len 0 w1) as [[i2 w2] |] eqn:Htx; [| discriminate].
  apply (spi_tx_loop_spec u32 wbuf len fuel Hwrap) in Htx
    as (_ & etx & Httx & Hwtx & Hrtx); [| lia].
  destruct (spi_rx_loop u32 fuel fuel len rbuf 0 w2) as [[[rb3 i3] w3] |] eqn:Hrx;
    [| discriminate].
  apply (spi_rx_loop_spec u32 len fuel Hwrap) in Hrx
    as (_ & Hl3 & erx & Htrx & Hwrx & Hnrx & Hk); [| lia | exact Hrb].
  destruct (clearBit_spi_cs_trace w3) as (e4 & Ht4 & Hw4 & Hr4).
  destruct (clearBit SPI_CS 7 w3) as [v4 w4]. cbn [snd] in Ht4.
  destruct (isBitSet_trace SPI_CS 16 w4) as [v5 Ht5].
  destruct (isBitSet SPI_CS 16 w4) as [err w5]. cbn [snd] in Ht5.
  assert (Hend : exists e6, trace w' = trace w5 ++ e6 /\ fifo_free SPI_FIFO e6 /\ rbuf' = rb3).
  { destruct err; cbv [puts ret emit] in Hrun; injection Hrun as <- <-.
    - eexists. split; [reflexivity |]. split; [split; reflexivity | reflexivity].
    - exists []. rewrite app_nil_r. split; [reflexivity |].
      split; [split; reflexivity | reflexivity]. }
  destruct Hend as (e6 & Ht6 & [Hw6 Hr6] & ->).
  rewrite Z.sub_0_r in Hwtx, Hnrx.
  destruct (buffer_of_lookups rbuf rb3 (reads_from SPI_FIFO erx) (Z.to_nat len)
              Hl3 Hrb Hnrx) as [Htake Hdrop].
  { intros k. rewrite Hk. reflexivity. }
  exists (e0 ++ etx), (erx ++ e4 ++ [EvRead SPI_CS v5] ++ e6).
  split; [rewrite Ht6, Ht5, Ht4, Htrx, Httx, Ht0, <- !app_assoc; reflexivity |].
  rewrite !writes_to_app, !reads_from_app.
  rewrite Hw0, Hr0, Hwtx, Hrtx, Hwrx, Hw4, Hr4, Hw6, Hr6.
  change (writes_to SPI_FIFO [EvRead SPI_CS v5]) with (@nil Z).
  change (reads_from SPI_FIFO [EvRead SPI_CS v5]) with (@nil Z).
  rewrite !app_nil_r. cbn [app]. change (Z.to_nat 0) with 0%nat.
  rewrite (bytes_from_take wbuf (Z.to_nat len) Hwb).
  repeat split; auto.
Qed.

(** X20.  [spi_write] on any device, its counter being a [uint8_t]: for
    a length up to 255 that the buffer covers, when it returns its stores
    to the FIFO register are the first [len] bytes of the buffer, in
    order, and it never loads from the FIFO; for a length of 256 or more
    it never returns, whatever the device does. *)
Theorem spi_write_counter_is_a_byte (fuel : nat) (wbuf : list Z) (len : Z) (w : world D) :
  0 <= len ->
  (len <= 255 -> (Z.to_nat len <= length wbuf)%nat ->
   forall u w', spi_write fuel wbuf len w = Some (u, w') ->
     exists evs, trace w' = trace w ++ evs /\
       writes_to SPI_FIFO evs = take (Z.to_nat len) wbuf /\
       reads_from SPI_FIFO evs = []) /\
  (256 <= len -> spi_write fuel wbuf len w = None).
Proof.
  intros Hlen. split.
  - intros Hle Hwb u w' Hrun.
    assert (Hwrap : forall x, 0 <= x <= len -> u8 x = x).
    { intros x Hx. apply Z.mod_small. lia. }
    unfold spi_write in Hrun. cbv [bindo lift] in Hrun.
    destruct (spi_transfer_prelude w) as (e0 & Ht0 & Hw0 & Hr0).
    destruct (clear_fifo SPI_CS w) as [u0 w0]. cbn [snd] in Ht0.
    destruct (setBit SPI_CS 7 w0) as [v1 w1]. cbn [snd] in Ht0.
    destruct (spi_tx_loop u8 fuel fuel wbuf len 0 w1) as [[i2 w2] |] eqn:Htx; [| discriminate].
    apply (spi_tx_loop_spec u8 wbuf len fuel Hwrap) in Htx
      as (_ & etx & Httx & Hwtx & Hrtx); [| lia].
    cbv [ret] in Hrun. injection Hrun as _ <-.
    exists (e0 ++ etx). split; [rewrite Httx, Ht0, app_assoc; reflexivity |].
    rewrite writes_to_app, reads_from_app, Hw0, Hr0, Hwtx, Hrtx, Z.sub_0_r.
    change (Z.to_nat 0) with 0%nat.
    split; [apply bytes_from_take; exact Hwb | reflexivity].
  - intros Hbig.
    assert (Hfill : forall n i w0 i' w1,
              0 <= i < 256 -> spi_tx_fill u8 n wbuf len i w0 = Some (i', w1) ->
              0 <= i' < 256).
    { induction n as [| n IH]; intros i w0 i' w1 Hi Hf; [discriminate |].
      cbn [spi_tx_fill] in Hf.
      destruct (isBitSet SPI_CS 18 w0) as [b w2].
      destruct (b && (i <? len)).
      - destruct (store SPI_FIFO (nth (Z.to_nat i) wbuf 0) w2) as [u w3].
        apply IH in Hf; [exact Hf |]. unfold u8. apply Z.mod_pos_bound. lia.
      - injection Hf as <- _. exact Hi. }
    assert (Hloop : forall n i w0, 0 <= i < 256 ->
              spi_tx_loop u8 fuel n wbuf len i w0 = None).
    { induction n as [| n IH]; intros i w0 Hi; [reflexivity |].
      cbn [spi_tx_loop].
      destruct (Z.ltb_spec i len) as [_ | Hge]; [| lia].
      destruct (spi_tx_fill u8 fuel wbuf len i w0) as [[i1 w1] |] eqn:Hf; [| reflexivity].
      apply IH. eapply Hfill; eassumption. }
    unfold spi_write. cbv [bindo lift].
    destruct (clear_fifo SPI_CS w) as [u0 w0].
    destruct (setBit SPI_CS 7 w0) as [v1 w1].
    now rewrite Hloop by lia.
Qed.

(** X21.  [spi_read] on any device, its counter being a [uint8_t].  When
    the transfer-active bit reads clear it prints "spi_read() error -
    nothing to read from fifo" and returns at once: the buffer is
    untouched and the only access is that one load of the control
    register.  When the bit reads set and the length is 256 or more it
    never returns.  When the bit reads set and the length is up to 255 and
    within the buffer, a run that returns has filled the first [len] bytes
    of the buffer with the values loaded from the FIFO, cut to 8 bits, in
    order, and left the rest of the buffer unchanged. *)
Theorem spi_read_needs_active_transfer (fuel : nat) (rbuf : list Z) (len : Z) (w : world D) :
  0 <= len ->
  ((isBitSet SPI_CS 7 w).1 = false ->
   exists v,
     spi_read fuel rbuf len w =
     Some (rbuf, World (hw (isBitSet SPI_CS 7 w).2) (base_pointer w)
                   (trace w ++ [EvRead SPI_CS v;
                                EvPuts "spi_read() error - nothing to read from fifo"]))) /\
  ((isBitSet SPI_CS 7 w).1 = true -> 256 <= len -> spi_read fuel rbuf len w = None) /\
  ((isBitSet SPI_CS 7 w).1 = true -> len <= 255 -> (Z.to_nat len <= length rbuf)%nat ->
   forall rbuf' w', spi_read fuel rbuf len w = Some (rbuf', w') ->
     exists evs, trace w' = trace w ++ evs /\
       writes_to SPI_FIFO evs = [] /\
       take (Z.to_nat len) rbuf' = u8 <$> reads_from SPI_FIFO evs /\
       drop (Z.to_nat len) rbuf' = drop (Z.to_nat len) rbuf).
Proof.
  intros Hlen. unfold spi_read. cbv [bindo lift].
  destruct (isBitSet_trace SPI_CS 7 w) as [v Hv].
  assert (Hbp : base_pointer (isBitSet SPI_CS 7 w).2 = base_pointer w).
  { unfold isBitSet, bind, ret, load. now destruct (dev_read SPI_CS (hw w)). }
  destruct (isBitSet SPI_CS 7 w) as [ta w1]. cbn [fst snd] in *.
  split; [| split].
  - intros ->. cbn [negb]. exists v. cbv [puts ret emit].
    rewrite Hv, Hbp, <- app_assoc. reflexivity.
  - intros -> Hbig. cbn [negb].
    assert (Hdrain : forall n rb i w0 rb' i' w2,
              0 <= i < 256 -> spi_rx_drain u8 n len rb i w0 = Some ((rb', i'), w2) ->
              0 <= i' < 256).
    { induction n as [| n IH]; intros rb i w0 rb' i' w2 Hi Hf; [discriminate |].
      cbn [spi_rx_drain] in Hf.
      destruct (isBitSet SPI_CS 17 w0) as [b w3].
      destruct (b && (i <? len)).
      - destruct (load SPI_FIFO w3) as [x w4].
        apply IH in Hf; [exact Hf |]. unfold u8. apply Z.mod_pos_bound. lia.
      - injection Hf as _ <- _. exact Hi. }
    assert (Hloop : forall n rb i w0, 0 <= i < 256 ->
              spi_rx_loop u8 fuel n len rb i w0 = None).
    { induction n as [| n IH]; intros rb i w0 Hi; [reflexivity |].
      cbn [spi_rx_loop].
      destruct (Z.ltb_spec i len) as [_ | Hge]; [| lia].
      destruct (spi_rx_drain u8 fuel len rb i w0) as [[[rb1 i1] w2] |] eqn:Hf; [| reflexivity].
      apply IH. eapply Hdrain; eassumption. }
    now rewrite Hloop by lia.
  - intros -> Hle Hrb rbuf' w' Hrun. cbn [negb] in Hrun.
    assert (Hwrap : forall x, 0 <= x <= len -> u8 x = x).
    { intros x Hx. apply Z.mod_small. lia. }
    destruct (spi_rx_loop u8 fuel fuel len rbuf 0 w1) as [[[rb3 i3] w3] |] eqn:Hrx;
      [| discriminate].
    apply (spi_rx_loop_spec u8 len fuel Hwrap) in Hrx
      as (_ & Hl3 & erx & Htrx & Hwrx & Hnrx & Hk); [| lia | exact Hrb].
    destruct (clearBit_spi_cs_trace w3) as (e4 & Ht4 & Hw4 & Hr4).
    destruct (clearBit SPI_CS 7 w3) as [v4 w4]. cbn [snd] in Ht4.
    cbv [ret] in Hrun. injection Hrun as <- <-. cbn [fst].
    rewrite Z.sub_0_r in Hnrx.
    destruct (buffer_of_lookups rbuf rb3 (reads_from SPI_FIFO erx) (Z.to_nat len)
                Hl3 Hrb Hnrx) as [Htake Hdrop].
    { intros k. rewrite Hk. reflexivity. }
    exists ([EvRead SPI_CS v] ++ erx ++ e4).
    split; [rewrite Ht4, Htrx, Hv, <- !app_assoc; reflexivity |].
    rewrite !writes_to_app, !reads_from_app, Hwrx, Hw4, Hr4.
    change (reads_from SPI_FIFO [EvRead SPI_CS v]) with (@nil Z).
    change (writes_to SPI_FIFO [EvRead SPI_CS v]) with (@nil Z).
    rewrite !app_nil_r. cbn [app].
    split; [reflexivity |]. split; [exact Htake | exact Hdrop].
Qed.

End TransferTheorems.

Lemma spi_data_transfer_moves_buffers_witness :
  let w := World (Loopback [] 0) (fun _ => 1) [] in
  exists w', spi_data_transfer 8 [0xDE; 0xAD; 0xBE; 0xEF; 0x55] [0; 0; 0; 0; 0x77] 4 w =
             Some ([0xDE; 0xAD; 0xBE; 0xEF; 0x77], w') /\
             writes_to SPI_FIFO (trace w') = [0xDE; 0xAD; 0xBE; 0xEF].
Proof.
  intros w.
  assert (Hrun : exists w',
            spi_data_transfer 8 [0xDE; 0xAD; 0xBE; 0xEF; 0x55] [0; 0; 0; 0; 0x77] 4 w =
            Some ([0xDE; 0xAD; 0xBE; 0xEF; 0x77], w')).
  { vm_compute. eexists. reflexivity. }
  destruct Hrun as [w' Hrun]. exists w'. split; [exact Hrun |].
  destruct (spi_data_transfer_moves_buffers 8 [0xDE; 0xAD; 0xBE; 0xEF; 0x55]
              [0; 0; 0; 0; 0x77] 4 w _ w'
              ltac:(lia) ltac:(vm_compute; lia) ltac:(vm_compute; lia) Hrun)
    as (e1 & e2 & Ht & Hw1 & _ & Hw2 & _).
  rewrite Ht. cbn [trace w app]. now rewrite writes_to_app, Hw1, Hw2.
Defined.

Lemma spi_write_counter_is_a_byte_witness :
  let w := World (Loopback [] 0) (fun _ => 1) [] in
  spi_write 600 (repeat 0xA5 300) 256 w = None /\
  exists w', spi_write 8 [0x9F; 0x00] 2 w = Some (tt, w') /\
             writes_to SPI_FIFO (trace w') = [0x9F; 0x00].
Proof.
  intros w.
  destruct (spi_write_counter_is_a_byte 600 (repeat 0xA5 300) 256 w ltac:(lia)) as [_ Hhang].
  split; [exact (Hhang ltac:(lia)) |].
  assert (Hrun : exists w', spi_write 8 [0x9F; 0x00] 2 w = Some (tt, w')).
  { vm_compute. eexists. reflexivity. }
  destruct Hrun as [w' Hrun]. exists w'. split; [exact Hrun |].
  destruct (spi_write_counter_is_a_byte 8 [0x9F; 0x00] 2 w ltac:(lia)) as [Hok _].
  destruct (Hok ltac:(lia) ltac:(vm_compute; lia) tt w' Hrun) as (evs & Ht & Hw & _).
  rewrite Ht. cbn [trace w app]. exact Hw.
Defined.

Lemma spi_read_needs_active_transfer_witness :
  let idle := World (Loopback [0x11] 0) (fun _ => 1) [] in
  let active := World (Loopback [0x11; 0x22] 0x80) (fun _ => 1) [] in
  (exists w', spi_read 8 [0; 0] 2 idle = Some ([0; 0], w')) /\
  (exists w', spi_read 8 [0; 0; 0x33] 2 active = Some ([0x11; 0x22; 0x33], w')) /\
  spi_read 8 [0; 0] 256 active = None.
Proof.
  intros idle active.
  destruct (spi_read_needs_active_transfer 8 [0; 0] 2 idle ltac:(lia)) as (Hidle & _).
  destruct (Hidle eq_refl) as [v Hv].
  destruct (spi_read_needs_active_transfer 8 [0; 0] 256 active ltac:(lia)) as (_ & Hhang & _).
  split; [eexists; exact Hv |].
  split; [vm_compute; eexists; reflexivity |].
  exact (Hhang eq_refl ltac:(lia)).
Defined.

(** ** Two-wire engine: reading into a buffer *)

Section ReadBuffer.
Context {D : Type} `{Device D}.

Lemma fifo_drain_spec (len : Z) :
  len <= 255 ->
  forall (fuel : nat) (buf : list Z) (i : Z) (w : world D)
         (buf' : list Z) (i' : Z) (w' : world D),
    0 <= i <= len -> (Z.to_nat len <= length buf)%nat ->
    fifo_drain fuel len buf i w = Some ((buf', i'), w') ->
    i <= i' <= len /\ length buf' = length buf /\
    exists evs, trace w' = trace w ++ evs /\
      writes_to BSC_FIFO evs = [] /\
      length (reads_from BSC_FIFO evs) = Z.to_nat (i' - i) /\
      forall k : nat,
        buf' !! k =
        if decide (Z.to_nat i <= k < Z.to_nat i')%nat
        then u8 <$> (reads_from BSC_FIFO evs !! (k - Z.to_nat i)%nat)
        else buf !! k.
Proof.
  intros Hmax. induction fuel as [| n IH];
    intros buf i w buf' i' w' Hi Hlen Hrun; [discriminate |].
  cbn [fifo_drain] in Hrun.
  destruct (isBitSet_trace BSC_S 5 w) as [v Hv].
  destruct (isBitSet BSC_S 5 w) as [b w1]. cbn [snd] in Hv.
  destruct (b && (i <? len)) eqn:Hgo.
  - apply andb_true_iff in Hgo as [_ Hlt]. apply Z.ltb_lt in Hlt.
    assert (Hld : exists x, load BSC_FIFO w1 = (x, (load BSC_FIFO w1).2) /\
                            trace (load BSC_FIFO w1).2 = trace w1 ++ [EvRead BSC_FIFO x]).
    { unfold load. destruct (dev_read BSC_FIFO (hw w1)) as [x d]. now exists x. }
    destruct Hld as (x & Hx & Htx). rewrite Hx in Hrun.
    replace (u8 (i + 1)) with (i + 1) in Hrun by (symmetry; apply Z.mod_small; lia).
    apply IH in Hrun as (Hb & Hl & evs & Ht & Hw & Hn & Hk);
      [| lia | rewrite length_insert; exact Hlen].
    rewrite length_insert in Hl.
    split; [lia |]. split; [exact Hl |].
    exists ([EvRead BSC_S v] ++ [EvRead BSC_FIFO x] ++ evs).
    split; [rewrite Ht, Htx, Hv, <- !app_assoc; reflexivity |].
    split; [rewrite !writes_to_app, Hw; reflexivity |].
    assert (Hreads : reads_from BSC_FIFO ([EvRead BSC_S v] ++ [EvRead BSC_FIFO x] ++ evs) =
                     x :: reads_from BSC_FIFO evs).
    { rewrite !reads_from_app. reflexivity. }
    rewrite Hreads. split; [cbn [length]; rewrite Hn; lia |].
    intros k. rewrite Hk.
    destruct (decide (Z.to_nat (i + 1) <= k < Z.to_nat i')%nat) as [Hin | Hout].
    + rewrite decide_True by lia.
      replace (k - Z.to_nat i)%nat with (S (k - Z.to_nat (i + 1))) by lia.
      reflexivity.
    + destruct (decide (k = Z.to_nat i)) as [-> | Hne].
      * rewrite decide_True by lia. rewrite Nat.sub_diag.
        rewrite list_lookup_insert_eq by lia. reflexivity.
      * rewrite decide_False by lia.
        now rewrite list_lookup_insert_ne by lia.
  - injection Hrun as <- <- <-. split; [lia |]. split; [reflexivity |].
    exists [EvRead BSC_S v]. split; [exact Hv |].
    split; [reflexivity |]. split; [rewrite Z.sub_diag; reflexivity |].
    intros k. now rewrite decide_False by lia.
Qed.

Lemma read_poll_spec (len : Z) (inner : nat) :
  len <= 255 ->
  forall (fuel : nat) (buf : list Z) (i : Z) (w : world D)
         (buf' : list Z) (i' : Z) (w' : world D),
    0 <= i <= len -> (Z.to_nat len <= length buf)%nat ->
    read_poll inner fuel len buf i w = Some ((buf', i'), w') ->
    i <= i' <= len /\ length buf' = length buf /\
    exists evs, trace w' = trace w ++ evs /\
      writes_to BSC_FIFO evs = [] /\
      length (reads_from BSC_FIFO evs) = Z.to_nat (i' - i) /\
      forall k : nat,
        buf' !! k =
        if decide (Z.to_nat i <= k < Z.to_nat i')%nat
        then u8 <$> (reads_from BSC_FIFO evs !! (k - Z.to_nat i)%nat)
        else buf !! k.
Proof.
  intros Hmax. induction fuel as [| n IH];
    intros buf i w buf' i' w' Hi Hlen Hrun; [discriminate |].
  cbn [read_poll] in Hrun.
  destruct (isBitSet_trace BSC_S 1 w) as [v Hv].
  destruct (isBitSet BSC_S 1 w) as [done w0]. cbn [snd] in Hv.
  destruct done.
  - injection Hrun as <- <- <-. split; [lia |]. split; [reflexivity |].
    exists [EvRead BSC_S v]. split; [exact Hv |].
    split; [reflexivity |]. split; [rewrite Z.sub_diag; reflexivity |].
    intros k. now rewrite decide_False by lia.
  - destruct (fifo_drain inner len buf i w0) as [[[buf1 i1] w1] |] eqn:Hdrain;
      [| discriminate].
    apply (fifo_drain_spec len Hmax) in Hdrain
      as (Hb & Hl1 & e1 & Ht1 & Hw1 & Hn1 & Hk1); [| lia | exact Hlen].
    apply IH in Hrun as (Hb2 & Hl2 & e2 & Ht2 & Hw2 & Hn2 & Hk2);
      [| lia | rewrite Hl1; exact Hlen].
    split; [lia |]. split; [now rewrite Hl2, Hl1 |].
    exists ([EvRead BSC_S v] ++ e1 ++ e2).
    split; [rewrite Ht2, Ht1, Hv, <- !app_assoc; reflexivity |].
    split; [rewrite !writes_to_app, Hw1, Hw2; reflexivity |].
    rewrite !reads_from_app.
    change (reads_from BSC_FIFO [EvRead BSC_S v]) with (@nil Z). cbn [app].
    split; [rewrite length_app, Hn1, Hn2; lia |].
    intros k. rewrite Hk2, Hk1.
    destruct (decide (Z.to_nat i1 <= k < Z.to_nat i')%nat) as [Hin2 | Hout2].
    + rewrite decide_True by lia.
      rewrite lookup_app_r by lia. f_equal. f_equal. lia.
    + destruct (decide (Z.to_nat i <= k < Z.to_nat i1)%nat) as [Hin1 | Hout1].
      * rewrite decide_True by lia. now rewrite lookup_app_l by lia.
      * now rewrite decide_False by lia.
Qed.

Lemma i2c_read_prelude (len : Z) (w : world D) :
  exists evs,
    trace (setBit BSC_C 7 (setBit BSC_C 0 (store BSC_DLEN len
             (reset_error_status (clear_fifo BSC_C w).2).2).2).2).2 = trace w ++ evs /\
    fifo_free BSC_FIFO evs.
Proof.
  cbv [clear_fifo reset_error_status setBit bind ret store]. tidy.
  read_as a1 d1. read_as a2 d2. read_as a3 d3. read_as a4 d4. read_as a5 d5.
  read_as a6 d6. read_as a7 d7.
  eexists. split; [rewrite <- !app_assoc; reflexivity |]. split; reflexivity.
Qed.

Lemma i2c_read_status_outcome (i len : Z) (w : world D) :
  exists evs,
    trace (i2c_read_status i len w).2 = trace w ++ evs /\
    fifo_free BSC_FIFO evs /\
    ((i2c_read_status i len w).1 = 0 -> len <= i).
Proof.
  unfold i2c_read_status, done_and_idle.
  cbv [bind ret puts emit setBit store]. tidy.
  rewrite isBitSet_load by lia. read_as s1 d1.
  destruct (Z.testbit s1 1); tidy;
    [ rewrite isBitSet_load by lia; read_as s0 d2; destruct (Z.testbit s0 0); tidy;
      try read_as s1' d3 | ];
    rewrite isBitSet_load by lia; read_as s8 d4;
    (destruct (Z.testbit s8 8); tidy;
     [ | rewrite isBitSet_load by lia; read_as s9 d5;
         destruct (Z.testbit s9 9); tidy;
         [ | rewrite isBitSet_load by lia; read_as s5 d6;
             destruct (Z.testbit s5 5); cbn [orb]; tidy;
             [ | destruct (Z.ltb_spec i len); tidy ] ] ]);
    (eexists; split; [ rewrite <- ?app_assoc; reflexivity | ]);
    (split; [ split; reflexivity | ]);
    cbn [fst]; intros Hr; try discriminate Hr; lia.
Qed.

(** X22.  [i2c_read] on any device, for a length up to 255 that the
    buffer covers: when it returns, the values it took from the FIFO,
    [n] of them with [n] at most [len], are the first [n] bytes of the
    buffer, cut to 8 bits and in order; the rest of the buffer is
    unchanged; it never stores to the FIFO; and a result of 0 means that
    all [len] bytes were taken. *)
Theorem i2c_read_fills_prefix (fuel : nat) (buf : list Z) (len : Z) (w : world D)
    (res : Z) (buf' : list Z) (w' : world D) :
  0 <= len <= 255 -> (Z.to_nat len <= length buf)%nat ->
  i2c_read fuel buf len w = Some ((res, buf'), w') ->
  exists evs,
    trace w' = trace w ++ evs /\
    writes_to BSC_FIFO evs = [] /\
    (length (reads_from BSC_FIFO evs) <= Z.to_nat len)%nat /\
    take (length (reads_from BSC_FIFO evs)) buf' = u8 <$> reads_from BSC_FIFO evs /\
    drop (length (reads_from BSC_FIFO evs)) buf' = drop (length (reads_from BSC_FIFO evs)) buf /\
    (res = 0 -> length (reads_from BSC_FIFO evs) = Z.to_nat len).
Proof.
  intros Hlen Hbuf Hrun.
  unfold i2c_read in Hrun. cbv [bindo lift] in Hrun.
  destruct (i2c_read_prelude len w) as (e0 & Ht0 & Hw0 & Hr0).
  destruct (clear_fifo BSC_C w) as [u0 w0]. cbn [snd] in Ht0.
  destruct (reset_error_status w0) as [u1 w1]. cbn [snd] in Ht0.
  destruct (store BSC_DLEN len w1) as [u2 w2]. cbn [snd] in Ht0.
  destruct (setBit BSC_C 0 w2) as [v3 w3]. cbn [snd] in Ht0.
  destruct (setBit BSC_C 7 w3) as [v4 w4]. cbn [snd] in Ht0.
  destruct (read_poll fuel fuel len buf 0 w4) as [[[buf1 i1] w5] |] eqn:Hpoll;
    [| discriminate].
  apply (read_poll_spec len fuel (proj2 Hlen)) in Hpoll
    as (Hb & Hl & e1 & Ht1 & Hw1 & Hn1 & Hk); [| lia | exact Hbuf].
  cbn [fst snd] in Hrun.
  destruct (i2c_read_status_outcome i1 len w5) as (e2 & Ht2 & [Hw2 Hr2] & Hzero).
  destruct (i2c_read_status i1 len w5) as [r w6]. cbn [fst snd] in Ht2, Hzero.
  cbv [ret] in Hrun. injection Hrun as <- <- <-.
  rewrite Z.sub_0_r in Hn1.
  destruct (buffer_of_lookups buf buf1 (reads_from BSC_FIFO e1) (Z.to_nat i1) Hl
              ltac:(lia) Hn1) as [Htake Hdrop].
  { intros k. rewrite Hk. reflexivity. }
  exists (e0 ++ e1 ++ e2).
  split; [rewrite Ht2, Ht1, Ht0, <- !app_assoc; reflexivity |].
  rewrite !writes_to_app, !reads_from_app, Hw0, Hr0, Hw1, Hw2, Hr2, !app_nil_r.
  cbn [app]. rewrite Hn1.
  split; [reflexivity |]. split; [lia |]. split; [exact Htake |]. split; [exact Hdrop |].
  intros Hr. specialize (Hzero Hr). lia.
Qed.

End ReadBuffer.

Lemma i2c_read_fills_prefix_witness :
  let w := boot (bsc [0; 0; 0; S_RXD; S_RXD; S_RXD; 0; S_DONE] [0x41; 0x42]) in
  exists w', i2c_read 8 [0; 0; 0x7E] 2 w = Some ((0, [0x41; 0x42; 0x7E]), w') /\
             length (reads_from BSC_FIFO (trace w')) = 2%nat.
Proof.
  intros w.
  assert (Hrun : exists w', i2c_read 8 [0; 0; 0x7E] 2 w = Some ((0, [0x41; 0x42; 0x7E]), w')).
  { vm_compute. eexists. reflexivity. }
  destruct Hrun as [w' Hrun]. exists w'. split; [exact Hrun |].
  destruct (i2c_read_fills_prefix 8 [0; 0; 0x7E] 2 w 0 [0x41; 0x42; 0x7E] w'
              ltac:(lia) ltac:(vm_compute; lia) Hrun)
    as (evs & Ht & _ & _ & _ & _ & Hall).
  rewrite Ht. cbn [trace w boot app]. exact (Hall eq_refl).
Defined.

(** ** Clock divider: a clock that stays busy *)

Lemma stop_events_silent (s0 s1 : Z) : console (stop_events s0 s1) = [].
Proof.
  unfold stop_events.
  destruct (clk_src_field s0 =? OSC); [reflexivity |].
  destruct (clk_src_field s1 =? PLLD); reflexivity.
Qed.

Lemma kill_events_silent (b1 : Z) : console (kill_events b1) = [].
Proof. unfold kill_events. destruct (clk_busy b1); reflexivity. Qed.

(** X23.  [pwm_set_clock_freq] for a divisor in (0, 4096), on any
    device: after the stop and kill steps it loads the control register
    once more, stores the divisor only if that load shows the busy flag
    clear, and goes on in the same way in both cases: it waits, stores
    0x5A000011 in the control register, waits, loads the control register
    and returns 1 or 255 according to the source field of that last load
    alone.  Nothing is printed.  So when the clock is still busy after the
    kill command the divisor is not programmed and neither the console
    nor the result says so. *)
Theorem pwm_set_clock_freq_busy_skips_divider {D : Type} `{Device D} (div : Z) (w : world D) :
  0 < div < 4096 ->
  exists pre b2 s,
    trace (pwm_set_clock_freq div w).2 =
    trace w ++ pre ++ div_events div b2 ++
      [EvWait 20; EvWrite GPCTL 0x5A000011; EvWait 10; EvRead GPCTL s] /\
    writes_to GPDIV pre = [] /\ console pre = [] /\
    (pwm_set_clock_freq div w).1 = (if clk_src_field s =? OSC then OSC else 255) /\
    (clk_busy b2 = true ->
       writes_to GPDIV (trace (pwm_set_clock_freq div w).2) = writes_to GPDIV (trace w) /\
       console (trace (pwm_set_clock_freq div w).2) = console (trace w)).
Proof.
  intros Hdiv.
  assert (Hguard : (0 <? div) && (div <? 4096) = true).
  { destruct (Z.ltb_spec 0 div); destruct (Z.ltb_spec div 4096); simpl; try reflexivity; lia. }
  destruct (set_clock_div_trace div w) as (c0 & c8 & s0 & s1 & b1 & b2 & Ht).
  set (pre := [EvRead CTL c0; EvWrite CTL (Z.land c0 (u32 (Z.lnot (u32 (Z.shiftl 1 0)))));
               EvRead CTL c8; EvWrite CTL (Z.land c8 (u32 (Z.lnot (u32 (Z.shiftl 1 8)))));
               EvWait 10] ++ stop_events s0 s1 ++ [EvWait 20] ++ kill_events b1).
  assert (Hpre_div : writes_to GPDIV pre = []).
  { unfold pre. now rewrite !writes_to_app, stop_events_no_div, kill_events_no_div. }
  assert (Hpre_con : console pre = []).
  { unfold pre. now rewrite !console_app, stop_events_silent, kill_events_silent. }
  assert (Hrun : exists s,
            trace (pwm_set_clock_freq div w).2 =
            trace (set_clock_div div w).2 ++
              [EvWrite GPCTL 0x5A000011; EvWait 10; EvRead GPCTL s] /\
            (pwm_set_clock_freq div w).1 = (if clk_src_field s =? OSC then OSC else 255)).
  { unfold pwm_set_clock_freq. rewrite Hguard. rewrite bind_run.
    destruct (set_clock_div div w) as [u w1]. cbn [fst snd].
    cbv [bind store uswait emit ret]. tidy.
    rewrite get_clk_src_load. read_as s d. exists s.
    destruct (clk_src_field s =? OSC); tidy; rewrite <- !app_assoc; split; reflexivity. }
  destruct Hrun as (s & Htr & Hret).
  exists pre, b2, s.
  assert (Hall : trace (pwm_set_clock_freq div w).2 =
                 trace w ++ pre ++ div_events div b2 ++
                   [EvWait 20; EvWrite GPCTL 0x5A000011; EvWait 10; EvRead GPCTL s]).
  { rewrite Htr, Ht. unfold pre. rewrite <- !app_assoc. reflexivity. }
  split; [exact Hall |]. split; [exact Hpre_div |]. split; [exact Hpre_con |].
  split; [exact Hret |].
  intros Hbusy. rewrite Hall. unfold div_events. rewrite Hbusy.
  rewrite !writes_to_app, !console_app, Hpre_div, Hpre_con. cbn.
  now rewrite !app_nil_r.
Qed.

Lemma pwm_set_clock_freq_busy_skips_divider_witness :
  let w := boot (Sim {[ GPDIV := 0x5A0C0000 ]} {[ GPCTL := [0x96] ]}) in
  (exists pre b2 s,
     trace (pwm_set_clock_freq 192 w).2 =
     trace w ++ pre ++ div_events 192 b2 ++
       [EvWait 20; EvWrite GPCTL 0x5A000011; EvWait 10; EvRead GPCTL s] /\
     console pre = []) /\
  peek GPDIV (pwm_set_clock_freq 192 w).2 = 0x5A0C0000 /\
  (pwm_set_clock_freq 192 w).1 = 255.
Proof.
  intros w.
  destruct (pwm_set_clock_freq_busy_skips_divider 192 w ltac:(lia))
    as (pre & b2 & s & Ht & _ & Hcon & _).
  split; [exists pre, b2, s; split; [exact Ht | exact Hcon] |].
  split; reflexivity.
Defined.

(** ** Output level and event acknowledgement *)

(** X24.  [gpio_write] on any device, for a pin 0-31: bit 1 is one store
    to GPSET and bit 0 one store to GPCLR, of the word that has the pin's
    bit set and no other, with no load before it (the other pins' bits
    are written as 0, not read back); the result is the bit.  Any other
    bit value prints "invalid bit parameter", accesses no register and
    returns 255. *)
Theorem gpio_write_single_store {D : Type} `{Device D} (pin bit : Z) (w : world D) :
  0 <= pin < 32 ->
  (bit = 1 -> gpio_write pin bit w = (1, (store GPSET (2 ^ pin) w).2)) /\
  (bit = 0 -> gpio_write pin bit w = (0, (store GPCLR (2 ^ pin) w).2)) /\
  (bit <> 0 -> bit <> 1 ->
     gpio_write pin bit w = (255, emit (EvPuts "invalid bit parameter") w)) /\
  (forall i, 0 <= i -> Z.testbit (2 ^ pin) i = (i =? pin)).
Proof.
  intros Hpin.
  assert (Hmask : u32 (Z.shiftl 1 pin) = 2 ^ pin).
  { unfold u32. rewrite Z.shiftl_1_l. apply Z.mod_small.
    split; [apply Z.pow_nonneg; lia | apply Z.pow_lt_mono_r; lia]. }
  unfold gpio_write. rewrite Hmask.
  split; [intros ->; reflexivity |].
  split; [intros ->; reflexivity |].
  split.
  - intros H0 H1.
    destruct (Z.eqb_spec bit 1); [contradiction |].
    destruct (Z.eqb_spec bit 0); [contradiction |]. reflexivity.
  - intros i Hi. rewrite <- Z.shiftl_1_l. apply testbit_one_shifted; lia.
Qed.

Lemma gpio_write_single_store_witness :
  let w := boot (ram ∅) in
  trace (gpio_write 17 1 w).2 = [EvWrite GPSET 0x20000] /\
  trace (gpio_write 17 0 w).2 = [EvWrite GPCLR 0x20000] /\
  (gpio_write 17 2 w).1 = 255.
Proof.
  intros w.
  destruct (gpio_write_single_store 17 1 w ltac:(lia)) as (Hset & _).
  destruct (gpio_write_single_store 17 0 w ltac:(lia)) as (_ & Hclr & _).
  destruct (gpio_write_single_store 17 2 w ltac:(lia)) as (_ & _ & Hbad & _).
  rewrite (Hset eq_refl), (Hclr eq_refl), (Hbad ltac:(lia) ltac:(lia)).
  repeat split.
Defined.

(** X25.  [gpio_reset_event] on any device, for a pin 0-31: it loads
    the event-status register and stores the loaded word with the pin's
    bit set.  Every bit the load showed set is therefore stored as 1
    again, so on a register whose bits are cleared by storing 1 the call
    acknowledges every pending event, not only the pin's. *)
Theorem gpio_reset_event_stores_all_pending {D : Type} `{Device D} (pin : Z) (w : world D) :
  0 <= pin < 32 ->
  exists v x,
    trace (gpio_reset_event pin w).2 = trace w ++ [EvRead GPEDS v; EvWrite GPEDS x] /\
    forall i, 0 <= i -> Z.testbit x i = Z.testbit v i || (i =? pin).
Proof.
  intros Hpin. unfold gpio_reset_event, setBit. cbv [bind ret store]. tidy.
  read_as v d. exists v, (Z.lor v (u32 (Z.shiftl 1 pin))).
  split; [rewrite <- app_assoc; reflexivity |].
  intros i Hi. apply testbit_setbit; lia.
Qed.

Lemma gpio_reset_event_stores_all_pending_witness :
  let w := boot (Sim ∅ {[ GPEDS := [0x30] ]}) in
  writes_to GPEDS (trace (gpio_reset_event 2 w).2) = [0x34].
Proof.
  intros w.
  destruct (gpio_reset_event_stores_all_pending 2 w ltac:(lia)) as (v & x & Ht & _).
  reflexivity.
Defined.
